(** * semantic_world.views.factories: geometric carving and kinematic assembly

    A shallow embedding of [src/semantic_world/views/factories.py].

    Conventions of the embedding.
    - Python floats are rationals ([Q]); [np.pi] is the double it is in
      NumPy, an exact dyadic rational. Where a thickness is subtracted from
      or added to a scale the operation is the double-precision one
      ([Float.sub], [Float.add]): a thickness that is small against the scale
      is absorbed by it, and then no wall is left. The other operations
      (negation, halving, the shift of a pivot, the handle offsets) are kept
      exact: their rounding moves a bound by less than one unit in the last
      place and changes the outcome of no comparison the statements rest on.
    - The interval and product algebra of [random_events] (closed intervals,
      simple events, events, difference, union, intersection, marginal,
      fill_missing_variables, bounding_box) is embedded as executable
      functions on lists of boxes ([Interval], [Product]); their
      set-theoretic meaning is proved in [IntervalFacts] and [ProductFacts].
      The library is not part of the source and its operations are total
      here; its [marginal] is reported to raise [KeyError] on an event without
      simple events, so what is stated about the interior of a dresser is
      stated for regions that have points.
    - Python object identity of [Body] objects is an allocation index handed
      out by the construction monad [M]; the allocation log survives an
      exception, so "what had been built when the error was raised" is
      observable.
    - The world, its merge and its view registry live outside this file of
      the repository; they are modelled from the specification ([World]).
      The forward kinematics that expresses the shapes of one body in the
      frame of another is a parameter (class [Kinematics]).
    - [RoomFactory] carves nothing and is left out.

    Layout: the embedding and the definitions the statements use come first,
    the facts about them follow. *)

From Stdlib Require Import Arith ZArith QArith Qround Qpower Lqa Lia List Bool String
  DecimalString Permutation.
Import ListNotations.
Open Scope Q_scope.

(* ================================================================== *)
(** ** Boolean comparisons on rationals *)

Definition Qlt_bool (a b : Q) : bool := negb (Qle_bool b a).

(* ================================================================== *)
(** ** Double-precision subtraction and addition *)

(** [round] is rounding to the nearest number with a significand of 53 bits,
    ties to even. The exponent range of binary64 is not modelled: there is no
    overflow, and below the smallest normal double nothing is lost, since a
    difference or sum of two doubles that small is a double itself. On
    doubles [sub] and [add] are therefore the IEEE 754 operations as long as
    the result is finite. In Python [1.0 - 1e-30 == 1.0]: the thickness
    [1e-30] is absorbed. *)
Module Float.

(** The exponent of the leading bit of a positive rational: the largest [e]
    with [2 ^ e <= x]. *)
Definition ilog2 (x : Q) : Z :=
  let e0 := (Z.log2 (Qnum x) - Z.log2 (Zpos (Qden x)))%Z in
  if Qle_bool (2 ^ e0) x then e0 else (e0 - 1)%Z.

(** The nearest integer, ties to even. *)
Definition rne (u : Q) : Z :=
  let f := Qfloor u in
  match Qcompare (u - inject_Z f) (1 # 2) with
  | Lt => f
  | Gt => (f + 1)%Z
  | Eq => if Z.even f then f else (f + 1)%Z
  end.

(** Rounding to a multiple of [2 ^ k]. *)
Definition grid (k : Z) (x : Q) : Q := inject_Z (rne (x / 2 ^ k)) * 2 ^ k.

(** A positive rational rounded to a multiple of its unit in the last place. *)
Definition round_positive (x : Q) : Q := grid (ilog2 x - 52) x.

Definition round (x : Q) : Q :=
  match Qnum x with
  | Z0 => 0
  | Zpos _ => round_positive x
  | Zneg _ => - round_positive (- x)
  end.

(** The rationals that are doubles: rounding leaves them as they are. *)
Definition is_double (x : Q) : bool := Qeq_bool (round x) x.

(** [a - b] and [a + b] on doubles. Every number of the program is a double;
    on a rational that is not one the exact result is kept. *)
Definition sub (a b : Q) : Q :=
  if is_double a && is_double b then round (a - b) else a - b.

Definition add (a b : Q) : Q :=
  if is_double a && is_double b then round (a + b) else a + b.

End Float.

(* ================================================================== *)
(** ** Intervals ([random_events.interval]) *)

Module Interval.

(** [Bound.OPEN] / [Bound.CLOSED]. *)
Inductive BorderType := OPEN | CLOSED.

(** One end of a simple interval; [None] is the infinite end of [reals()]. *)
Definition End := option (Q * BorderType).

(** [SimpleInterval(lower, upper, left, right)]. *)
Record SimpleInterval := mkSI { lower : End; upper : End }.

(** An [Interval] is a union of simple intervals. *)
Definition t := list SimpleInterval.

Definition above (e : End) (q : Q) : bool :=
  match e with
  | None => true
  | Some (a, CLOSED) => Qle_bool a q
  | Some (a, OPEN) => Qlt_bool a q
  end.

Definition below (e : End) (q : Q) : bool :=
  match e with
  | None => true
  | Some (b, CLOSED) => Qle_bool q b
  | Some (b, OPEN) => Qlt_bool q b
  end.

Definition si_contains (s : SimpleInterval) (q : Q) : bool :=
  above (lower s) q && below (upper s) q.

Definition contains (i : t) (q : Q) : bool := existsb (fun s => si_contains s q) i.

(** [closed(a, b)]. *)
Definition closed (a b : Q) : t := [mkSI (Some (a, CLOSED)) (Some (b, CLOSED))].

(** [reals()], the domain of a continuous variable. *)
Definition reals : t := [mkSI None None].

Definition both_closed (x y : BorderType) : BorderType :=
  match x, y with CLOSED, CLOSED => CLOSED | _, _ => OPEN end.

(** The tighter of two lower ends. *)
Definition max_lower (e f : End) : End :=
  match e, f with
  | None, _ => f
  | _, None => e
  | Some (a, x), Some (b, y) =>
      if Qlt_bool a b then f
      else if Qlt_bool b a then e
      else Some (a, both_closed x y)
  end.

(** The tighter of two upper ends. *)
Definition min_upper (e f : End) : End :=
  match e, f with
  | None, _ => f
  | _, None => e
  | Some (a, x), Some (b, y) =>
      if Qlt_bool a b then e
      else if Qlt_bool b a then f
      else Some (a, both_closed x y)
  end.

Definition si_intersection (s r : SimpleInterval) : SimpleInterval :=
  mkSI (max_lower (lower s) (lower r)) (min_upper (upper s) (upper r)).

Definition flip (x : BorderType) : BorderType :=
  match x with OPEN => CLOSED | CLOSED => OPEN end.

(** Complement of a simple interval: what lies below it and what lies above. *)
Definition si_complement (s : SimpleInterval) : t :=
  match lower s with
  | None => []
  | Some (a, x) => [mkSI None (Some (a, flip x))]
  end ++
  match upper s with
  | None => []
  | Some (b, y) => [mkSI (Some (b, flip y)) None]
  end.

Definition intersection (i j : t) : t :=
  flat_map (fun s => map (si_intersection s) j) i.

Definition union (i j : t) : t := i ++ j.

Definition complement (i : t) : t :=
  fold_right (fun s acc => intersection (si_complement s) acc) reals i.

Definition difference (i j : t) : t := intersection i (complement j).

Definition si_is_empty (s : SimpleInterval) : bool :=
  match lower s, upper s with
  | Some (a, x), Some (b, y) =>
      Qlt_bool b a ||
      (Qle_bool b a && match both_closed x y with CLOSED => false | OPEN => true end)
  | _, _ => false
  end.

Definition is_empty (i : t) : bool := forallb si_is_empty i.

(** A point of a simple interval, when it has one. *)
Definition si_pick (s : SimpleInterval) : Q :=
  match lower s, upper s with
  | None, None => 0
  | Some (a, _), None => a + 1
  | None, Some (b, _) => b - 1
  | Some (a, _), Some (b, _) => (a + b) / 2
  end.

Fixpoint pick (i : t) : Q :=
  match i with
  | [] => 0
  | s :: r => if si_is_empty s then pick r else si_pick s
  end.

End Interval.

(* ================================================================== *)
(** ** Product algebra ([random_events.product_algebra]) *)

Module Product.

(** [SpatialVariables.x], [.y], [.z]. *)
Inductive SpatialVariable := X | Y | Z.

Definition var_eqb (v w : SpatialVariable) : bool :=
  match v, w with X, X | Y, Y | Z, Z => true | _, _ => false end.

(** [SpatialVariables.yz]. *)
Definition yz : list SpatialVariable := [Y; Z].

Definition Point : Type := Q * Q * Q.

Definition coord (p : Point) (v : SpatialVariable) : Q :=
  let '(a, b, c) := p in match v with X => a | Y => b | Z => c end.

(** A [SimpleEvent] maps variables to intervals. A variable that is not a key
    of the map ([None]) does not constrain the point. *)
Record SimpleEvent := mkSE {
  on_x : option Interval.t;
  on_y : option Interval.t;
  on_z : option Interval.t }.

Definition get (s : SimpleEvent) (v : SpatialVariable) : option Interval.t :=
  match v with X => on_x s | Y => on_y s | Z => on_z s end.

(** [simple_event[v] = i]. *)
Definition set (s : SimpleEvent) (v : SpatialVariable) (i : Interval.t) : SimpleEvent :=
  match v with
  | X => mkSE (Some i) (on_y s) (on_z s)
  | Y => mkSE (on_x s) (Some i) (on_z s)
  | Z => mkSE (on_x s) (on_y s) (Some i)
  end.

(** [SimpleEvent({x: i, y: j, z: k})]. *)
Definition box (i j k : Interval.t) : SimpleEvent := mkSE (Some i) (Some j) (Some k).

(** An [Event] is a union of simple events. *)
Definition Event := list SimpleEvent.

(** [simple_event.as_composite_set()]. *)
Definition as_composite_set (s : SimpleEvent) : Event := [s].

Definition var_contains (o : option Interval.t) (q : Q) : bool :=
  match o with None => true | Some i => Interval.contains i q end.

Definition se_contains (s : SimpleEvent) (p : Point) : bool :=
  var_contains (on_x s) (coord p X) &&
  var_contains (on_y s) (coord p Y) &&
  var_contains (on_z s) (coord p Z).

Definition contains (e : Event) (p : Point) : bool :=
  existsb (fun s => se_contains s p) e.

Definition var_is_empty (o : option Interval.t) : bool :=
  match o with None => false | Some i => Interval.is_empty i end.

Definition se_is_empty (s : SimpleEvent) : bool :=
  var_is_empty (on_x s) || var_is_empty (on_y s) || var_is_empty (on_z s).

Definition is_empty (e : Event) : bool := forallb se_is_empty e.

Definition var_intersection (o o' : option Interval.t) : option Interval.t :=
  match o, o' with
  | Some i, Some j => Some (Interval.intersection i j)
  | None, _ => o'
  | _, None => o
  end.

Definition se_intersection (s r : SimpleEvent) : SimpleEvent :=
  mkSE (var_intersection (on_x s) (on_x r))
       (var_intersection (on_y s) (on_y r))
       (var_intersection (on_z s) (on_z r)).

(** The domain of a variable that is a key, nothing for one that is not. *)
Definition domain_of (o : option Interval.t) : option Interval.t :=
  match o with None => None | Some _ => Some Interval.reals end.

(** Complement of a simple event, as a disjoint union of simple events: one
    per variable, complemented on that variable, equal to the event on the
    variables before it and unconstrained on the variables after it. *)
Definition se_complement (s : SimpleEvent) : Event :=
  match on_x s with
  | Some i => [mkSE (Some (Interval.complement i)) (domain_of (on_y s)) (domain_of (on_z s))]
  | None => []
  end ++
  match on_y s with
  | Some j => [mkSE (on_x s) (Some (Interval.complement j)) (domain_of (on_z s))]
  | None => []
  end ++
  match on_z s with
  | Some k => [mkSE (on_x s) (on_y s) (Some (Interval.complement k))]
  | None => []
  end.

(** [e & f]. *)
Definition intersection (e f : Event) : Event :=
  flat_map (fun s => map (se_intersection s) f) e.

(** [e | f]. *)
Definition union (e f : Event) : Event := e ++ f.

(** The whole space. *)
Definition universe : Event := [mkSE None None None].

Definition complement (e : Event) : Event :=
  fold_right (fun s acc => intersection (se_complement s) acc) universe e.

(** [e - f]. *)
Definition difference (e f : Event) : Event := intersection e (complement f).

Definition keeps (vars : list SpatialVariable) (v : SpatialVariable) : bool :=
  existsb (var_eqb v) vars.

Definition se_marginal (vars : list SpatialVariable) (s : SimpleEvent) : SimpleEvent :=
  mkSE (if keeps vars X then on_x s else None)
       (if keeps vars Y then on_y s else None)
       (if keeps vars Z then on_z s else None).

(** [e.marginal(vars)]: the projection onto [vars]. Simple events without
    points project to nothing. The projection is total here; the library is
    reported to raise [KeyError] on an event that has no simple event at all,
    so what is stated about a projection is stated for regions that have
    points. *)
Definition marginal (vars : list SpatialVariable) (e : Event) : Event :=
  map (se_marginal vars) (filter (fun s => negb (se_is_empty s)) e).

Definition var_fill (fill : bool) (o : option Interval.t) : option Interval.t :=
  match o with
  | None => if fill then Some Interval.reals else None
  | Some i => Some i
  end.

Definition se_fill_missing_variables (vars : list SpatialVariable) (s : SimpleEvent)
  : SimpleEvent :=
  mkSE (var_fill (keeps vars X) (on_x s))
       (var_fill (keeps vars Y) (on_y s))
       (var_fill (keeps vars Z) (on_z s)).

(** [e.fill_missing_variables(vars)]: variables of [vars] that are not keys
    become keys with their whole domain. *)
Definition fill_missing_variables (vars : list SpatialVariable) (e : Event) : Event :=
  map (se_fill_missing_variables vars) e.

Definition var_union (o o' : option Interval.t) : option Interval.t :=
  match o, o' with
  | Some i, Some j => Some (Interval.union i j)
  | _, _ => None
  end.

(** [e.bounding_box()]: the smallest simple event that contains [e], the
    variable-wise union of its simple events. *)
Definition bounding_box (e : Event) : SimpleEvent :=
  fold_right
    (fun s acc =>
       if se_is_empty s then acc
       else mkSE (var_union (on_x s) (on_x acc))
                 (var_union (on_y s) (on_y acc))
                 (var_union (on_z s) (on_z acc)))
    (box [] [] []) e.

Definition var_pick (o : option Interval.t) : Q :=
  match o with None => 0 | Some i => Interval.pick i end.

Definition se_pick (s : SimpleEvent) : Point :=
  (var_pick (on_x s), var_pick (on_y s), var_pick (on_z s)).

(** Two points with the same coordinates on [vars]. *)
Definition agree (vars : list SpatialVariable) (p p' : Point) : Prop :=
  forall v, keeps vars v = true -> coord p' v = coord p v.

(** Replace one coordinate of a point. *)
Definition with_coord (p : Point) (v : SpatialVariable) (q : Q) : Point :=
  let '(a, b, c) := p in
  match v with X => (q, b, c) | Y => (a, q, c) | Z => (a, b, q) end.

End Product.

(* ================================================================== *)
(** ** Data model *)

(** [class Direction(IntEnum)]. *)
Module Direction.
Inductive t := X | Y | Z | NEGATIVE_X | NEGATIVE_Y | NEGATIVE_Z.

Definition eqb (d e : t) : bool :=
  match d, e with
  | X, X | Y, Y | Z, Z
  | NEGATIVE_X, NEGATIVE_X | NEGATIVE_Y, NEGATIVE_Y | NEGATIVE_Z, NEGATIVE_Z => true
  | _, _ => false
  end.

(** [d in {d1, d2}]. *)
Definition in_set (d : t) (ds : list t) : bool := existsb (eqb d) ds.
End Direction.

(** [world_description.geometry.Scale]. *)
Module Scale.
Record t := mk { x : Q; y : Q; z : Q }.
End Scale.

(** [datastructures.prefixed_name.PrefixedName]. *)
Module PrefixedName.
Record t := mk { name : string; prefix : option string }.
End PrefixedName.

(** [np.pi]: the double nearest to pi, as the rational it is. *)
Definition np_pi : Q := 884279719003555 # 281474976710656.

(** [np.sign]. *)
Definition np_sign (q : Q) : Q := inject_Z (Z.sgn (Qnum q)).

Definition Point3 : Type := Q * Q * Q.
Definition Vector3 : Type := Q * Q * Q.
Definition Vector3_X : Vector3 := (1, 0, 0).
Definition Vector3_Z : Vector3 := (0, 0, 1).

(** [spatial_types.TransformationMatrix]: a translation and a rotation, the
    rotation kept as the roll, pitch and yaw it was built from. *)
Module TransformationMatrix.
Record Rotation := rpy { roll : Q; pitch : Q; yaw : Q }.
Record t := mk { translation : Point3; rotation : Rotation }.

Definition identity_rotation : Rotation := rpy 0 0 0.

(** [TransformationMatrix()]. *)
Definition identity : t := mk (0, 0, 0) identity_rotation.

(** [TransformationMatrix.from_xyz_rpy(x, y, z, roll, pitch, yaw)]. *)
Definition from_xyz_rpy (x y z r p w : Q) : t := mk (x, y, z) (rpy r p w).

(** [TransformationMatrix.from_point_rotation_matrix(point)]: no rotation
    matrix is passed, the rotation is the identity. *)
Definition from_point_rotation_matrix (point : Point3) : t := mk point identity_rotation.

(** [t.to_position().to_np()] and [t.to_np()[:3, 3]]. *)
Definition to_position (T : t) : Point3 := translation T.
End TransformationMatrix.

(** [spatial_types.derivatives.DerivativeMap[float]]. *)
Module DerivativeMap.
Record t := mk {
  position : option Q; velocity : option Q;
  acceleration : option Q; jerk : option Q }.
Definition empty : t := mk None None None None.
Definition set_position (m : t) (q : Q) : t :=
  mk (Some q) (velocity m) (acceleration m) (jerk m).
End DerivativeMap.

(** [world_description.degree_of_freedom.DegreeOfFreedom]. *)
Module DegreeOfFreedom.
Record t := mk {
  name : PrefixedName.t;
  lower_limits : DerivativeMap.t;
  upper_limits : DerivativeMap.t }.
End DegreeOfFreedom.

(** A [ShapeCollection] of boxes is kept as the event it was made from. *)
Definition ShapeCollection : Type := Product.Event.

(** Modelled from the spec: [BoundingBoxCollection.from_event(body,
    event).as_shapes()] is not in the source; a body's region is "a composite
    set of axis-aligned boxes" used "as both collision and visual geometry",
    so the shapes are the boxes of the event. *)
Definition BoundingBoxCollection_from_event_as_shapes (event : Product.Event)
  : ShapeCollection := event.

(** [world_description.world_entity.Body]. [id] is the identity of the Python
    object. *)
Module Body.
Record t := mk {
  id : nat;
  name : PrefixedName.t;
  collision : ShapeCollection;
  visual : ShapeCollection }.

Definition set_shapes (b : t) (shapes : ShapeCollection) : t :=
  mk (id b) (name b) shapes shapes.
End Body.

(** [world_description.connections]: bodies are referred to by identity. *)
Inductive Connection :=
| FixedConnection (parent child : nat) (origin_expression : TransformationMatrix.t)
| PrismaticConnection (parent child : nat) (origin_expression : TransformationMatrix.t)
    (multiplier offset : Q) (axis : Vector3) (dof : DegreeOfFreedom.t)
| RevoluteConnection (parent child : nat) (origin_expression : TransformationMatrix.t)
    (multiplier offset : Q) (axis : Vector3) (dof : DegreeOfFreedom.t).

Definition connection_child (c : Connection) : nat :=
  match c with
  | FixedConnection _ ch _ => ch
  | PrismaticConnection _ ch _ _ _ _ _ => ch
  | RevoluteConnection _ ch _ _ _ _ _ => ch
  end.

Definition connection_parent (c : Connection) : nat :=
  match c with
  | FixedConnection p _ _ => p
  | PrismaticConnection p _ _ _ _ _ _ => p
  | RevoluteConnection p _ _ _ _ _ _ => p
  end.

Definition origin_expression (c : Connection) : TransformationMatrix.t :=
  match c with
  | FixedConnection _ _ T => T
  | PrismaticConnection _ _ T _ _ _ _ => T
  | RevoluteConnection _ _ T _ _ _ _ => T
  end.

Definition is_prismatic (c : Connection) : bool :=
  match c with PrismaticConnection _ _ _ _ _ _ _ => true | _ => false end.

Definition is_revolute (c : Connection) : bool :=
  match c with RevoluteConnection _ _ _ _ _ _ _ => true | _ => false end.

(** *** Views ([views.views]) *)

Module Container.
Record t := mk { body : nat; name : PrefixedName.t }.
End Container.

Module Handle.
Record t := mk { name : PrefixedName.t; body : nat }.
End Handle.

Module Door.
Record t := mk { name : PrefixedName.t; handle : Handle.t; body : nat }.
End Door.

Module DoubleDoor.
Record t := mk { body : nat; left_door : Door.t; right_door : Door.t }.
End DoubleDoor.

Module Drawer.
Record t := mk { name : PrefixedName.t; container : Container.t; handle : Handle.t }.
End Drawer.

Module Dresser.
Record t := mk {
  name : PrefixedName.t; container : Container.t;
  drawers : list Drawer.t; doors : list Door.t }.
End Dresser.

Module Wall.
Record t := mk { name : PrefixedName.t; body : nat }.
End Wall.

Inductive View :=
| ContainerView (v : Container.t)
| HandleView (v : Handle.t)
| DoorView (v : Door.t)
| DoubleDoorView (v : DoubleDoor.t)
| DrawerView (v : Drawer.t)
| DresserView (v : Dresser.t)
| WallView (v : Wall.t).

(** *** The world *)

(** Modelled from the spec: [world.World] is not in the source. "The
    kinematic tree = {bodies, connections, DOFs, views}, with exactly one root
    body when non-empty"; a merge grafts the child world's whole subtree
    "onto a body of the parent world via one new connection; all of the
    child's views/DOFs are carried over unchanged". Registries keep insertion
    order; the root is the body that was added first, every later body enters
    below it through a merge. *)
Module World.
Record t := mk {
  name : option string;
  bodies : list Body.t;
  connections : list Connection;
  degrees_of_freedom : list DegreeOfFreedom.t;
  views : list View }.

(** [World()]. *)
Definition empty : t := mk None [] [] [] [].

Definition add_kinematic_structure_entity (w : t) (b : Body.t) : t :=
  mk (name w) (bodies w ++ [b]) (connections w) (degrees_of_freedom w) (views w).

Definition add_view (w : t) (v : View) : t :=
  mk (name w) (bodies w) (connections w) (degrees_of_freedom w) (views w ++ [v]).

Definition add_degree_of_freedom (w : t) (d : DegreeOfFreedom.t) : t :=
  mk (name w) (bodies w) (connections w) (degrees_of_freedom w ++ [d]) (views w).

Definition set_name (w : t) (n : string) : t :=
  mk (Some n) (bodies w) (connections w) (degrees_of_freedom w) (views w).

(** [w.merge_world(other, connection)]. *)
Definition merge_world (w other : t) (connection : Connection) : t :=
  mk (name w)
     (bodies w ++ bodies other)
     (connections w ++ connection :: connections other)
     (degrees_of_freedom w ++ degrees_of_freedom other)
     (views w ++ views other).

(** [w.root]. *)
Definition root (w : t) : option Body.t := hd_error (bodies w).

Definition container_views (w : t) : list Container.t :=
  flat_map (fun v => match v with ContainerView c => [c] | _ => [] end) (views w).
Definition handle_views (w : t) : list Handle.t :=
  flat_map (fun v => match v with HandleView c => [c] | _ => [] end) (views w).
Definition door_views (w : t) : list Door.t :=
  flat_map (fun v => match v with DoorView c => [c] | _ => [] end) (views w).
Definition double_door_views (w : t) : list DoubleDoor.t :=
  flat_map (fun v => match v with DoubleDoorView c => [c] | _ => [] end) (views w).
Definition drawer_views (w : t) : list Drawer.t :=
  flat_map (fun v => match v with DrawerView c => [c] | _ => [] end) (views w).

Definition body (w : t) (b : nat) : option Body.t :=
  find (fun body => Nat.eqb (Body.id body) b) (bodies w).

(** [body.parent_connection], for the body with identity [b] living in [w]. *)
Definition parent_connection (w : t) (b : nat) : option Connection :=
  find (fun c => Nat.eqb (connection_child c) b) (connections w).

(** [body.collision = shapes; body.visual = shapes] on the body with
    identity [b]. *)
Definition set_shapes (w : t) (b : nat) (shapes : ShapeCollection) : t :=
  mk (name w)
     (map (fun body => if Nat.eqb (Body.id body) b
                       then Body.set_shapes body shapes else body) (bodies w))
     (connections w) (degrees_of_freedom w) (views w).
End World.

(** [shape_collection.as_bounding_box_collection_at_origin(
    TransformationMatrix(reference_frame=frame)).event]: the bounding boxes of
    the collision shapes of a body of a world, expressed in the frame of
    another body of that world. It belongs to the forward kinematics of the
    world, which the factories only call. *)
Class Kinematics := {
  as_bounding_box_collection_at_origin :
    World.t -> forall (reference_frame body : nat), Product.Event }.

(* ================================================================== *)
(** ** Construction monad: allocation log and exceptions *)

Inductive Exception :=
| NotImplementedError
| AssertionError
| ValueError
| IndexError.

Inductive Result (A : Type) :=
| Ok (a : A)
| Raise (e : Exception).
Arguments Ok {A} a.
Arguments Raise {A} e.

(** The names of the [Body] objects constructed so far, oldest first; the
    identity of a body is its position in the log. *)
Definition Heap : Type := list PrefixedName.t.

Definition M (A : Type) : Type := Heap -> Heap * Result A.

Definition ret {A} (a : A) : M A := fun h => (h, Ok a).

Definition bind {A B} (m : M A) (k : A -> M B) : M B :=
  fun h => match m h with
           | (h', Ok a) => k a h'
           | (h', Raise e) => (h', Raise e)
           end.

Definition raise {A} (e : Exception) : M A := fun h => (h, Raise e).

Notation "x <- m ;; k" := (bind m (fun x => k))
  (at level 61, m at next level, right associativity).
Notation "' pat <- m ;; k" := (bind m (fun v => match v with pat => k end))
  (at level 61, pat pattern, m at next level, right associativity).

(** [assert cond]. *)
Definition assert_ (cond : bool) : M unit :=
  if cond then ret tt else raise AssertionError.

(** [Body(name=name)]. *)
Definition Body_new (name : PrefixedName.t) : M Body.t :=
  fun h => (h ++ [name], Ok (Body.mk (List.length h) name [] [])).

(** [l[0]]. *)
Definition first {A} (l : list A) : M A :=
  match l with a :: _ => ret a | [] => raise IndexError end.

(** [w.root] of a world that has its root. *)
Definition root_of (w : World.t) : M Body.t :=
  match World.root w with Some b => ret b | None => raise ValueError end.

(** [view.body]: the body object a view of [w] refers to. *)
Definition body_of (w : World.t) (b : nat) : M Body.t :=
  match World.body w b with Some body => ret body | None => raise ValueError end.

(** A [for] loop threading its state. *)
Fixpoint for_each {A S} (l : list A) (body : S -> A -> M S) (s : S) : M S :=
  match l with
  | [] => ret s
  | a :: l' => s' <- body s a ;; for_each l' body s'
  end.

(** [enumerate(l)]. *)
Definition enumerate {A} (l : list A) : list (nat * A) :=
  combine (seq 0 (List.length l)) l.

(** [f"{index}"]. *)
Definition str_of_nat (n : nat) : string := NilZero.string_of_uint (Nat.to_uint n).

(* ================================================================== *)
(** ** Factories *)

(** [event_from_scale]. *)
Definition event_from_scale (scale : Scale.t) : Product.SimpleEvent :=
  Product.box
    (Interval.closed (- Scale.x scale / 2) (Scale.x scale / 2))
    (Interval.closed (- Scale.y scale / 2) (Scale.y scale / 2))
    (Interval.closed (- Scale.z scale / 2) (Scale.z scale / 2)).

(** *** [class ContainerFactory] *)
Module ContainerFactory.
Record t := mk {
  name : PrefixedName.t;
  scale : Scale.t;
  wall_thickness : Q;
  direction : Direction.t }.

Definition extend_inner_event_in_direction (self : t)
    (inner_event : Product.SimpleEvent) (inner_scale : Scale.t)
  : Product.SimpleEvent :=
  match direction self with
  | Direction.X =>
      Product.set inner_event Product.X
        (Interval.closed (- Scale.x inner_scale / 2) (Scale.x (scale self) / 2))
  | Direction.Y =>
      Product.set inner_event Product.Y
        (Interval.closed (- Scale.y inner_scale / 2) (Scale.y (scale self) / 2))
  | Direction.Z =>
      Product.set inner_event Product.Z
        (Interval.closed (- Scale.z inner_scale / 2) (Scale.z (scale self) / 2))
  | Direction.NEGATIVE_X =>
      Product.set inner_event Product.X
        (Interval.closed (- Scale.x (scale self) / 2) (Scale.x inner_scale / 2))
  | Direction.NEGATIVE_Y =>
      Product.set inner_event Product.Y
        (Interval.closed (- Scale.y (scale self) / 2) (Scale.y inner_scale / 2))
  | Direction.NEGATIVE_Z =>
      Product.set inner_event Product.Z
        (Interval.closed (- Scale.z (scale self) / 2) (Scale.z inner_scale / 2))
  end.

Definition inner_scale (self : t) : Scale.t :=
  Scale.mk (Float.sub (Scale.x (scale self)) (wall_thickness self))
           (Float.sub (Scale.y (scale self)) (wall_thickness self))
           (Float.sub (Scale.z (scale self)) (wall_thickness self)).

Definition create_container_event (self : t) : Product.Event :=
  let outer_box := event_from_scale (scale self) in
  let inner_box := event_from_scale (inner_scale self) in
  let inner_box := extend_inner_event_in_direction self inner_box (inner_scale self) in
  Product.difference (Product.as_composite_set outer_box)
                     (Product.as_composite_set inner_box).

Definition _create (self : t) (world : World.t) : M World.t :=
  let container_event := create_container_event self in
  container_body <- Body_new (name self) ;;
  let collision_shapes := BoundingBoxCollection_from_event_as_shapes container_event in
  let container_body := Body.set_shapes container_body collision_shapes in
  let container_view := Container.mk (Body.id container_body) (name self) in
  let world := World.add_kinematic_structure_entity world container_body in
  let world := World.add_view world (ContainerView container_view) in
  let world := World.set_name world (PrefixedName.name (name self)) in
  ret world.

Definition create (self : t) : M World.t := _create self World.empty.
End ContainerFactory.

(** *** [class HandleFactory] *)
Module HandleFactory.
Record t := mk {
  name : PrefixedName.t;
  scale : Scale.t;
  thickness : Q }.

Definition create_outer_box_event (self : t) : Product.SimpleEvent :=
  let x_interval := Interval.closed 0 (Scale.x (scale self)) in
  let y_interval := Interval.closed (- Scale.y (scale self) / 2) (Scale.y (scale self) / 2) in
  let z_interval := Interval.closed (- Scale.z (scale self) / 2) (Scale.z (scale self) / 2) in
  Product.box x_interval y_interval z_interval.

Definition create_inner_box_event (self : t) : Product.SimpleEvent :=
  let x_interval := Interval.closed 0 (Float.sub (Scale.x (scale self)) (thickness self)) in
  let y_interval :=
    Interval.closed (Float.add (- Scale.y (scale self) / 2) (thickness self))
                    (Float.sub (Scale.y (scale self) / 2) (thickness self)) in
  let z_interval := Interval.closed (- Scale.z (scale self)) (Scale.z (scale self)) in
  Product.box x_interval y_interval z_interval.

Definition create_handle_event (self : t) : Product.Event :=
  let handle_event := Product.as_composite_set (create_outer_box_event self) in
  let inner_box := Product.as_composite_set (create_inner_box_event self) in
  Product.difference handle_event inner_box.

Definition _create (self : t) (world : World.t) : M World.t :=
  let handle_event := create_handle_event self in
  handle <- Body_new (name self) ;;
  let collision := BoundingBoxCollection_from_event_as_shapes handle_event in
  let handle := Body.set_shapes handle collision in
  let handle_view := Handle.mk (name self) (Body.id handle) in
  let world := World.add_kinematic_structure_entity world handle in
  let world := World.add_view world (HandleView handle_view) in
  let world := World.set_name world (PrefixedName.name (name self)) in
  ret world.

Definition create (self : t) : M World.t := _create self World.empty.
End HandleFactory.

(** *** [class DoorFactory] *)
Module DoorFactory.
Record t := mk {
  name : PrefixedName.t;
  scale : Scale.t;
  handle_factory : HandleFactory.t;
  handle_direction : Direction.t }.

Definition create_door_event (self : t) : M Product.SimpleEvent :=
  let x_interval := Interval.closed (- Scale.x (scale self) / 2) (Scale.x (scale self) / 2) in
  let y_interval := Interval.closed (- Scale.y (scale self) / 2) (Scale.y (scale self) / 2) in
  let z_interval := Interval.closed (- Scale.z (scale self) / 2) (Scale.z (scale self) / 2) in
  match handle_direction self with
  | Direction.X =>
      let x_interval := Interval.closed 0 (Scale.x (scale self)) in
      ret (Product.box x_interval y_interval z_interval)
  | Direction.Y =>
      let y_interval := Interval.closed 0 (Scale.y (scale self)) in
      ret (Product.box x_interval y_interval z_interval)
  | Direction.Z => raise NotImplementedError
  | Direction.NEGATIVE_X =>
      let x_interval := Interval.closed (- Scale.x (scale self)) 0 in
      ret (Product.box x_interval y_interval z_interval)
  | Direction.NEGATIVE_Y =>
      let y_interval := Interval.closed (- Scale.y (scale self)) 0 in
      ret (Product.box x_interval y_interval z_interval)
  | Direction.NEGATIVE_Z => raise NotImplementedError
  end.

Definition create_door_T_handle (self : t) : M TransformationMatrix.t :=
  match handle_direction self with
  | Direction.X =>
      ret (TransformationMatrix.from_xyz_rpy
             (Scale.x (scale self) - 0.1) 0.05 0 0 0 (np_pi / 2))
  | Direction.Y =>
      ret (TransformationMatrix.from_xyz_rpy
             0.05 (Scale.y (scale self) - 0.1) 0 0 0 0)
  | Direction.Z => raise NotImplementedError
  | Direction.NEGATIVE_X =>
      ret (TransformationMatrix.from_xyz_rpy
             (- (Scale.x (scale self) - 0.1)) 0.05 0 0 0 (np_pi / 2))
  | Direction.NEGATIVE_Y =>
      ret (TransformationMatrix.from_xyz_rpy
             0.05 (- (Scale.y (scale self) - 0.1)) 0 0 0 0)
  | Direction.NEGATIVE_Z => raise NotImplementedError
  end.

Definition _create (self : t) (world : World.t) : M World.t :=
  door_event <- create_door_event self ;;
  let door_event := Product.as_composite_set door_event in
  body <- Body_new (name self) ;;
  let collision := BoundingBoxCollection_from_event_as_shapes door_event in
  let body := Body.set_shapes body collision in
  let world := World.add_kinematic_structure_entity world body in
  handle_world <- HandleFactory.create (handle_factory self) ;;
  handle_view <- first (World.handle_views handle_world) ;;
  door_T_handle <- create_door_T_handle self ;;
  world_root <- root_of world ;;
  handle_root <- root_of handle_world ;;
  let connection_door_T_handle :=
    FixedConnection (Body.id world_root) (Body.id handle_root) door_T_handle in
  let world := World.merge_world world handle_world connection_door_T_handle in
  let world := World.add_view world
                 (DoorView (Door.mk (name self) handle_view (Body.id body))) in
  let world := World.set_name world (PrefixedName.name (name self)) in
  ret world.

Definition create (self : t) : M World.t := _create self World.empty.
End DoorFactory.

(** *** [calculate_door_pivot_point] and [add_door_to_world] *)

(** [door_view] lives in [door_world], where its handle's body finds its
    parent connection. *)
Definition calculate_door_pivot_point (door_world : World.t) (door_view : Door.t)
    (door_transform : TransformationMatrix.t) (scale : Scale.t)
  : M TransformationMatrix.t :=
  match World.parent_connection door_world (Handle.body (Door.handle door_view)) with
  | None => raise ValueError
  | Some parent_connection =>
      let '(_, handle_y, _) :=
        TransformationMatrix.to_position (origin_expression parent_connection) in
      let offset := - np_sign handle_y * (Scale.y scale / 2) in
      let '(tx, ty, tz) := TransformationMatrix.to_position door_transform in
      let door_position := (tx + 0, ty + offset, tz + 0) in
      ret (TransformationMatrix.from_point_rotation_matrix door_position)
  end.

(** [PrefixedName(f"{body.name.name}_connection", body.name.prefix)]. *)
Definition connection_name (body_name : PrefixedName.t) : PrefixedName.t :=
  PrefixedName.mk (PrefixedName.name body_name ++ "_connection")
                  (PrefixedName.prefix body_name).

Definition add_door_to_world (door_factory : DoorFactory.t)
    (parent_T_door : TransformationMatrix.t) (parent_world : World.t)
  : M (World.t * Door.t) :=
  door_world <- DoorFactory.create door_factory ;;
  door_view <- first (World.door_views door_world) ;;
  door_body <- body_of door_world (Door.body door_view) ;;
  let lower_limits := DerivativeMap.empty in
  let upper_limits := DerivativeMap.empty in
  let lower_limits := DerivativeMap.set_position lower_limits (- np_pi / 2) in
  let upper_limits := DerivativeMap.set_position upper_limits 0 in
  let '(lower_limits, upper_limits) :=
    if Direction.in_set (DoorFactory.handle_direction door_factory)
         [Direction.NEGATIVE_X; Direction.NEGATIVE_Y]
    then (DerivativeMap.set_position lower_limits 0,
          DerivativeMap.set_position upper_limits (np_pi / 2))
    else (lower_limits, upper_limits) in
  let dof := DegreeOfFreedom.mk (connection_name (Body.name door_body))
               lower_limits upper_limits in
  let parent_world := World.add_degree_of_freedom parent_world dof in
  pivot_point <- calculate_door_pivot_point door_world door_view parent_T_door
                   (DoorFactory.scale door_factory) ;;
  parent_root <- root_of parent_world ;;
  let connection :=
    RevoluteConnection (Body.id parent_root) (Body.id door_body) pivot_point
      1 0 Vector3_Z dof in
  let parent_world := World.merge_world parent_world door_world connection in
  door_view <- first (World.door_views parent_world) ;;
  ret (parent_world, door_view).

(** *** [class DoubleDoorFactory] *)
Module DoubleDoorFactory.
Record t := mk {
  name : PrefixedName.t;
  scale : Scale.t;
  handle_factory : HandleFactory.t }.

(** [__post_init__]. *)
Definition one_door_scale (self : t) : Scale.t :=
  Scale.mk (Scale.x (scale self)) (Scale.y (scale self) / 2) (Scale.z (scale self)).

Definition create_door_factories (self : t) : list DoorFactory.t :=
  let handle_directions := [Direction.Y; Direction.NEGATIVE_Y] in
  map (fun '(index, direction) =>
         let handle_name :=
           PrefixedName.mk
             (PrefixedName.name (name self) ++ "_" ++ str_of_nat index ++ "_handle")
             (PrefixedName.prefix (name self)) in
         let handle_factory :=
           HandleFactory.mk handle_name
             (HandleFactory.scale (handle_factory self))
             (HandleFactory.thickness (handle_factory self)) in
         let door_name :=
           PrefixedName.mk (PrefixedName.name (name self) ++ "_" ++ str_of_nat index)
                           (PrefixedName.prefix (name self)) in
         DoorFactory.mk door_name (one_door_scale self) handle_factory direction)
      (enumerate handle_directions).

Definition add_doors_to_world (self : t) (parent_world : World.t)
    (door_factories : list DoorFactory.t) : M (World.t * (Door.t * Door.t)) :=
  '(parent_world, left_door, right_door) <-
    for_each door_factories
      (fun '(parent_world, left_door, right_door) door_factory =>
         let y_direction := Scale.y (one_door_scale self) / 2 in
         let y_direction :=
           if Direction.eqb (DoorFactory.handle_direction door_factory) Direction.Y
           then - y_direction else y_direction in
         let parent_T_door :=
           TransformationMatrix.from_point_rotation_matrix
             (Scale.x (one_door_scale self) / 2, y_direction,
              Scale.z (one_door_scale self) / 2) in
         '(parent_world, door) <-
           add_door_to_world door_factory parent_T_door parent_world ;;
         if Direction.eqb (DoorFactory.handle_direction door_factory) Direction.Y
         then ret (parent_world, left_door, Some door)
         else ret (parent_world, Some door, right_door))
      (parent_world, None, None) ;;
  match left_door, right_door with
  | Some left_door, Some right_door => ret (parent_world, (left_door, right_door))
  | _, _ => raise AssertionError
  end.

Definition _create (self : t) (world : World.t) : M World.t :=
  let door_factories := create_door_factories self in
  double_door_body <- Body_new (name self) ;;
  let world := World.add_kinematic_structure_entity world double_door_body in
  _ <- assert_ (Nat.eqb (List.length door_factories) 2) ;;
  '(world, (left_door, right_door)) <- add_doors_to_world self world door_factories ;;
  let double_door_view :=
    DoubleDoor.mk (Body.id double_door_body) left_door right_door in
  let world := World.add_view world (DoubleDoorView double_door_view) in
  let world := World.set_name world (PrefixedName.name (name self)) in
  ret world.

Definition create (self : t) : M World.t := _create self World.empty.
End DoubleDoorFactory.

(** *** [class DrawerFactory] *)
Module DrawerFactory.
Record t := mk {
  name : PrefixedName.t;
  handle_factory : HandleFactory.t;
  container_factory : ContainerFactory.t }.

Definition _create (self : t) (world : World.t) : M World.t :=
  container_world <- ContainerFactory.create (container_factory self) ;;
  container_view <- first (World.container_views container_world) ;;
  handle_world <- HandleFactory.create (handle_factory self) ;;
  handle_view <- first (World.handle_views handle_world) ;;
  let drawer_T_handle :=
    TransformationMatrix.from_xyz_rpy
      (Scale.x (ContainerFactory.scale (container_factory self)) / 2) 0 0 0 0 0 in
  container_root <- root_of container_world ;;
  handle_root <- root_of handle_world ;;
  let connection_drawer_T_handle :=
    FixedConnection (Body.id container_root) (Body.id handle_root) drawer_T_handle in
  let container_world :=
    World.merge_world container_world handle_world connection_drawer_T_handle in
  let drawer_view := Drawer.mk (name self) container_view handle_view in
  let container_world := World.add_view container_world (DrawerView drawer_view) in
  let container_world :=
    World.set_name container_world (PrefixedName.name (name self)) in
  ret container_world.

Definition create (self : t) : M World.t := _create self World.empty.
End DrawerFactory.

(** *** [class DresserFactory] *)
Module DresserFactory.
Record t := mk {
  name : PrefixedName.t;
  container_factory : ContainerFactory.t;
  drawers_factories : list DrawerFactory.t;
  drawer_transforms : list TransformationMatrix.t;
  door_factories : list DoorFactory.t;
  door_transforms : list TransformationMatrix.t }.

Definition create_drawer_upper_lower_limits (self : t) (drawer_factory : DrawerFactory.t)
  : DerivativeMap.t * DerivativeMap.t :=
  let lower_limits := DerivativeMap.empty in
  let lower_limits := DerivativeMap.set_position lower_limits 0 in
  let upper_limits := DerivativeMap.empty in
  let upper_limits :=
    DerivativeMap.set_position upper_limits
      (Scale.x (ContainerFactory.scale (DrawerFactory.container_factory drawer_factory))
       * 0.75) in
  (lower_limits, upper_limits).

Definition add_drawers_to_world (self : t) (parent_world : World.t) : M World.t :=
  for_each (combine (drawers_factories self) (drawer_transforms self))
    (fun parent_world '(drawer_factory, transform) =>
       drawer_world <- DrawerFactory.create drawer_factory ;;
       drawer_view <- first (World.drawer_views drawer_world) ;;
       drawer_body <- body_of drawer_world
                        (Container.body (Drawer.container drawer_view)) ;;
       let '(lower_limits, upper_limits) :=
         create_drawer_upper_lower_limits self drawer_factory in
       let dof := DegreeOfFreedom.mk (connection_name (Body.name drawer_body))
                    lower_limits upper_limits in
       parent_root <- root_of parent_world ;;
       let connection :=
         PrismaticConnection (Body.id parent_root) (Body.id drawer_body) transform
           1 0 Vector3_X dof in
       ret (World.merge_world parent_world drawer_world connection))
    parent_world.

Definition make_dresser_world (self : t) : M World.t :=
  dresser_world <- ContainerFactory.create (container_factory self) ;;
  container_view <- first (World.container_views dresser_world) ;;
  dresser_world <-
    for_each (combine (door_factories self) (door_transforms self))
      (fun dresser_world '(door_factory, parent_T_door) =>
         '(dresser_world, _) <-
           add_door_to_world door_factory parent_T_door dresser_world ;;
         ret dresser_world)
      dresser_world ;;
  dresser_world <- add_drawers_to_world self dresser_world ;;
  let dresser_view :=
    Dresser.mk (name self) container_view
      (World.drawer_views dresser_world) (World.door_views dresser_world) in
  let dresser_world := World.add_view dresser_world (DresserView dresser_view) in
  let dresser_world := World.set_name dresser_world (PrefixedName.name (name self)) in
  ret dresser_world.

Definition subtract_bodies_from_container_footprint `{Kinematics}
    (self : t) (world : World.t) (container_event : Product.Event)
  : M Product.Event :=
  dresser_body <- root_of world ;;
  let container_footprint := Product.marginal Product.yz container_event in
  for_each (World.bodies world)
    (fun container_footprint body =>
       if Nat.eqb (Body.id body) (Body.id dresser_body) then ret container_footprint
       else
         let body_footprint :=
           Product.marginal Product.yz
             (as_bounding_box_collection_at_origin world
                (Body.id dresser_body) (Body.id body)) in
         ret (Product.difference container_footprint body_footprint))
    container_footprint.

Definition fill_container_body (self : t)
    (container_footprint container_event : Product.Event) : Product.Event :=
  let container_footprint :=
    Product.fill_missing_variables [Product.X] container_footprint in
  let depth_interval :=
    Product.get (Product.bounding_box container_event) Product.X in
  let limiting_event :=
    Product.as_composite_set (Product.mkSE depth_interval None None) in
  let limiting_event := Product.fill_missing_variables Product.yz limiting_event in
  Product.union container_event
    (Product.intersection container_footprint limiting_event).

Definition make_interior `{Kinematics} (self : t) (world : World.t) : M World.t :=
  dresser_body <- root_of world ;;
  let container_event :=
    as_bounding_box_collection_at_origin world
      (Body.id dresser_body) (Body.id dresser_body) in
  container_footprint <-
    subtract_bodies_from_container_footprint self world container_event ;;
  let container_event := fill_container_body self container_footprint container_event in
  let collision_shapes := BoundingBoxCollection_from_event_as_shapes container_event in
  ret (World.set_shapes world (Body.id dresser_body) collision_shapes).

Definition _create `{Kinematics} (self : t) (world : World.t) : M World.t :=
  _ <- assert_ (Nat.eqb (List.length (drawers_factories self))
                        (List.length (drawer_transforms self))) ;;
  dresser_world <- make_dresser_world self ;;
  make_interior self dresser_world.

Definition create `{Kinematics} (self : t) : M World.t := _create self World.empty.
End DresserFactory.

(** *** [class WallFactory] *)

(** The two [EntryWayFactory] subclasses a wall can host. *)
Inductive EntryWayFactory :=
| ADoorFactory (f : DoorFactory.t)
| ADoubleDoorFactory (f : DoubleDoorFactory.t).

Definition EntryWayFactory_create (f : EntryWayFactory) : M World.t :=
  match f with
  | ADoorFactory f => DoorFactory.create f
  | ADoubleDoorFactory f => DoubleDoorFactory.create f
  end.

(** The name given to a [Body()] built without one. *)
Definition unnamed : PrefixedName.t := PrefixedName.mk EmptyString None.

Module WallFactory.
Record t := mk {
  name : PrefixedName.t;
  scale : Scale.t;
  door_factories : list EntryWayFactory;
  door_transforms : list TransformationMatrix.t }.

Definition create_wall_event (self : t) : Product.SimpleEvent :=
  let x_interval := Interval.closed (- Scale.x (scale self) / 2) (Scale.x (scale self) / 2) in
  let y_interval := Interval.closed (- Scale.y (scale self) / 2) (Scale.y (scale self) / 2) in
  let z_interval := Interval.closed 0 (Scale.z (scale self)) in
  Product.box x_interval y_interval z_interval.

Definition get_door_transforms (self : t) (door_world : World.t) (doors : list Door.t)
    (door_factory : EntryWayFactory) (door_transform : TransformationMatrix.t)
  : M TransformationMatrix.t :=
  match door_factory with
  | ADoorFactory door_factory =>
      door <- first doors ;;
      calculate_door_pivot_point door_world door door_transform
        (DoorFactory.scale door_factory)
  | ADoubleDoorFactory _ =>
      let '(tx, ty, _) := TransformationMatrix.to_position door_transform in
      ret (TransformationMatrix.from_point_rotation_matrix (tx, ty, 0))
  end.

Definition build_temp_world (self : t) (door_world : World.t)
    (door_transform : TransformationMatrix.t) : M World.t :=
  let temp_world := World.empty in
  temp_body <- Body_new unnamed ;;
  let temp_world := World.add_kinematic_structure_entity temp_world temp_body in
  temp_root <- root_of temp_world ;;
  door_root <- root_of door_world ;;
  let connection :=
    FixedConnection (Body.id temp_root) (Body.id door_root) door_transform in
  ret (World.merge_world temp_world door_world connection).

Definition remove_doors_from_wall_event `{Kinematics} (self : t)
    (wall_event : Product.Event) : M Product.Event :=
  for_each (combine (door_factories self) (door_transforms self))
    (fun wall_event '(door_factory, door_transform) =>
       door_world <- EntryWayFactory_create door_factory ;;
       let doors := World.door_views door_world in
       door_transform <-
         get_door_transforms self door_world doors door_factory door_transform ;;
       temp_world <- build_temp_world self door_world door_transform ;;
       _ <- match door_factory with
            | ADoorFactory door_factory =>
                assert_ (Direction.in_set (DoorFactory.handle_direction door_factory)
                           [Direction.Y; Direction.NEGATIVE_Y])
            | ADoubleDoorFactory _ => ret tt
            end ;;
       let door_plane_spatial_variables := Product.yz in
       let door_thickness_spatial_variable := Product.X in
       temp_root <- root_of temp_world ;;
       for_each doors
         (fun wall_event door =>
            let door_event :=
              as_bounding_box_collection_at_origin temp_world
                (Body.id temp_root) (Door.body door) in
            let door_event := Product.marginal door_plane_spatial_variables door_event in
            let door_event :=
              Product.fill_missing_variables [door_thickness_spatial_variable]
                door_event in
            ret (Product.difference wall_event door_event))
         wall_event)
    wall_event.

Definition _create_wall_collision `{Kinematics} (self : t) (reference_frame : Body.t)
  : M ShapeCollection :=
  let wall_event := Product.as_composite_set (create_wall_event self) in
  wall_event <- remove_doors_from_wall_event self wall_event ;;
  ret (BoundingBoxCollection_from_event_as_shapes wall_event).

Definition add_doors_and_double_doors_to_world (self : t) (wall_world : World.t)
  : M World.t :=
  for_each (combine (door_factories self) (door_transforms self))
    (fun wall_world '(door_factory, transform) =>
       match door_factory with
       | ADoorFactory door_factory =>
           '(wall_world, _) <- add_door_to_world door_factory transform wall_world ;;
           ret wall_world
       | ADoubleDoorFactory door_factory =>
           door_world <- DoubleDoorFactory.create door_factory ;;
           let '(tx, ty, _) := TransformationMatrix.to_position transform in
           let transform :=
             TransformationMatrix.from_point_rotation_matrix (tx, ty, 0) in
           wall_root <- root_of wall_world ;;
           door_root <- root_of door_world ;;
           let connection :=
             FixedConnection (Body.id wall_root) (Body.id door_root) transform in
           ret (World.merge_world wall_world door_world connection)
       end)
    wall_world.

Definition _create `{Kinematics} (self : t) (world : World.t) : M World.t :=
  let wall_world := world in
  wall_body <- Body_new (name self) ;;
  wall_collision <- _create_wall_collision self wall_body ;;
  let wall_body := Body.set_shapes wall_body wall_collision in
  let wall_world := World.add_kinematic_structure_entity wall_world wall_body in
  wall_world <- add_doors_and_double_doors_to_world self wall_world ;;
  let wall := Wall.mk (name self) (Body.id wall_body) in
  let wall_world := World.add_view wall_world (WallView wall) in
  ret wall_world.

Definition create `{Kinematics} (self : t) : M World.t := _create self World.empty.
End WallFactory.

(* ================================================================== *)
(** ** Closed forms and statements used by the theorems *)

(** A handle direction [DoorFactory] has geometry for. *)
Definition door_supported (d : Direction.t) : bool :=
  negb (Direction.in_set d [Direction.Z; Direction.NEGATIVE_Z]).

(** The world [HandleFactory.create] builds when the next free identity is
    [n]. *)
Definition handle_world (f : HandleFactory.t) (n : nat) : World.t :=
  World.mk (Some (PrefixedName.name (HandleFactory.name f)))
    [Body.mk n (HandleFactory.name f)
       (HandleFactory.create_handle_event f) (HandleFactory.create_handle_event f)]
    [] []
    [HandleView (Handle.mk (HandleFactory.name f) n)].

(** The world [ContainerFactory.create] builds when the next free identity is
    [n]. *)
Definition container_world (f : ContainerFactory.t) (n : nat) : World.t :=
  World.mk (Some (PrefixedName.name (ContainerFactory.name f)))
    [Body.mk n (ContainerFactory.name f)
       (ContainerFactory.create_container_event f)
       (ContainerFactory.create_container_event f)]
    [] []
    [ContainerView (Container.mk n (ContainerFactory.name f))].

(** The panel of a door, by handle direction (the centred box where
    [create_door_event] raises). *)
Definition door_panel (f : DoorFactory.t) : Product.SimpleEvent :=
  let s := DoorFactory.scale f in
  let cx := Interval.closed (- Scale.x s / 2) (Scale.x s / 2) in
  let cy := Interval.closed (- Scale.y s / 2) (Scale.y s / 2) in
  let cz := Interval.closed (- Scale.z s / 2) (Scale.z s / 2) in
  match DoorFactory.handle_direction f with
  | Direction.X => Product.box (Interval.closed 0 (Scale.x s)) cy cz
  | Direction.Y => Product.box cx (Interval.closed 0 (Scale.y s)) cz
  | Direction.NEGATIVE_X => Product.box (Interval.closed (- Scale.x s) 0) cy cz
  | Direction.NEGATIVE_Y => Product.box cx (Interval.closed (- Scale.y s) 0) cz
  | _ => Product.box cx cy cz
  end.

(** Where the handle sits on the door, by handle direction (the identity
    where [create_door_T_handle] raises). *)
Definition door_T_handle (f : DoorFactory.t) : TransformationMatrix.t :=
  let s := DoorFactory.scale f in
  match DoorFactory.handle_direction f with
  | Direction.X =>
      TransformationMatrix.from_xyz_rpy (Scale.x s - 0.1) 0.05 0 0 0 (np_pi / 2)
  | Direction.Y =>
      TransformationMatrix.from_xyz_rpy 0.05 (Scale.y s - 0.1) 0 0 0 0
  | Direction.NEGATIVE_X =>
      TransformationMatrix.from_xyz_rpy (- (Scale.x s - 0.1)) 0.05 0 0 0 (np_pi / 2)
  | Direction.NEGATIVE_Y =>
      TransformationMatrix.from_xyz_rpy 0.05 (- (Scale.y s - 0.1)) 0 0 0 0
  | _ => TransformationMatrix.identity
  end.

(** The y coordinate of the handle on its door. *)
Definition handle_y (f : DoorFactory.t) : Q :=
  let '(_, y, _) := TransformationMatrix.translation (door_T_handle f) in y.

Definition door_handle_view (f : DoorFactory.t) (n : nat) : Handle.t :=
  Handle.mk (HandleFactory.name (DoorFactory.handle_factory f)) (S n).

Definition door_view (f : DoorFactory.t) (n : nat) : Door.t :=
  Door.mk (DoorFactory.name f) (door_handle_view f n) n.

(** The world [DoorFactory.create] builds for a supported handle direction
    when the next free identity is [n]: the panel [n] and its handle [n+1]. *)
Definition door_world (f : DoorFactory.t) (n : nat) : World.t :=
  World.mk (Some (PrefixedName.name (DoorFactory.name f)))
    [Body.mk n (DoorFactory.name f) [door_panel f] [door_panel f];
     Body.mk (S n) (HandleFactory.name (DoorFactory.handle_factory f))
       (HandleFactory.create_handle_event (DoorFactory.handle_factory f))
       (HandleFactory.create_handle_event (DoorFactory.handle_factory f))]
    [FixedConnection n (S n) (door_T_handle f)]
    []
    [HandleView (door_handle_view f n); DoorView (door_view f n)].

(** The limits [add_door_to_world] gives the joint of a door. *)
Definition door_limits (f : DoorFactory.t) : DerivativeMap.t * DerivativeMap.t :=
  if Direction.in_set (DoorFactory.handle_direction f)
       [Direction.NEGATIVE_X; Direction.NEGATIVE_Y]
  then (DerivativeMap.mk (Some 0) None None None,
        DerivativeMap.mk (Some (np_pi / 2)) None None None)
  else (DerivativeMap.mk (Some (- np_pi / 2)) None None None,
        DerivativeMap.mk (Some 0) None None None).

Definition door_dof (f : DoorFactory.t) : DegreeOfFreedom.t :=
  DegreeOfFreedom.mk (connection_name (DoorFactory.name f))
    (fst (door_limits f)) (snd (door_limits f)).

(** The pivot [calculate_door_pivot_point] computes for a door built by [f]. *)
Definition door_pivot (f : DoorFactory.t) (parent_T_door : TransformationMatrix.t)
  : TransformationMatrix.t :=
  let '(tx, ty, tz) := TransformationMatrix.translation parent_T_door in
  TransformationMatrix.from_point_rotation_matrix
    (tx + 0, ty + - np_sign (handle_y f) * (Scale.y (DoorFactory.scale f) / 2), tz + 0).

(** The joint that hangs the door built by [f] with panel [n] under [parent]. *)
Definition door_connection (f : DoorFactory.t) (parent_T_door : TransformationMatrix.t)
    (parent n : nat) : Connection :=
  RevoluteConnection parent n (door_pivot f parent_T_door) 1 0 Vector3_Z (door_dof f).

(** The parent world after [add_door_to_world]. *)
Definition with_door (f : DoorFactory.t) (parent_T_door : TransformationMatrix.t)
    (parent_world : World.t) (parent n : nat) : World.t :=
  World.merge_world (World.add_degree_of_freedom parent_world (door_dof f))
    (door_world f n) (door_connection f parent_T_door parent n).

(** The door [add_door_to_world] returns: the first door registered in the
    parent world after the merge. *)
Definition first_door (parent_world : World.t) (f : DoorFactory.t) (n : nat) : Door.t :=
  match World.door_views parent_world with
  | d :: _ => d
  | [] => door_view f n
  end.

(** The limit rule as the specification words it, by the side of the panel
    the handle is on: [[-90, 0]] degrees when the handle is on the positive y
    side, [[0, 90]] degrees otherwise. *)
Definition limits_follow_handle_side (handle_y : Q) (limits : option Q * option Q)
  : Prop :=
  match limits with
  | (Some lower, Some upper) =>
      if Qlt_bool 0 handle_y
      then lower == - np_pi / 2 /\ upper == 0
      else lower == 0 /\ upper == np_pi / 2
  | _ => False
  end.

(** The position limits of the joint variable of a connection. *)
Definition position_limits (c : Connection) : option Q * option Q :=
  match c with
  | FixedConnection _ _ _ => (None, None)
  | PrismaticConnection _ _ _ _ _ _ d
  | RevoluteConnection _ _ _ _ _ _ d =>
      (DerivativeMap.position (DegreeOfFreedom.lower_limits d),
       DerivativeMap.position (DegreeOfFreedom.upper_limits d))
  end.

(* ================================================================== *)
(** ** Concrete factories (the defaults of the source) *)

Definition sample_handle : HandleFactory.t :=
  HandleFactory.mk (PrefixedName.mk "handle" None) (Scale.mk 0.05 0.1 0.02) 0.01.

Definition sample_container : ContainerFactory.t :=
  ContainerFactory.mk (PrefixedName.mk "container" None) (Scale.mk 1 1 1) 0.05
    Direction.X.

Definition sample_door (d : Direction.t) : DoorFactory.t :=
  DoorFactory.mk (PrefixedName.mk "door" None) (Scale.mk 0.03 1 2) sample_handle d.

Definition sample_double_door : DoubleDoorFactory.t :=
  DoubleDoorFactory.mk (PrefixedName.mk "double_door" None) (Scale.mk 0.03 1 2)
    sample_handle.

Definition sample_drawer : DrawerFactory.t :=
  DrawerFactory.mk (PrefixedName.mk "drawer" None) sample_handle
    (ContainerFactory.mk (PrefixedName.mk "drawer_container" None)
       (Scale.mk 0.4 0.5 0.2) 0.05 Direction.Z).

(** The double written [1e-30] in Python: the double nearest to that decimal.
    The scale 1 absorbs it: [1.0 - 1e-30 == 1.0]. *)
Definition absorbed_thickness : Q := Float.round (1 # 10 ^ 30).


(** A handle whose thickness [1e-30] its scale absorbs. *)
Definition sample_handle_absorbed : HandleFactory.t :=
  HandleFactory.mk (PrefixedName.mk "handle" None) (Scale.mk 1 1 1) absorbed_thickness.

(** A parent world with one body, as left by [ContainerFactory.create] on an
    empty allocation log. *)
Definition sample_parent : World.t := container_world sample_container 0.
Definition sample_parent_log : Heap := [ContainerFactory.name sample_container].

(* ================================================================== *)
(** ** The container region as the specification words it *)

(** The extent of a scale along a spatial axis. *)
Definition extent (s : Scale.t) (v : Product.SpatialVariable) : Q :=
  match v with
  | Product.X => Scale.x s
  | Product.Y => Scale.y s
  | Product.Z => Scale.z s
  end.

(** "Six symbolic directions map 1:1 to an axis and a sign." *)
Definition axis_of (d : Direction.t) : Product.SpatialVariable :=
  match d with
  | Direction.X | Direction.NEGATIVE_X => Product.X
  | Direction.Y | Direction.NEGATIVE_Y => Product.Y
  | Direction.Z | Direction.NEGATIVE_Z => Product.Z
  end.

Definition is_positive (d : Direction.t) : bool :=
  match d with
  | Direction.X | Direction.Y | Direction.Z => true
  | _ => false
  end.

(** "An outer box at full scale centered at origin." *)
Definition in_outer_box (f : ContainerFactory.t) (p : Product.Point) : Prop :=
  forall v,
    - extent (ContainerFactory.scale f) v / 2 <= Product.coord p v /\
    Product.coord p v <= extent (ContainerFactory.scale f) v / 2.

(** The extent of the inner box on an axis: [scale - wall_thickness], the
    subtraction being the one of doubles. *)
Definition inner_extent (f : ContainerFactory.t) (v : Product.SpatialVariable) : Q :=
  Float.sub (extent (ContainerFactory.scale f) v) (ContainerFactory.wall_thickness f).

(** "An inner box at scale - wall_thickness on every axis", whose interval on
    the opening axis is extended "to reach the outer box's boundary on that
    side". *)
Definition inner_lower (f : ContainerFactory.t) (v : Product.SpatialVariable) : Q :=
  if Product.var_eqb (axis_of (ContainerFactory.direction f)) v
     && negb (is_positive (ContainerFactory.direction f))
  then - extent (ContainerFactory.scale f) v / 2
  else - inner_extent f v / 2.

Definition inner_upper (f : ContainerFactory.t) (v : Product.SpatialVariable) : Q :=
  if Product.var_eqb (axis_of (ContainerFactory.direction f)) v
     && is_positive (ContainerFactory.direction f)
  then extent (ContainerFactory.scale f) v / 2
  else inner_extent f v / 2.

Definition in_extended_inner_box (f : ContainerFactory.t) (p : Product.Point) : Prop :=
  forall v, inner_lower f v <= Product.coord p v /\ Product.coord p v <= inner_upper f v.



(* ================================================================== *)
(** ** Closed forms of the assembled worlds *)

(** The world [DrawerFactory.create] builds when the next free identity is
    [n]: the container [n] and its handle [n+1]. *)
Definition drawer_world (f : DrawerFactory.t) (n : nat) : World.t :=
  let cf := DrawerFactory.container_factory f in
  let hf := DrawerFactory.handle_factory f in
  let container_view := Container.mk n (ContainerFactory.name cf) in
  let handle_view := Handle.mk (HandleFactory.name hf) (S n) in
  World.mk (Some (PrefixedName.name (DrawerFactory.name f)))
    [Body.mk n (ContainerFactory.name cf)
       (ContainerFactory.create_container_event cf)
       (ContainerFactory.create_container_event cf);
     Body.mk (S n) (HandleFactory.name hf)
       (HandleFactory.create_handle_event hf) (HandleFactory.create_handle_event hf)]
    [FixedConnection n (S n)
       (TransformationMatrix.from_xyz_rpy
          (Scale.x (ContainerFactory.scale cf) / 2) 0 0 0 0 0)]
    []
    [ContainerView container_view; HandleView handle_view;
     DrawerView (Drawer.mk (DrawerFactory.name f) container_view handle_view)].

(** The joint variable [add_drawers_to_world] gives a drawer. *)
Definition drawer_dof (f : DrawerFactory.t) : DegreeOfFreedom.t :=
  DegreeOfFreedom.mk
    (connection_name (ContainerFactory.name (DrawerFactory.container_factory f)))
    (DerivativeMap.mk (Some 0) None None None)
    (DerivativeMap.mk
       (Some (Scale.x (ContainerFactory.scale (DrawerFactory.container_factory f)) * 0.75))
       None None None).

(** The joint that hangs the drawer built by [f] with container [n] under
    [parent]. *)
Definition drawer_connection (f : DrawerFactory.t) (T : TransformationMatrix.t)
    (parent n : nat) : Connection :=
  PrismaticConnection parent n T 1 0 Vector3_X (drawer_dof f).

(** The parent world after the drawers of [pairs] were merged in, the first
    of them getting the identities [n] and [n+1]. *)
Fixpoint with_drawers (pairs : list (DrawerFactory.t * TransformationMatrix.t))
    (parent_world : World.t) (parent n : nat) : World.t :=
  match pairs with
  | [] => parent_world
  | (f, T) :: rest =>
      with_drawers rest
        (World.merge_world parent_world (drawer_world f n) (drawer_connection f T parent n))
        parent (S (S n))
  end.

Definition drawer_names (pairs : list (DrawerFactory.t * TransformationMatrix.t)) : Heap :=
  flat_map (fun '(f, _) =>
              [ContainerFactory.name (DrawerFactory.container_factory f);
               HandleFactory.name (DrawerFactory.handle_factory f)]) pairs.

(** The connections the drawers of [pairs] add to the parent world. *)
Fixpoint drawer_connections (pairs : list (DrawerFactory.t * TransformationMatrix.t))
    (parent n : nat) : list Connection :=
  match pairs with
  | [] => []
  | (f, T) :: rest =>
      drawer_connection f T parent n ::
      World.connections (drawer_world f n) ++
      drawer_connections rest parent (S (S n))
  end.

(** The parent world after the doors of [pairs] were attached, the first of
    them getting the identities [n] and [n+1]. *)
Fixpoint with_doors (pairs : list (DoorFactory.t * TransformationMatrix.t))
    (parent_world : World.t) (parent n : nat) : World.t :=
  match pairs with
  | [] => parent_world
  | (f, T) :: rest =>
      with_doors rest (with_door f T parent_world parent n) parent (S (S n))
  end.

Definition door_names (pairs : list (DoorFactory.t * TransformationMatrix.t)) : Heap :=
  flat_map (fun '(f, _) =>
              [DoorFactory.name f; HandleFactory.name (DoorFactory.handle_factory f)])
           pairs.

(** The connections the doors of [pairs] add to the parent world. *)
Fixpoint door_connections (pairs : list (DoorFactory.t * TransformationMatrix.t))
    (parent n : nat) : list Connection :=
  match pairs with
  | [] => []
  | (f, T) :: rest =>
      door_connection f T parent n ::
      World.connections (door_world f n) ++
      door_connections rest parent (S (S n))
  end.

(** What the specification asks of the connection of a drawer: prismatic
    from [parent], at the paired transform, multiplier 1, offset 0, axis X,
    position limits lower = 0 and upper = 0.75 times the depth ([scale.x]) of
    the drawer's container. *)
Definition is_drawer_joint (parent : nat) (connection : Connection)
    (pair : DrawerFactory.t * TransformationMatrix.t) : Prop :=
  let '(drawer_factory, transform) := pair in
  exists child dof upper,
    connection = PrismaticConnection parent child transform 1 0 Vector3_X dof /\
    DerivativeMap.position (DegreeOfFreedom.lower_limits dof) = Some 0 /\
    DerivativeMap.position (DegreeOfFreedom.upper_limits dof) = Some upper /\
    upper == 0.75 * Scale.x (ContainerFactory.scale
                               (DrawerFactory.container_factory drawer_factory)).

(** The bodies the doors of [pairs] bring into the parent world. *)
Fixpoint door_bodies (pairs : list (DoorFactory.t * TransformationMatrix.t)) (n : nat)
  : list Body.t :=
  match pairs with
  | [] => []
  | (f, _) :: rest => World.bodies (door_world f n) ++ door_bodies rest (S (S n))
  end.

(** The bodies the drawers of [pairs] bring into the parent world. *)
Fixpoint drawer_bodies (pairs : list (DrawerFactory.t * TransformationMatrix.t)) (n : nat)
  : list Body.t :=
  match pairs with
  | [] => []
  | (f, _) :: rest => World.bodies (drawer_world f n) ++ drawer_bodies rest (S (S n))
  end.

(** Every door of [pairs] has a handle direction with geometry. *)
Definition doors_supported (pairs : list (DoorFactory.t * TransformationMatrix.t)) : bool :=
  forallb (fun '(f, _) => door_supported (DoorFactory.handle_direction f)) pairs.

(** The world [DresserFactory.make_dresser_world] assembles when the next
    free identity is [n] and every paired door is supported: the container
    [n], then the doors, then the drawers. *)
Definition dresser_world (self : DresserFactory.t) (n : nat) : World.t :=
  let cf := DresserFactory.container_factory self in
  let doors := combine (DresserFactory.door_factories self)
                       (DresserFactory.door_transforms self) in
  let drawers := combine (DresserFactory.drawers_factories self)
                         (DresserFactory.drawer_transforms self) in
  let w := with_doors doors (container_world cf n) n (S n) in
  let w := with_drawers drawers w n (S n + 2 * List.length doors) in
  let dresser_view :=
    Dresser.mk (DresserFactory.name self) (Container.mk n (ContainerFactory.name cf))
      (World.drawer_views w) (World.door_views w) in
  World.set_name (World.add_view w (DresserView dresser_view))
    (PrefixedName.name (DresserFactory.name self)).

Definition dresser_names (self : DresserFactory.t) : Heap :=
  ContainerFactory.name (DresserFactory.container_factory self) ::
  door_names (combine (DresserFactory.door_factories self)
                      (DresserFactory.door_transforms self)) ++
  drawer_names (combine (DresserFactory.drawers_factories self)
                        (DresserFactory.drawer_transforms self)).

(** The region the specification gives the dresser body: [E], united with
    the footprint [F] of [E] on the y-z plane, less the footprints [F_b] of the
    regions [Bs] of the other bodies, filled along the depth axis x and cut to
    the slab spanned by the x-interval of the bounding box of [E]. *)
Definition dresser_region_spec (E : Product.Event) (Bs : list Product.Event)
    (p : Product.Point) : Prop :=
  let '(x, y, z) := p in
  Product.contains E (x, y, z) = true \/
  ((exists x', Product.contains E (x', y, z) = true) /\
   (forall B, In B Bs -> ~ exists x', Product.contains B (x', y, z) = true) /\
   Product.var_contains (Product.get (Product.bounding_box E) Product.X) x = true).

(** The bodies of a world other than the body with identity [root]. *)
Definition other_bodies (w : World.t) (root : nat) : list Body.t :=
  filter (fun b => negb (Nat.eqb (Body.id b) root)) (World.bodies w).

(** The footprint left after the loop over the bodies of the world. *)
Definition carved_footprint `{Kinematics} (w : World.t) (root : nat) (E : Product.Event)
  : Product.Event :=
  fold_left
    (fun footprint body =>
       if Nat.eqb (Body.id body) root then footprint
       else Product.difference footprint
              (Product.marginal Product.yz
                 (as_bounding_box_collection_at_origin w root (Body.id body))))
    (World.bodies w) (Product.marginal Product.yz E).

(** Every body of [w], seen from [frame], has a region with at least one
    point: the projections [make_interior] takes are projections of events
    that have points. *)
Definition regions_have_points `{Kinematics} (w : World.t) (frame : nat) : Prop :=
  forall b, In b (World.bodies w) ->
    Product.is_empty (as_bounding_box_collection_at_origin w frame (Body.id b)) = false.

(** A kinematics in which the frames of all bodies coincide: the region of a
    body reads the same in every frame. *)
Definition coincident_frames : Kinematics :=
  {| as_bounding_box_collection_at_origin w _ b :=
       match World.body w b with
       | Some body => Body.collision body
       | None => []
       end |}.

Definition sample_dresser (d : Direction.t) : DresserFactory.t :=
  DresserFactory.mk (PrefixedName.mk "dresser" None) sample_container
    [sample_drawer] [TransformationMatrix.identity]
    [sample_door d] [TransformationMatrix.identity].

(** Where [DoubleDoorFactory.add_doors_to_world] puts the door built by
    [door_factory]. *)
Definition double_door_T_door (self : DoubleDoorFactory.t) (door_factory : DoorFactory.t)
  : TransformationMatrix.t :=
  let s := DoubleDoorFactory.one_door_scale self in
  TransformationMatrix.from_point_rotation_matrix
    (Scale.x s / 2,
     (if Direction.eqb (DoorFactory.handle_direction door_factory) Direction.Y
      then - (Scale.y s / 2) else Scale.y s / 2),
     Scale.z s / 2).

(** The body [DoubleDoorFactory._create] puts at the root: it has no shapes. *)
Definition double_door_body (self : DoubleDoorFactory.t) (n : nat) : Body.t :=
  Body.mk n (DoubleDoorFactory.name self) [] [].

(** The double-door world once both doors hang under its body [n]: the first
    door takes the identities [n+1], [n+2], the second [n+3], [n+4]. *)
Definition double_door_assembly (self : DoubleDoorFactory.t) (d0 d1 : DoorFactory.t)
    (n : nat) : World.t :=
  let w := World.add_kinematic_structure_entity World.empty (double_door_body self n) in
  let w := with_door d0 (double_door_T_door self d0) w n (S n) in
  with_door d1 (double_door_T_door self d1) w n (S (S (S n))).

(** A wall of the default door scale hosting one single door. *)
Definition sample_wall (d : Direction.t) : WallFactory.t :=
  WallFactory.mk (PrefixedName.mk "wall" None) (Scale.mk 0.1 4 3)
    [ADoorFactory (sample_door d)] [TransformationMatrix.identity].

(** A handle direction [WallFactory] accepts for a single door. *)
Definition wall_door_supported (d : Direction.t) : bool :=
  Direction.in_set d [Direction.Y; Direction.NEGATIVE_Y].

(** One round of the loop of [WallFactory.remove_doors_from_wall_event]. *)
Definition remove_doors_round `{Kinematics} (self : WallFactory.t)
    (wall_event : Product.Event)
    (entry : EntryWayFactory * TransformationMatrix.t) : M Product.Event :=
  let '(door_factory, door_transform) := entry in
  door_world <- EntryWayFactory_create door_factory ;;
  let doors := World.door_views door_world in
  door_transform <-
    WallFactory.get_door_transforms self door_world doors door_factory door_transform ;;
  temp_world <- WallFactory.build_temp_world self door_world door_transform ;;
  _ <- match door_factory with
       | ADoorFactory door_factory =>
           assert_ (Direction.in_set (DoorFactory.handle_direction door_factory)
                      [Direction.Y; Direction.NEGATIVE_Y])
       | ADoubleDoorFactory _ => ret tt
       end ;;
  temp_root <- root_of temp_world ;;
  for_each doors
    (fun wall_event door =>
       let door_event :=
         as_bounding_box_collection_at_origin temp_world
           (Body.id temp_root) (Door.body door) in
       let door_event := Product.marginal Product.yz door_event in
       let door_event := Product.fill_missing_variables [Product.X] door_event in
       ret (Product.difference wall_event door_event))
    wall_event.

(** One round of the loop of
    [WallFactory.add_doors_and_double_doors_to_world]. *)
Definition add_entry_round (wall_world : World.t)
    (entry : EntryWayFactory * TransformationMatrix.t) : M World.t :=
  let '(door_factory, transform) := entry in
  match door_factory with
  | ADoorFactory door_factory =>
      '(wall_world, _) <- add_door_to_world door_factory transform wall_world ;;
      ret wall_world
  | ADoubleDoorFactory door_factory =>
      door_world <- DoubleDoorFactory.create door_factory ;;
      let '(tx, ty, _) := TransformationMatrix.to_position transform in
      let transform := TransformationMatrix.from_point_rotation_matrix (tx, ty, 0) in
      wall_root <- root_of wall_world ;;
      door_root <- root_of door_world ;;
      let connection :=
        FixedConnection (Body.id wall_root) (Body.id door_root) transform in
      ret (World.merge_world wall_world door_world connection)
  end.

(** How many pairs [zip] forms from two lists. *)
Definition paired {A B} (l : list A) (l' : list B) : nat :=
  Nat.min (List.length l) (List.length l').



(** Every paired entry of a wall is one it accepts: a single door with a
    Y-axis handle direction, or a double door. *)
Definition entries_supported (pairs : list (EntryWayFactory * TransformationMatrix.t))
  : bool :=
  forallb (fun '(entry, _) =>
             match entry with
             | ADoorFactory f => wall_door_supported (DoorFactory.handle_direction f)
             | ADoubleDoorFactory _ => true
             end) pairs.


Definition sample_wall_two_doors : WallFactory.t :=
  WallFactory.mk (PrefixedName.mk "wall" None) (Scale.mk 0.1 4 3)
    [ADoorFactory (sample_door Direction.Y); ADoubleDoorFactory sample_double_door]
    [TransformationMatrix.identity].


(* ================================================================== *)
(** ** Statements of further properties *)

(** The side conditions of a container: on every axis the inner box the
    program computes is smaller than the outer box and has a positive extent,
    so that walls are left and a cavity too. The wall thickness is then
    positive, smaller than the scale, and not absorbed when it is subtracted
    from the scale. *)
Definition container_valid (f : ContainerFactory.t) : Prop :=
  forall v, 0 < inner_extent f v /\ inner_extent f v < extent (ContainerFactory.scale f) v.




(** A point given in the frame of a child, seen from the parent the child
    hangs under at [origin] without rotation. *)
Definition translate (origin p : Point3) : Point3 :=
  let '(ox, oy, oz) := origin in
  let '(x, y, z) := p in (ox + x, oy + y, oz + z).

(** The box of extent [s] centred on [centre]. *)
Definition in_box_around (centre : Point3) (s : Scale.t) (p : Point3) : Prop :=
  forall v,
    Product.coord centre v - extent s v / 2 <= Product.coord p v /\
    Product.coord p v <= Product.coord centre v + extent s v / 2.


(** A door narrower than the 0.1 its handle is set in from the edge. *)
Definition sample_hatch : DoorFactory.t :=
  DoorFactory.mk (PrefixedName.mk "hatch" None) (Scale.mk 0.03 0.08 0.3)
    sample_handle Direction.Y.


(** The panel of a wall of extent [s]: centred on its frame in x and y,
    standing on the ground in z. *)
Definition in_wall_panel (s : Scale.t) (p : Point3) : Prop :=
  let '(x, y, z) := p in
  (- Scale.x s / 2 <= x /\ x <= Scale.x s / 2) /\
  (- Scale.y s / 2 <= y /\ y <= Scale.y s / 2) /\
  (0 <= z /\ z <= Scale.z s).

(** A transform moved to the ground: its height and its rotation dropped. *)
Definition grounded (T : TransformationMatrix.t) : TransformationMatrix.t :=
  let '(tx, ty, _) := TransformationMatrix.translation T in
  TransformationMatrix.from_point_rotation_matrix (tx, ty, 0).

(** The entries of a wall with the transform of every double door moved to
    the ground. *)
Definition ground_double_door (entry : EntryWayFactory * TransformationMatrix.t)
  : EntryWayFactory * TransformationMatrix.t :=
  match entry with
  | (ADoubleDoorFactory f, T) => (ADoubleDoorFactory f, grounded T)
  | (ADoorFactory f, T) => (ADoorFactory f, T)
  end.

Definition with_double_doors_grounded (self : WallFactory.t) : WallFactory.t :=
  let pairs :=
    map ground_double_door
      (combine (WallFactory.door_factories self) (WallFactory.door_transforms self)) in
  WallFactory.mk (WallFactory.name self) (WallFactory.scale self)
    (map fst pairs) (map snd pairs).




(** A connection at depth one or two of the tree under [root]: it starts at
    the root, or at the child of a connection that does. *)
Definition hangs_under (root : nat) (connections : list Connection) (c : Connection)
  : Prop :=
  connection_parent c = root \/
  exists joint,
    In joint connections /\ connection_parent joint = root /\
    connection_child joint = connection_parent c.


(** Containers whose wall thickness is out of range: no wall at all, and
    walls thicker than the container. *)
Definition sample_container_without_walls : ContainerFactory.t :=
  ContainerFactory.mk (PrefixedName.mk "container" None) (Scale.mk 1 1 1) 0 Direction.X.

Definition sample_container_thick_walls : ContainerFactory.t :=
  ContainerFactory.mk (PrefixedName.mk "container" None) (Scale.mk 1 1 1) 2 Direction.X.

(** A double door whose halves are narrower than the 0.1 their handles are
    set in from the edge. *)
Definition sample_narrow_double_door : DoubleDoorFactory.t :=
  DoubleDoorFactory.mk (PrefixedName.mk "hatch" None) (Scale.mk 0.03 0.16 0.3)
    sample_handle.

(* ================================================================== *)
(** * Facts *)

(** ** Rational comparisons *)

Lemma Qle_bool_true (a b : Q) : Qle_bool a b = true <-> a <= b.
Proof. apply Qle_bool_iff. Qed.

Lemma Qle_bool_false (a b : Q) : Qle_bool a b = false <-> b < a.
Proof.
  split; intro H.
  - apply Qnot_le_lt. intro L. apply Qle_bool_iff in L. congruence.
  - destruct (Qle_bool a b) eqn:E; [|reflexivity].
    apply Qle_bool_iff in E. lra.
Qed.

Lemma Qlt_bool_true (a b : Q) : Qlt_bool a b = true <-> a < b.
Proof.
  unfold Qlt_bool. rewrite negb_true_iff. apply Qle_bool_false.
Qed.

Lemma Qlt_bool_false (a b : Q) : Qlt_bool a b = false <-> b <= a.
Proof.
  unfold Qlt_bool. rewrite negb_false_iff. apply Qle_bool_true.
Qed.

(** Case analysis on every rational comparison in sight, then linear
    arithmetic. *)
Ltac qstep :=
  match goal with
  | |- context [Qle_bool ?a ?b] =>
      let E := fresh "E" in
      destruct (Qle_bool a b) eqn:E;
      [apply Qle_bool_true in E | apply Qle_bool_false in E]
  | H : context [Qle_bool ?a ?b] |- _ =>
      let E := fresh "E" in
      destruct (Qle_bool a b) eqn:E;
      [apply Qle_bool_true in E | apply Qle_bool_false in E]
  end.

(** [lra] does not know division: halving is multiplication by [1 # 2]. *)
Ltac qlra := unfold Qdiv in *; change (/ 2) with (1 # 2) in *; lra.

Ltac qcases :=
  unfold Qlt_bool in *; cbn in *;
  repeat (qstep; cbn in *; try (exfalso; qlra));
  try reflexivity; try discriminate; try qlra.

(* ================================================================== *)
(** ** Rounding to doubles *)

Module FloatFacts.
Import Float.

Lemma two_power_positive (k : Z) : 0 < 2 ^ k.
Proof. apply Qpower_0_lt. reflexivity. Qed.

Lemma two_power_Z (n : Z) : (0 <= n)%Z -> 2 ^ n == inject_Z (2 ^ n).
Proof. intro H. symmetry. apply (Zpower_Qpower 2 n H). Qed.

(** Comparing two fractions of integers. *)
Lemma fraction_lt (n d A B : Z) :
  (0 < d)%Z -> (0 < B)%Z -> (n * B < A * d)%Z ->
  inject_Z n / inject_Z d < inject_Z A / inject_Z B.
Proof.
  intros Hd HB H.
  assert (Hd' : 0 < inject_Z d) by (change 0 with (inject_Z 0); rewrite <- Zlt_Qlt; exact Hd).
  assert (HB' : 0 < inject_Z B) by (change 0 with (inject_Z 0); rewrite <- Zlt_Qlt; exact HB).
  apply Qlt_shift_div_r; [exact Hd'|].
  assert (E : inject_Z A / inject_Z B * inject_Z d ==
              inject_Z A * inject_Z d / inject_Z B)
    by (field; intro H0; rewrite H0 in HB'; discriminate HB').
  rewrite E. apply Qlt_shift_div_l; [exact HB'|].
  rewrite <- !inject_Z_mult, <- Zlt_Qlt. exact H.
Qed.

Lemma ilog2_spec (x : Q) :
  0 < x -> 2 ^ ilog2 x <= x /\ x < 2 ^ (ilog2 x + 1).
Proof.
  intro Hx. destruct x as [n d].
  assert (Hn : (0 < n)%Z).
  { unfold Qlt in Hx. cbn in Hx. lia. }
  pose proof (Z.log2_spec n Hn) as [Hn1 Hn2].
  pose proof (Z.log2_spec (Zpos d) eq_refl) as [Hd1 Hd2].
  pose proof (Z.log2_nonneg n) as Hln.
  pose proof (Z.log2_nonneg (Zpos d)) as Hld.
  set (ln := Z.log2 n) in *. set (ld := Z.log2 (Zpos d)) in *.
  assert (Hpn : (0 < 2 ^ ln)%Z) by (apply Z.pow_pos_nonneg; lia).
  assert (Hpd : (0 < 2 ^ ld)%Z) by (apply Z.pow_pos_nonneg; lia).
  assert (Ex : n # d == inject_Z n / inject_Z (Zpos d)) by apply Qmake_Qdiv.
  assert (Hup : n # d < 2 ^ (ln - ld + 1)).
  { replace (ln - ld + 1)%Z with (Z.succ ln - ld)%Z by lia.
    rewrite Qpower_minus by discriminate.
    rewrite (two_power_Z (Z.succ ln)) by lia. rewrite (two_power_Z ld) by lia.
    rewrite Ex. apply fraction_lt; [reflexivity|exact Hpd|]. nia. }
  assert (Hlo : 2 ^ (ln - ld - 1) <= n # d).
  { replace (ln - ld - 1)%Z with (ln - Z.succ ld)%Z by lia.
    rewrite Qpower_minus by discriminate.
    rewrite (two_power_Z ln) by lia. rewrite (two_power_Z (Z.succ ld)) by lia.
    rewrite Ex. apply Qlt_le_weak.
    apply fraction_lt; [apply Z.pow_pos_nonneg; lia|reflexivity|]. nia. }
  unfold ilog2. cbn [Qnum Qden]. fold ln. fold ld.
  destruct (Qle_bool (2 ^ (ln - ld)) (n # d)) eqn:E.
  - split; [apply Qle_bool_iff, E | exact Hup].
  - split; [exact Hlo|].
    replace (ln - ld - 1 + 1)%Z with (ln - ld)%Z by lia.
    apply Qnot_le_lt. intro H. apply Qle_bool_iff in H. congruence.
Qed.

Lemma rne_bounds (u : Q) : (Qfloor u <= rne u <= Qfloor u + 1)%Z.
Proof.
  unfold rne. destruct (Qcompare _ _); [destruct (Z.even _)| |]; lia.
Qed.

Lemma rne_monotone (u v : Q) : u <= v -> (rne u <= rne v)%Z.
Proof.
  intro H. pose proof (Qfloor_resp_le u v H) as Hf.
  pose proof (rne_bounds u) as Hu. pose proof (rne_bounds v) as Hv.
  destruct (Z.eq_dec (Qfloor u) (Qfloor v)) as [E|E]; [|lia].
  unfold rne in *. rewrite E in *.
  destruct (Qcompare_spec (u - inject_Z (Qfloor v)) (1 # 2)) as [Hu'|Hu'|Hu'];
    destruct (Qcompare_spec (v - inject_Z (Qfloor v)) (1 # 2)) as [Hv'|Hv'|Hv'];
    try destruct (Z.even (Qfloor v)); try lia; exfalso; lra.
Qed.

Lemma rne_integer (n : Z) : rne (inject_Z n) = n.
Proof.
  unfold rne. rewrite Qfloor_Z.
  destruct (Qcompare_spec (inject_Z n - inject_Z n) (1 # 2)) as [H|H|H];
    [exfalso; lra | reflexivity | exfalso; lra].
Qed.

Lemma rne_eq (u v : Q) : u == v -> rne u = rne v.
Proof.
  intro H. apply Z.le_antisymm; apply rne_monotone; rewrite H; apply Qle_refl.
Qed.

Lemma grid_monotone (k : Z) (x y : Q) : x <= y -> grid k x <= grid k y.
Proof.
  intro H. unfold grid. pose proof (two_power_positive k) as Hk.
  apply Qmult_le_compat_r; [|apply Qlt_le_weak, Hk].
  rewrite <- Zle_Qle. apply rne_monotone.
  unfold Qdiv. apply Qmult_le_compat_r; [exact H|].
  apply Qlt_le_weak, Qinv_lt_0_compat, Hk.
Qed.

Lemma grid_exact (k m : Z) : grid k (inject_Z m * 2 ^ k) == inject_Z m * 2 ^ k.
Proof.
  unfold grid. pose proof (two_power_positive k) as Hk.
  rewrite (rne_eq (inject_Z m * 2 ^ k / 2 ^ k) (inject_Z m)).
  - now rewrite rne_integer.
  - field. intro H. rewrite H in Hk. discriminate Hk.
Qed.

Lemma round_positive_bounds (x : Q) :
  0 < x -> 2 ^ ilog2 x <= round_positive x /\ round_positive x <= 2 ^ (ilog2 x + 1).
Proof.
  intro Hx. destruct (ilog2_spec x Hx) as [Hlo Hup].
  set (e := ilog2 x) in *.
  change (round_positive x) with (grid (e - 52) x).
  assert (E1 : 2 ^ e == inject_Z (2 ^ 52) * 2 ^ (e - 52)).
  { rewrite <- (two_power_Z 52) by discriminate.
    rewrite <- Qpower_plus by discriminate.
    replace (52 + (e - 52))%Z with e by lia. reflexivity. }
  assert (E2 : 2 ^ (e + 1) == inject_Z (2 ^ 53) * 2 ^ (e - 52)).
  { rewrite <- (two_power_Z 53) by discriminate.
    rewrite <- Qpower_plus by discriminate.
    replace (53 + (e - 52))%Z with (e + 1)%Z by lia. reflexivity. }
  split.
  - rewrite E1 at 1. rewrite <- grid_exact. apply grid_monotone.
    rewrite <- E1. exact Hlo.
  - rewrite E2. rewrite <- (grid_exact (e - 52) (2 ^ 53)). apply grid_monotone.
    rewrite <- E2. apply Qlt_le_weak, Hup.
Qed.

Lemma round_positive_positive (x : Q) : 0 < x -> 0 < round_positive x.
Proof.
  intro Hx. eapply Qlt_le_trans; [apply (two_power_positive (ilog2 x))|].
  apply round_positive_bounds, Hx.
Qed.

Lemma round_positive_monotone (x y : Q) :
  0 < x -> x <= y -> round_positive x <= round_positive y.
Proof.
  intros Hx Hxy.
  assert (Hy : 0 < y) by lra.
  destruct (ilog2_spec x Hx) as [Hx1 Hx2]. destruct (ilog2_spec y Hy) as [Hy1 Hy2].
  destruct (round_positive_bounds x Hx) as [_ Bx].
  destruct (round_positive_bounds y Hy) as [By _].
  assert (He : (ilog2 x < ilog2 y + 1)%Z).
  { apply (Qpower_lt_compat_l_inv 2); [|reflexivity]. lra. }
  destruct (Z.eq_dec (ilog2 x) (ilog2 y)) as [E|E].
  - unfold round_positive. rewrite E. apply grid_monotone, Hxy.
  - assert (H : 2 ^ (ilog2 x + 1) <= 2 ^ ilog2 y)
      by (apply Qpower_le_compat_l; [lia|discriminate]).
    lra.
Qed.

Lemma numerator_sign (x : Q) :
  match Qnum x with
  | Z0 => x == 0
  | Zpos _ => 0 < x
  | Zneg _ => x < 0
  end.
Proof. destruct x as [[|p|p] d]; reflexivity. Qed.

(** Rounding keeps the sign. *)
Lemma round_sign (x : Q) :
  (0 < x -> 0 < round x) /\ (x < 0 -> round x < 0) /\ (x == 0 -> round x == 0).
Proof.
  pose proof (numerator_sign x) as H. unfold round.
  destruct (Qnum x) eqn:E.
  - repeat split; intros; (reflexivity || lra).
  - pose proof (round_positive_positive x H). repeat split; intros; lra.
  - assert (H' : 0 < - x) by lra.
    pose proof (round_positive_positive (- x) H'). repeat split; intros; lra.
Qed.

(** Rounding never reverses an order. *)
Lemma round_monotone (x y : Q) : x <= y -> round x <= round y.
Proof.
  intro Hxy.
  pose proof (numerator_sign x) as Hx. pose proof (numerator_sign y) as Hy.
  destruct (round_sign x) as (Px & Nx & Zx). destruct (round_sign y) as (Py & Ny & Zy).
  unfold round in *.
  destruct (Qnum x) eqn:Ex; destruct (Qnum y) eqn:Ey;
    try specialize (Px Hx); try specialize (Nx Hx);
    try specialize (Py Hy); try specialize (Ny Hy); try lra.
  - apply round_positive_monotone; assumption.
  - assert (H : round_positive (- y) <= round_positive (- x))
      by (apply round_positive_monotone; lra).
    lra.
Qed.

Lemma is_double_round (a : Q) : is_double a = true -> round a == a.
Proof. apply Qeq_bool_eq. Qed.

(** What the statements use of the subtraction and the addition of doubles:
    the result is on the side of the first operand the exact result is on, and
    it has the sign of the exact result. *)
Lemma float_sub_le (a b : Q) : 0 <= b -> sub a b <= a.
Proof.
  intro Hb. unfold sub. destruct (is_double a) eqn:Ea; cbn [andb]; [|lra].
  destruct (is_double b); [|lra].
  rewrite <- (is_double_round a Ea) at 2. apply round_monotone. lra.
Qed.

Lemma float_sub_ge (a b : Q) : b <= 0 -> a <= sub a b.
Proof.
  intro Hb. unfold sub. destruct (is_double a) eqn:Ea; cbn [andb]; [|lra].
  destruct (is_double b); [|lra].
  rewrite <- (is_double_round a Ea) at 1. apply round_monotone. lra.
Qed.

Lemma float_sub_negative (a b : Q) : a < b -> sub a b < 0.
Proof.
  intro H. unfold sub. destruct (is_double a && is_double b); [|lra].
  apply round_sign. lra.
Qed.

Lemma float_sub_positive (a b : Q) : b < a -> 0 < sub a b.
Proof.
  intro H. unfold sub. destruct (is_double a && is_double b); [|lra].
  apply round_sign. lra.
Qed.

Lemma float_sub_nonpositive (a b : Q) : a <= b -> sub a b <= 0.
Proof.
  intro H. unfold sub. destruct (is_double a && is_double b); [|lra].
  change 0 with (round 0). apply round_monotone. lra.
Qed.

Lemma float_add_ge (a b : Q) : 0 <= b -> a <= add a b.
Proof.
  intro Hb. unfold add. destruct (is_double a) eqn:Ea; cbn [andb]; [|lra].
  destruct (is_double b); [|lra].
  rewrite <- (is_double_round a Ea) at 1. apply round_monotone. lra.
Qed.



Lemma float_add_negative (a b : Q) : a + b < 0 -> add a b < 0.
Proof.
  intro H. unfold add. destruct (is_double a && is_double b); [|lra].
  apply round_sign. lra.
Qed.

End FloatFacts.

(* ================================================================== *)
(** ** Meaning of the interval operations *)

Module IntervalFacts.
Import Interval.

Lemma max_lower_above e f q : above (max_lower e f) q = above e q && above f q.
Proof.
  destruct e as [[a [|]]|], f as [[b [|]]|]; unfold max_lower, above;
    cbn [both_closed]; qcases.
Qed.

Lemma min_upper_below e f q : below (min_upper e f) q = below e q && below f q.
Proof.
  destruct e as [[a [|]]|], f as [[b [|]]|]; unfold min_upper, below;
    cbn [both_closed]; qcases.
Qed.

Lemma si_intersection_contains s r q :
  si_contains (si_intersection s r) q = si_contains s q && si_contains r q.
Proof.
  unfold si_contains, si_intersection; cbn [lower upper].
  rewrite max_lower_above, min_upper_below.
  destruct (above (lower s) q), (above (lower r) q),
    (below (upper s) q), (below (upper r) q); reflexivity.
Qed.

Lemma si_complement_contains s q :
  contains (si_complement s) q = negb (si_contains s q).
Proof.
  destruct s as [[[a [|]]|] [[b [|]]|]];
    unfold contains, si_complement, si_contains, above, below;
    cbn; qcases.
Qed.

Lemma interval_union_contains i j q :
  contains (union i j) q = contains i q || contains j q.
Proof. unfold contains, union. apply existsb_app. Qed.

Lemma interval_intersection_contains i j q :
  contains (intersection i j) q = contains i q && contains j q.
Proof.
  unfold intersection, contains.
  induction i as [|s i IH]; cbn; [reflexivity|].
  rewrite existsb_app, IH.
  assert (H : existsb (fun r => si_contains r q) (map (si_intersection s) j)
              = si_contains s q && existsb (fun r => si_contains r q) j).
  { clear IH. induction j as [|r j IHj]; cbn.
    - now rewrite andb_false_r.
    - rewrite IHj, si_intersection_contains.
      destruct (si_contains s q), (si_contains r q); reflexivity. }
  rewrite H.
  destruct (si_contains s q); cbn; [|reflexivity].
  destruct (existsb _ j), (existsb _ i); reflexivity.
Qed.

Lemma interval_complement_contains i q : contains (complement i) q = negb (contains i q).
Proof.
  induction i as [|s i IH]; [reflexivity|].
  change (complement (s :: i)) with (intersection (si_complement s) (complement i)).
  rewrite interval_intersection_contains, si_complement_contains, IH.
  cbn [contains existsb]. now rewrite negb_orb.
Qed.

Lemma interval_difference_contains i j q :
  contains (difference i j) q = contains i q && negb (contains j q).
Proof.
  unfold difference. now rewrite interval_intersection_contains, interval_complement_contains.
Qed.

Lemma closed_contains a b q :
  contains (closed a b) q = Qle_bool a q && Qle_bool q b.
Proof. cbn. now rewrite orb_false_r. Qed.

Lemma reals_contains q : contains reals q = true.
Proof. reflexivity. Qed.

Lemma si_pick_contains s : si_is_empty s = false -> si_contains s (si_pick s) = true.
Proof.
  destruct s as [[[a [|]]|] [[b [|]]|]];
    unfold si_is_empty, si_contains, si_pick, above, below;
    cbn [lower upper both_closed]; intro H; qcases.
Qed.

Lemma si_is_empty_contains s q : si_is_empty s = true -> si_contains s q = false.
Proof.
  destruct s as [[[a [|]]|] [[b [|]]|]];
    unfold si_is_empty, si_contains, above, below;
    cbn [lower upper both_closed]; intro H; qcases.
Qed.

Lemma interval_is_empty_contains i q : is_empty i = true -> contains i q = false.
Proof.
  induction i as [|s i IH]; cbn [is_empty forallb contains existsb];
    [reflexivity|].
  rewrite andb_true_iff. intros [Hs Hi].
  rewrite (si_is_empty_contains _ _ Hs). apply IH, Hi.
Qed.

Lemma pick_contains i : is_empty i = false -> contains i (pick i) = true.
Proof.
  induction i as [|s i IH]; cbn [is_empty forallb contains existsb pick];
    [discriminate|].
  destruct (si_is_empty s) eqn:E; cbn [andb].
  - intro H. rewrite (si_is_empty_contains _ _ E). apply IH, H.
  - intros _. now rewrite (si_pick_contains _ E).
Qed.

Lemma interval_contains_not_empty i q : contains i q = true -> is_empty i = false.
Proof.
  intro H. destruct (is_empty i) eqn:E; [|reflexivity].
  rewrite (interval_is_empty_contains _ q E) in H. discriminate.
Qed.

(** Membership only looks at the value of the rational, not its
    representation as a fraction. *)
Lemma si_contains_Qeq s p q : p == q -> si_contains s p = si_contains s q.
Proof.
  intro H. destruct s as [[[a [|]]|] [[b [|]]|]];
    unfold si_contains, above, below; cbn [lower upper]; qcases.
Qed.

Lemma contains_Qeq i p q : p == q -> contains i p = contains i q.
Proof.
  intro H. induction i as [|s i IH]; cbn [contains existsb]; [reflexivity|].
  rewrite (si_contains_Qeq s p q H). f_equal. apply IH.
Qed.

End IntervalFacts.


(* ================================================================== *)
(** ** Meaning of the product-algebra operations *)

Module ProductFacts.
Import Product.

Lemma var_intersection_contains o o' q :
  var_contains (var_intersection o o') q = var_contains o q && var_contains o' q.
Proof.
  destruct o, o'; cbn [var_intersection var_contains];
    rewrite ?IntervalFacts.interval_intersection_contains, ?andb_true_r; reflexivity.
Qed.

Lemma se_intersection_contains s r p :
  se_contains (se_intersection s r) p = se_contains s p && se_contains r p.
Proof.
  unfold se_contains, se_intersection; cbn [on_x on_y on_z].
  rewrite !var_intersection_contains.
  repeat match goal with |- context [var_contains ?o ?q] =>
    destruct (var_contains o q) end; reflexivity.
Qed.

Lemma intersection_contains e f p :
  contains (intersection e f) p = contains e p && contains f p.
Proof.
  unfold intersection, contains.
  induction e as [|s e IH]; [reflexivity|].
  cbn [flat_map existsb]. rewrite existsb_app, IH.
  assert (H : existsb (fun r => se_contains r p) (map (se_intersection s) f)
              = se_contains s p && existsb (fun r => se_contains r p) f).
  { clear IH. induction f as [|r f IHf]; cbn [map existsb].
    - now rewrite andb_false_r.
    - rewrite IHf, se_intersection_contains.
      destruct (se_contains s p), (se_contains r p); reflexivity. }
  rewrite H.
  destruct (se_contains s p); cbn [andb orb]; [|reflexivity].
  destruct (existsb _ f), (existsb _ e); reflexivity.
Qed.

Lemma union_contains e f p : contains (union e f) p = contains e p || contains f p.
Proof. unfold contains, union. apply existsb_app. Qed.

Lemma domain_of_contains o q : var_contains (domain_of o) q = true.
Proof. destruct o; reflexivity. Qed.

Lemma se_complement_contains s p :
  contains (se_complement s) p = negb (se_contains s p).
Proof.
  destruct s as [[i|] [j|] [k|]];
    unfold contains, se_complement, se_contains; cbn [on_x on_y on_z app existsb];
    unfold se_contains; cbn [on_x on_y on_z var_contains domain_of];
    rewrite ?IntervalFacts.interval_complement_contains, ?IntervalFacts.reals_contains;
    repeat match goal with |- context [Interval.contains ?o ?q] =>
      destruct (Interval.contains o q) end; reflexivity.
Qed.

Lemma complement_contains e p : contains (complement e) p = negb (contains e p).
Proof.
  induction e as [|s e IH]; [reflexivity|].
  change (complement (s :: e)) with (intersection (se_complement s) (complement e)).
  rewrite intersection_contains, se_complement_contains, IH.
  cbn [contains existsb]. now rewrite negb_orb.
Qed.

Lemma difference_contains e f p :
  contains (difference e f) p = contains e p && negb (contains f p).
Proof.
  unfold difference. now rewrite intersection_contains, complement_contains.
Qed.

Lemma var_fill_contains b o q : var_contains (var_fill b o) q = var_contains o q.
Proof. destruct o, b; reflexivity. Qed.

Lemma fill_missing_variables_contains vars e p :
  contains (fill_missing_variables vars e) p = contains e p.
Proof.
  unfold contains, fill_missing_variables.
  induction e as [|s e IH]; [reflexivity|].
  cbn [map existsb]. rewrite IH. f_equal.
  unfold se_contains, se_fill_missing_variables; cbn [on_x on_y on_z].
  now rewrite !var_fill_contains.
Qed.

Lemma var_is_empty_contains o q : var_is_empty o = true -> var_contains o q = false.
Proof. destruct o; cbn; [apply IntervalFacts.interval_is_empty_contains | discriminate]. Qed.

Lemma var_pick_contains o : var_is_empty o = false -> var_contains o (var_pick o) = true.
Proof. destruct o; cbn; [apply IntervalFacts.pick_contains | reflexivity]. Qed.

Lemma se_is_empty_contains s p : se_is_empty s = true -> se_contains s p = false.
Proof.
  unfold se_is_empty, se_contains. rewrite !orb_true_iff.
  intros [[H|H]|H]; rewrite (var_is_empty_contains _ _ H);
    rewrite ?andb_false_r; cbn [andb]; reflexivity.
Qed.

Lemma se_pick_contains s : se_is_empty s = false -> se_contains s (se_pick s) = true.
Proof.
  unfold se_is_empty, se_contains, se_pick. rewrite !orb_false_iff.
  intros [[Hx Hy] Hz]. cbn [coord].
  now rewrite !var_pick_contains.
Qed.

Lemma is_empty_contains e p : is_empty e = true -> contains e p = false.
Proof.
  induction e as [|s e IH]; cbn [is_empty forallb contains existsb]; [reflexivity|].
  rewrite andb_true_iff. intros [Hs He].
  rewrite (se_is_empty_contains _ _ Hs). apply IH, He.
Qed.


Lemma contains_exists e p :
  contains e p = true <-> exists s, In s e /\ se_contains s p = true.
Proof. unfold contains. apply existsb_exists. Qed.

(** The projection of a simple event that has points. *)
Lemma se_marginal_contains vars s p :
  se_is_empty s = false ->
  se_contains (se_marginal vars s) p = true <->
  exists p', se_contains s p' = true /\ agree vars p p'.
Proof.
  intro Hne. pose proof (se_pick_contains s Hne) as Hpick.
  destruct p as [[a b] c]. unfold se_contains, se_marginal, se_pick in *.
  cbn [on_x on_y on_z coord] in *.
  apply andb_true_iff in Hpick as [Hpick Hz].
  apply andb_true_iff in Hpick as [Hx Hy].
  split.
  - intro H.
    exists (if keeps vars X then a else var_pick (on_x s),
            if keeps vars Y then b else var_pick (on_y s),
            if keeps vars Z then c else var_pick (on_z s)).
    split.
    + cbn [coord].
      destruct (keeps vars X), (keeps vars Y), (keeps vars Z);
        cbn [var_contains andb] in H; rewrite ?Hx, ?Hy, ?Hz; cbn [andb];
        repeat match goal with
        | H : _ && _ = true |- _ => apply andb_true_iff in H as [? ?]
        end;
        repeat match goal with H : var_contains _ _ = true |- _ => rewrite H end;
        reflexivity.
    + intros [| |]; cbn [coord]; intro K; rewrite K; reflexivity.
  - intros [[[a' b'] c'] [H Hag]].
    pose proof (Hag X) as HX. pose proof (Hag Y) as HY. pose proof (Hag Z) as HZ.
    cbn [coord] in *.
    apply andb_true_iff in H as [H Hc]. apply andb_true_iff in H as [Ha Hb].
    destruct (keeps vars X), (keeps vars Y), (keeps vars Z);
      cbn [var_contains andb];
      rewrite <- ?(HX eq_refl), <- ?(HY eq_refl), <- ?(HZ eq_refl);
      rewrite ?Ha, ?Hb, ?Hc; reflexivity.
Qed.

(** [marginal] is the projection: a point is in the marginal exactly when
    some point of the event has the same coordinates on the kept variables. *)
Lemma marginal_contains vars e p :
  contains (marginal vars e) p = true <->
  exists p', contains e p' = true /\ agree vars p p'.
Proof.
  unfold marginal. rewrite contains_exists. split.
  - intros [m [Hin Hm]]. apply in_map_iff in Hin as [s [<- Hin]].
    apply filter_In in Hin as [Hin Hne]. apply negb_true_iff in Hne.
    apply (se_marginal_contains vars s p Hne) in Hm as [p' [Hp' Hag]].
    exists p'. split; [|exact Hag].
    apply contains_exists. exists s. auto.
  - intros [p' [Hp' Hag]]. apply contains_exists in Hp' as [s [Hin Hs]].
    assert (Hne : se_is_empty s = false).
    { destruct (se_is_empty s) eqn:E; [|reflexivity].
      rewrite (se_is_empty_contains _ _ E) in Hs. discriminate. }
    exists (se_marginal vars s). split.
    + apply in_map, filter_In. split; [exact Hin|]. now rewrite Hne.
    + apply (se_marginal_contains vars s p Hne). exists p'. auto.
Qed.

(** On the [yz] plane the marginal forgets the depth coordinate. *)
Lemma marginal_yz_contains e a b c :
  contains (marginal yz e) (a, b, c) = true <->
  exists a', contains e (a', b, c) = true.
Proof.
  rewrite marginal_contains. split.
  - intros [[[a' b'] c'] [H Hag]].
    pose proof (Hag Y eq_refl) as HY. pose proof (Hag Z eq_refl) as HZ.
    cbn [coord] in HY, HZ. subst. now exists a'.
  - intros [a' H]. exists (a', b, c). split; [exact H|].
    intros [| |]; cbn; intro K; [discriminate | reflexivity | reflexivity].
Qed.

Lemma var_union_contains o o' q :
  var_contains (var_union o o') q = var_contains o q || var_contains o' q.
Proof.
  destruct o, o'; cbn [var_union var_contains];
    rewrite ?IntervalFacts.interval_union_contains, ?orb_true_r; reflexivity.
Qed.

Lemma se_projection s v q :
  se_is_empty s = false ->
  var_contains (get s v) q = true <->
  exists p, se_contains s p = true /\ coord p v = q.
Proof.
  intro Hne. pose proof (se_pick_contains s Hne) as Hpick.
  unfold se_contains, se_pick in *. cbn [coord] in Hpick.
  apply andb_true_iff in Hpick as [Hpick Hz].
  apply andb_true_iff in Hpick as [Hx Hy].
  split.
  - intro H. exists (with_coord (se_pick s) v q).
    destruct v; cbn [with_coord se_pick coord get] in *;
      rewrite ?H, ?Hx, ?Hy, ?Hz; auto.
  - intros [[[a b] c] [H <-]].
    apply andb_true_iff in H as [H Hc]. apply andb_true_iff in H as [Ha Hb].
    destruct v; assumption.
Qed.

(** The bounding box on a variable is the projection of the event onto it. *)
Lemma bounding_box_contains e v q :
  var_contains (get (bounding_box e) v) q = true <->
  exists p, contains e p = true /\ coord p v = q.
Proof.
  induction e as [|s e IH].
  - split; [destruct v; discriminate | intros [p [H _]]; discriminate].
  - cbn [bounding_box fold_right]. fold (bounding_box e).
    destruct (se_is_empty s) eqn:E.
    + rewrite IH. split; intros [p [H Hv]]; exists p; split; auto.
      * cbn [contains existsb]. fold (contains e p). rewrite H. apply orb_true_r.
      * cbn [contains existsb] in H. fold (contains e p) in H.
        now rewrite (se_is_empty_contains _ _ E) in H.
    + assert (Hu : var_contains
                (get (mkSE (var_union (on_x s) (on_x (bounding_box e)))
                           (var_union (on_y s) (on_y (bounding_box e)))
                           (var_union (on_z s) (on_z (bounding_box e)))) v) q
              = var_contains (get s v) q || var_contains (get (bounding_box e) v) q).
      { destruct v; cbn [get on_x on_y on_z]; apply var_union_contains. }
      rewrite Hu, orb_true_iff, IH, (se_projection s v q E).
      split.
      * intros [[p [H Hv]]|[p [H Hv]]]; exists p; split; auto;
          cbn [contains existsb]; fold (contains e p); rewrite H;
          auto using orb_true_r.
      * intros [p [H Hv]]. cbn [contains existsb] in H. fold (contains e p) in H.
        apply orb_true_iff in H as [H|H]; [left|right]; exists p; auto.
Qed.

(** Events built from rationals only see the value of a coordinate. *)
Lemma var_contains_Qeq o p q : p == q -> var_contains o p = var_contains o q.
Proof. destruct o; cbn; [apply IntervalFacts.contains_Qeq | reflexivity]. Qed.

Lemma not_empty_contains e : is_empty e = false -> exists p, contains e p = true.
Proof.
  induction e as [|s e IH]; cbn [is_empty forallb]; [discriminate|].
  destruct (se_is_empty s) eqn:E; cbn [andb].
  - intro H. destruct (IH H) as [p Hp]. exists p.
    cbn [contains existsb]. fold (contains e p). rewrite Hp. apply orb_true_r.
  - intros _. exists (se_pick s). cbn [contains existsb].
    now rewrite (se_pick_contains _ E).
Qed.

Lemma closed_contains_iff a b q :
  Interval.contains (Interval.closed a b) q = true <-> a <= q /\ q <= b.
Proof.
  rewrite IntervalFacts.closed_contains, andb_true_iff, !Qle_bool_true. tauto.
Qed.

(** Membership in a box of closed intervals. *)
Lemma box_contains_iff a b c d e f x y z :
  se_contains (box (Interval.closed a b) (Interval.closed c d) (Interval.closed e f))
    (x, y, z) = true <->
  (a <= x /\ x <= b) /\ (c <= y /\ y <= d) /\ (e <= z /\ z <= f).
Proof.
  unfold se_contains, box. cbn [on_x on_y on_z coord var_contains].
  rewrite !andb_true_iff, !closed_contains_iff. tauto.
Qed.

(** The difference of two boxes. *)
Lemma box_difference_contains s r p :
  contains (difference (as_composite_set s) (as_composite_set r)) p = true <->
  se_contains s p = true /\ se_contains r p <> true.
Proof.
  rewrite difference_contains. unfold as_composite_set. cbn [contains existsb].
  rewrite !orb_false_r, andb_true_iff, negb_true_iff, not_true_iff_false. tauto.
Qed.

End ProductFacts.

(* ================================================================== *)
(** ** The construction monad *)

Lemma bind_ok {A B} (m : M A) (k : A -> M B) h h' a :
  m h = (h', Ok a) -> bind m k h = k a h'.
Proof. unfold bind. now intros ->. Qed.

Lemma bind_raise {A B} (m : M A) (k : A -> M B) h h' e :
  m h = (h', Raise e) -> bind m k h = (h', Raise e).
Proof. unfold bind. now intros ->. Qed.

(** A loop whose body never raises and allocates nothing is a fold. *)
Lemma for_each_pure {A S} (l : list A) (body : S -> A -> M S) (g : S -> A -> S) s h :
  (forall s a h, body s a h = (h, Ok (g s a))) ->
  for_each l body s h = (h, Ok (fold_left g l s)).
Proof.
  intro Hb. revert s. induction l as [|a l IH]; intro s; [reflexivity|].
  cbn [for_each fold_left]. rewrite (bind_ok _ _ _ _ _ (Hb s a h)). apply IH.
Qed.

(** A loop fails as soon as its body fails on some element, whatever the
    state it is reached in; the error is one its rounds can raise. *)
Lemma for_each_fails {A S} (P : Exception -> Prop) (l : list A)
    (body : S -> A -> M S) a :
  In a l ->
  (forall s h, exists h' e, body s a h = (h', Raise e)) ->
  (forall b s h h' e, In b l -> body s b h = (h', Raise e) -> P e) ->
  forall s h, exists h' e, for_each l body s h = (h', Raise e) /\ P e.
Proof.
  intros Hin Hfail HP. induction l as [|b l IH]; [destruct Hin|].
  intros s h. cbn [for_each]. unfold bind.
  destruct (body s b h) as [h1 [s1|e1]] eqn:E.
  - destruct Hin as [->|Hin].
    + destruct (Hfail s h) as [h' [e He]]. congruence.
    + apply IH; [exact Hin|]. intros c s0 h0 h' e Hc. apply HP. now right.
  - exists h1, e1. split; [reflexivity|]. apply (HP b s h h1 e1); [now left|exact E].
Qed.

(* ================================================================== *)
(** ** What the factories build *)

Lemma HandleFactory_create_spec (f : HandleFactory.t) (h : Heap) :
  HandleFactory.create f h =
  (h ++ [HandleFactory.name f], Ok (handle_world f (List.length h))).
Proof. reflexivity. Qed.

Lemma ContainerFactory_create_spec (f : ContainerFactory.t) (h : Heap) :
  ContainerFactory.create f h =
  (h ++ [ContainerFactory.name f], Ok (container_world f (List.length h))).
Proof. reflexivity. Qed.

Lemma create_door_event_supported (f : DoorFactory.t) (h : Heap) :
  door_supported (DoorFactory.handle_direction f) = true ->
  DoorFactory.create_door_event f h = (h, Ok (door_panel f)).
Proof.
  unfold DoorFactory.create_door_event, door_panel.
  destruct (DoorFactory.handle_direction f); (discriminate || reflexivity).
Qed.

Lemma create_door_T_handle_supported (f : DoorFactory.t) (h : Heap) :
  door_supported (DoorFactory.handle_direction f) = true ->
  DoorFactory.create_door_T_handle f h = (h, Ok (door_T_handle f)).
Proof.
  unfold DoorFactory.create_door_T_handle, door_T_handle.
  destruct (DoorFactory.handle_direction f); (discriminate || reflexivity).
Qed.

Lemma create_door_event_unsupported (f : DoorFactory.t) (h : Heap) :
  door_supported (DoorFactory.handle_direction f) = false ->
  DoorFactory.create_door_event f h = (h, Raise NotImplementedError).
Proof.
  unfold DoorFactory.create_door_event.
  destruct (DoorFactory.handle_direction f); (discriminate || reflexivity).
Qed.

Lemma length_snoc {A} (l : list A) a : List.length (l ++ [a]) = S (List.length l).
Proof. rewrite length_app. cbn. lia. Qed.

Lemma DoorFactory_create_supported (f : DoorFactory.t) (h : Heap) :
  door_supported (DoorFactory.handle_direction f) = true ->
  DoorFactory.create f h =
  (h ++ [DoorFactory.name f; HandleFactory.name (DoorFactory.handle_factory f)],
   Ok (door_world f (List.length h))).
Proof.
  intro Hs. unfold DoorFactory.create, DoorFactory._create.
  rewrite (bind_ok _ _ _ _ _ (create_door_event_supported f h Hs)).
  unfold Body_new at 1. unfold bind at 1.
  rewrite (bind_ok _ _ _ _ _ (HandleFactory_create_spec _ _)).
  unfold handle_world at 1. cbn [World.handle_views World.views flat_map app first].
  unfold ret at 1. unfold bind at 1.
  rewrite (bind_ok _ _ _ _ _ (create_door_T_handle_supported f _ Hs)).
  rewrite length_snoc, <- app_assoc. reflexivity.
Qed.

Lemma DoorFactory_create_unsupported (f : DoorFactory.t) (h : Heap) :
  door_supported (DoorFactory.handle_direction f) = false ->
  DoorFactory.create f h = (h, Raise NotImplementedError).
Proof.
  intro Hs. unfold DoorFactory.create, DoorFactory._create.
  apply bind_raise, create_door_event_unsupported, Hs.
Qed.

Lemma door_views_merge_world (w o : World.t) (c : Connection) :
  World.door_views (World.merge_world w o c) = World.door_views w ++ World.door_views o.
Proof. unfold World.door_views. cbn [World.merge_world World.views]. apply flat_map_app. Qed.

Lemma door_views_add_degree_of_freedom (w : World.t) d :
  World.door_views (World.add_degree_of_freedom w d) = World.door_views w.
Proof. reflexivity. Qed.

Lemma door_dof_spec (f : DoorFactory.t) :
  (let lower_limits := DerivativeMap.set_position DerivativeMap.empty (- np_pi / 2) in
   let upper_limits := DerivativeMap.set_position DerivativeMap.empty 0 in
   if Direction.in_set (DoorFactory.handle_direction f)
        [Direction.NEGATIVE_X; Direction.NEGATIVE_Y]
   then (DerivativeMap.set_position lower_limits 0,
         DerivativeMap.set_position upper_limits (np_pi / 2))
   else (lower_limits, upper_limits))
  = door_limits f.
Proof.
  unfold door_limits.
  destruct (Direction.in_set _ _); reflexivity.
Qed.

Lemma calculate_door_pivot_point_door_world (f : DoorFactory.t) n T h :
  calculate_door_pivot_point (door_world f n) (door_view f n) T (DoorFactory.scale f) h
  = (h, Ok (door_pivot f T)).
Proof.
  unfold calculate_door_pivot_point, door_world, door_view, door_handle_view,
    World.parent_connection.
  cbn [World.connections Door.handle Handle.body find connection_child].
  rewrite Nat.eqb_refl. cbn [origin_expression].
  unfold door_pivot, handle_y, TransformationMatrix.to_position.
  destruct (TransformationMatrix.translation (door_T_handle f)) as [[hx hy] hz].
  destruct (TransformationMatrix.translation T) as [[tx ty] tz].
  reflexivity.
Qed.

Lemma add_door_to_world_supported (f : DoorFactory.t) T (pw : World.t) r h :
  door_supported (DoorFactory.handle_direction f) = true ->
  World.root pw = Some r ->
  add_door_to_world f T pw h =
  (h ++ [DoorFactory.name f; HandleFactory.name (DoorFactory.handle_factory f)],
   Ok (with_door f T pw (Body.id r) (List.length h), first_door pw f (List.length h))).
Proof.
  intros Hs Hr. unfold add_door_to_world.
  rewrite (bind_ok _ _ _ _ _ (DoorFactory_create_supported f h Hs)).
  set (n := List.length h). set (h' := h ++ _).
  unfold door_world at 1.
  cbn [World.door_views World.views flat_map app first]. unfold ret at 1, bind at 1.
  unfold body_of at 1, World.body at 1, door_world at 1, door_view at 1.
  cbn [World.bodies Door.body find Body.id]. rewrite Nat.eqb_refl.
  unfold ret at 1, bind at 1. cbn [Body.name Body.id].
  pose proof (door_dof_spec f) as Hd. cbv zeta in Hd. rewrite Hd.
  unfold with_door, door_connection, door_dof, first_door.
  destruct (door_limits f) as [lo up] eqn:El. cbn [fst snd].
  rewrite (bind_ok _ _ _ _ _ (calculate_door_pivot_point_door_world f n T h')).
  unfold root_of, World.root, World.add_degree_of_freedom. cbn [World.bodies].
  fold (World.root pw). rewrite Hr. unfold ret at 1, bind at 1.
  cbn [Body.id]. rewrite door_views_merge_world.
  unfold World.door_views at 1. cbn [World.views]. fold (World.door_views pw).
  destruct (World.door_views pw) as [|d ds]; reflexivity.
Qed.

Lemma add_door_to_world_no_root (f : DoorFactory.t) T (pw : World.t) h :
  door_supported (DoorFactory.handle_direction f) = true ->
  World.root pw = None ->
  add_door_to_world f T pw h =
  (h ++ [DoorFactory.name f; HandleFactory.name (DoorFactory.handle_factory f)],
   Raise ValueError).
Proof.
  intros Hs Hr. unfold add_door_to_world.
  rewrite (bind_ok _ _ _ _ _ (DoorFactory_create_supported f h Hs)).
  set (n := List.length h). set (h' := h ++ _).
  unfold door_world at 1.
  cbn [World.door_views World.views flat_map app first]. unfold ret at 1, bind at 1.
  unfold body_of at 1, World.body at 1, door_world at 1, door_view at 1.
  cbn [World.bodies Door.body find Body.id]. rewrite Nat.eqb_refl.
  unfold ret at 1, bind at 1. cbn [Body.name Body.id].
  pose proof (door_dof_spec f) as Hd. cbv zeta in Hd. rewrite Hd.
  destruct (door_limits f) as [lo up] eqn:El.
  rewrite (bind_ok _ _ _ _ _ (calculate_door_pivot_point_door_world f n T h')).
  unfold root_of, World.root, World.add_degree_of_freedom. cbn [World.bodies].
  fold (World.root pw). rewrite Hr. reflexivity.
Qed.

Lemma add_door_to_world_unsupported (f : DoorFactory.t) T (pw : World.t) h :
  door_supported (DoorFactory.handle_direction f) = false ->
  add_door_to_world f T pw h = (h, Raise NotImplementedError).
Proof.
  intro Hs. unfold add_door_to_world.
  apply bind_raise, DoorFactory_create_unsupported, Hs.
Qed.

(* ================================================================== *)
(** ** Doors: unsupported directions, pivot and limits *)

Lemma np_sign_pos q : 0 < q -> np_sign q = 1.
Proof.
  unfold np_sign, Qlt. cbn. intro H.
  replace (Z.sgn (Qnum q)) with 1%Z; [reflexivity|].
  symmetry. apply Z.sgn_pos. lia.
Qed.

Lemma np_sign_neg q : q < 0 -> np_sign q = -1.
Proof.
  unfold np_sign, Qlt. cbn. intro H.
  replace (Z.sgn (Qnum q)) with (-1)%Z; [reflexivity|].
  symmetry. apply Z.sgn_neg. lia.
Qed.

Lemma np_sign_zero q : q == 0 -> np_sign q = 0.
Proof.
  unfold np_sign, Qeq. cbn. intro H.
  replace (Z.sgn (Qnum q)) with 0%Z; [reflexivity|].
  symmetry. apply Z.sgn_null_iff. lia.
Qed.

(** C5. For every scale and handle factory, [DoorFactory.create()] with
    handle direction [Z] or [NEGATIVE_Z] raises [NotImplementedError]; it
    raises before any geometry exists: no [Body] has been constructed (the
    allocation log is the one it started with) and no world is returned. *)
Theorem door_z_direction_raises_before_building (f : DoorFactory.t) (h : Heap) :
  DoorFactory.handle_direction f = Direction.Z \/
  DoorFactory.handle_direction f = Direction.NEGATIVE_Z ->
  DoorFactory.create f h = (h, Raise NotImplementedError).
Proof.
  intro Hd. apply DoorFactory_create_unsupported.
  destruct Hd as [-> | ->]; reflexivity.
Qed.

Lemma door_z_direction_raises_before_building_witness :
  let f := DoorFactory.mk (PrefixedName.mk "door" None) (Scale.mk 0.03 1 2)
             (HandleFactory.mk (PrefixedName.mk "handle" None)
                (Scale.mk 0.05 0.1 0.02) 0.01)
             Direction.NEGATIVE_Z in
  (DoorFactory.handle_direction f = Direction.Z \/
   DoorFactory.handle_direction f = Direction.NEGATIVE_Z) /\
  DoorFactory.create f [] = ([], Raise NotImplementedError).
Proof.
  intro f. split.
  - right. reflexivity.
  - apply (door_z_direction_raises_before_building f []). right. reflexivity.
Defined.

(** C9. [calculate_door_pivot_point] returns a transform whose rotation is
    the identity: whatever rotation the caller's door transform carries is
    discarded, only its translation (shifted on y in the parent frame) is
    kept. It raises [ValueError] only when the handle's body has no parent
    connection. Hence [add_door_to_world] mounts a door the same way for any
    two door transforms with the same translation, the revolute joint it adds
    has an identity rotation at its origin (the door is mounted axis-aligned
    with its parent), and [WallFactory.get_door_transforms] only ever yields
    identity rotations. *)
Theorem pivot_discards_rotation
    (door_world : World.t) (door : Door.t) (translation : Point3)
    (rotation : TransformationMatrix.Rotation) (scale : Scale.t) (h : Heap) :
  (match calculate_door_pivot_point door_world door
           (TransformationMatrix.mk translation rotation) scale h with
   | (h', Ok pivot) =>
       h' = h /\
       TransformationMatrix.rotation pivot = TransformationMatrix.identity_rotation /\
       (exists c, World.parent_connection door_world
                    (Handle.body (Door.handle door)) = Some c) /\
       (exists offset,
          TransformationMatrix.translation pivot =
          (fst (fst translation) + 0, snd (fst translation) + offset,
           snd translation + 0)) /\
       forall rotation',
         calculate_door_pivot_point door_world door
           (TransformationMatrix.mk translation rotation') scale h = (h, Ok pivot)
   | (h', Raise e) =>
       h' = h /\ e = ValueError /\
       World.parent_connection door_world (Handle.body (Door.handle door)) = None
   end) /\
  (forall (f : DoorFactory.t) (parent_world : World.t) rotation',
     add_door_to_world f (TransformationMatrix.mk translation rotation) parent_world h =
     add_door_to_world f (TransformationMatrix.mk translation rotation') parent_world h) /\
  (forall (f : DoorFactory.t) (parent_world : World.t),
     match add_door_to_world f (TransformationMatrix.mk translation rotation)
             parent_world h with
     | (_, Ok (parent_world', _)) =>
         exists joint rest,
           World.connections parent_world' =
             World.connections parent_world ++ joint :: rest /\
           is_revolute joint = true /\
           TransformationMatrix.rotation (origin_expression joint) =
             TransformationMatrix.identity_rotation
     | (_, Raise _) => True
     end) /\
  (forall (wall : WallFactory.t) doors door_factory,
     match WallFactory.get_door_transforms wall door_world doors door_factory
             (TransformationMatrix.mk translation rotation) h with
     | (_, Ok T) =>
         TransformationMatrix.rotation T = TransformationMatrix.identity_rotation
     | (_, Raise _) => True
     end).
Proof.
  destruct translation as [[tx ty] tz].
  split; [|split; [|split]].
  - unfold calculate_door_pivot_point.
    destruct (World.parent_connection door_world (Handle.body (Door.handle door)))
      as [c|]; [|cbn; auto].
    unfold TransformationMatrix.to_position. cbn [TransformationMatrix.translation].
    destruct (TransformationMatrix.translation (origin_expression c)) as [[hx hy] hz].
    cbn. repeat split; eauto.
  - reflexivity.
  - intros f parent_world.
    destruct (door_supported (DoorFactory.handle_direction f)) eqn:Hs;
      [|now rewrite (add_door_to_world_unsupported f _ parent_world h Hs)].
    destruct (World.root parent_world) as [r|] eqn:Hr;
      [|now rewrite (add_door_to_world_no_root f _ parent_world h Hs Hr)].
    rewrite (add_door_to_world_supported f _ parent_world r h Hs Hr).
    eexists. eexists. split; [reflexivity|]. split; reflexivity.
  - intros wall doors [df|ddf]; cbn [WallFactory.get_door_transforms].
    + destruct doors as [|d ds]; cbn [first]; [exact I|].
      unfold ret at 1, bind at 1. unfold calculate_door_pivot_point.
      destruct (World.parent_connection door_world (Handle.body (Door.handle d)))
        as [c|]; [|exact I].
      unfold TransformationMatrix.to_position. cbn [TransformationMatrix.translation].
      destruct (TransformationMatrix.translation (origin_expression c)) as [[hx hy] hz].
      reflexivity.
    + reflexivity.
Qed.

(** C3 (amended). For every door with a supported handle direction attached
    by [add_door_to_world] (the routine the dresser, the wall and the double
    door use): the handle's body hangs under the panel at y-translation
    [handle_y]; the pivot's translation is the door transform's translation
    plus [(0, -sign(handle_y) * scale.y / 2, 0)]; the joint is revolute about
    [Z] with multiplier 1 and offset 0; and its position limits are
    [[0, pi/2]] when the handle direction is [NEGATIVE_X] or [NEGATIVE_Y] and
    [[-pi/2, 0]] when it is [X] or [Y]. The limits follow the side of the
    handle whenever the direction is not [NEGATIVE_X] and [scale.y > 0.1]. *)
Theorem door_pivot_and_limits
    (f : DoorFactory.t) (T : TransformationMatrix.t)
    (parent_world : World.t) (parent : Body.t) (h : Heap) :
  door_supported (DoorFactory.handle_direction f) = true ->
  World.root parent_world = Some parent ->
  exists parent_world' door h' pivot dof handle_T,
    add_door_to_world f T parent_world h = (h', Ok (parent_world', door)) /\
    World.connections parent_world' =
      World.connections parent_world ++
      [RevoluteConnection (Body.id parent) (List.length h) pivot 1 0 Vector3_Z dof;
       FixedConnection (List.length h) (S (List.length h)) handle_T] /\
    let '(_, handle_y, _) := TransformationMatrix.translation handle_T in
    let '(tx, ty, tz) := TransformationMatrix.translation T in
    let '(px, py, pz) := TransformationMatrix.translation pivot in
    let sy := Scale.y (DoorFactory.scale f) in
    let limits :=
      (DerivativeMap.position (DegreeOfFreedom.lower_limits dof),
       DerivativeMap.position (DegreeOfFreedom.upper_limits dof)) in
    px == tx /\ pz == tz /\
    (0 < handle_y -> py == ty - sy / 2) /\
    (handle_y < 0 -> py == ty + sy / 2) /\
    (handle_y == 0 -> py == ty) /\
    limits =
      (if Direction.in_set (DoorFactory.handle_direction f)
            [Direction.NEGATIVE_X; Direction.NEGATIVE_Y]
       then (Some 0, Some (np_pi / 2))
       else (Some (- np_pi / 2), Some 0)) /\
    (DoorFactory.handle_direction f <> Direction.NEGATIVE_X -> 0.1 < sy ->
     limits_follow_handle_side handle_y limits).
Proof.
  intros Hs Hr.
  exists (with_door f T parent_world (Body.id parent) (List.length h)),
    (first_door parent_world f (List.length h)),
    (h ++ [DoorFactory.name f; HandleFactory.name (DoorFactory.handle_factory f)]),
    (door_pivot f T), (door_dof f), (door_T_handle f).
  split; [apply (add_door_to_world_supported f T parent_world parent h Hs Hr)|].
  split; [reflexivity|].
  unfold door_pivot, handle_y.
  destruct (TransformationMatrix.translation T) as [[tx ty] tz].
  destruct f as [n [sx sy sz] hf d].
  cbn [DoorFactory.handle_direction DoorFactory.scale Scale.y] in *.
  destruct d; try discriminate Hs;
    cbn [door_T_handle DoorFactory.handle_direction DoorFactory.scale
         TransformationMatrix.translation TransformationMatrix.from_xyz_rpy
         TransformationMatrix.from_point_rotation_matrix Scale.x Scale.y];
    (split; [lra|]); (split; [lra|]).
  - (* X: the handle sits at y = 0.05 *)
    rewrite (np_sign_pos 0.05) by lra.
    split; [|split; [|split; [|split]]]; try (intros; qlra).
    + reflexivity.
    + intros _ _. vm_compute. split; reflexivity.
  - (* Y: the handle sits at y = scale.y - 0.1 *)
    split; [|split; [|split; [|split]]].
    + intro H. rewrite (np_sign_pos _ H). qlra.
    + intro H. rewrite (np_sign_neg _ H). qlra.
    + intro H. rewrite (np_sign_zero _ H). qlra.
    + reflexivity.
    + intros _ H. unfold limits_follow_handle_side.
      cbn [door_dof door_limits DoorFactory.handle_direction Direction.in_set existsb
           Direction.eqb orb fst snd DegreeOfFreedom.lower_limits
           DegreeOfFreedom.upper_limits DerivativeMap.position].
      destruct (Qlt_bool 0 (sy - 0.1)) eqn:E; [split; reflexivity|].
      apply Qlt_bool_false in E. lra.
  - (* NEGATIVE_X: the handle sits at y = 0.05 *)
    rewrite (np_sign_pos 0.05) by lra.
    split; [|split; [|split; [|split]]]; try (intros; qlra).
    + reflexivity.
    + intros H. now contradiction H.
  - (* NEGATIVE_Y: the handle sits at y = -(scale.y - 0.1) *)
    split; [|split; [|split; [|split]]].
    + intro H. rewrite (np_sign_pos _ H). qlra.
    + intro H. rewrite (np_sign_neg _ H). qlra.
    + intro H. rewrite (np_sign_zero _ H). qlra.
    + reflexivity.
    + intros _ H. unfold limits_follow_handle_side.
      cbn [door_dof door_limits DoorFactory.handle_direction Direction.in_set existsb
           Direction.eqb orb fst snd DegreeOfFreedom.lower_limits
           DegreeOfFreedom.upper_limits DerivativeMap.position].
      destruct (Qlt_bool 0 (- (sy - 0.1))) eqn:E; [|split; reflexivity].
      apply Qlt_bool_true in E. lra.
Qed.

Lemma door_pivot_and_limits_witness :
  door_supported (DoorFactory.handle_direction (sample_door Direction.Y)) = true /\
  World.root sample_parent = Some (Body.mk 0 (ContainerFactory.name sample_container)
                                     (ContainerFactory.create_container_event sample_container)
                                     (ContainerFactory.create_container_event sample_container)) /\
  exists parent_world' door h',
    add_door_to_world (sample_door Direction.Y) TransformationMatrix.identity
      sample_parent sample_parent_log = (h', Ok (parent_world', door)).
Proof.
  split; [reflexivity|]. split; [reflexivity|].
  destruct (door_pivot_and_limits (sample_door Direction.Y)
              TransformationMatrix.identity sample_parent _ sample_parent_log
              eq_refl eq_refl)
    as (pw' & door & h' & _ & _ & _ & H & _).
  exists pw', door, h'. exact H.
Defined.

(** C3, as stated, fails: a door with handle direction [NEGATIVE_X] has its
    handle on the positive y side (at y = 0.05), yet its joint gets the limits
    [[0, pi/2]], not [[-pi/2, 0]]. *)
Lemma negative_x_door_limits_ignore_handle_side :
  exists parent_world' door h' joint handle_connection,
    add_door_to_world (sample_door Direction.NEGATIVE_X) TransformationMatrix.identity
      sample_parent sample_parent_log = (h', Ok (parent_world', door)) /\
    World.connections parent_world' = [joint; handle_connection] /\
    is_revolute joint = true /\
    connection_child handle_connection = Handle.body (Door.handle door) /\
    0 < snd (fst (TransformationMatrix.translation (origin_expression handle_connection))) /\
    ~ limits_follow_handle_side
        (snd (fst (TransformationMatrix.translation (origin_expression handle_connection))))
        (position_limits joint).
Proof.
  do 5 eexists.
  split; [vm_compute; reflexivity|].
  split; [reflexivity|].
  split; [reflexivity|].
  split; [reflexivity|].
  split; [vm_compute; reflexivity|].
  vm_compute. intros [H _]. discriminate H.
Qed.

(* ================================================================== *)
(** ** Handles and containers: the carved regions *)





(** A thickness greater than zero does not save the handle when its scale
    absorbs it: in double precision [1.0 - 1e-30 == 1.0] and
    [0.5 - 1e-30 == 0.5], so for the scale [(1, 1, 1)] and the thickness
    [1e-30] the cut-out box covers the outer box just as well. *)
Lemma absorbed_thickness_handle_is_empty :
  0 < HandleFactory.thickness sample_handle_absorbed /\
  Float.sub (Scale.x (HandleFactory.scale sample_handle_absorbed))
    (HandleFactory.thickness sample_handle_absorbed)
    == Scale.x (HandleFactory.scale sample_handle_absorbed) /\
  exists world handle,
    HandleFactory.create sample_handle_absorbed [] =
      ([HandleFactory.name sample_handle_absorbed], Ok world) /\
    World.root world = Some handle /\
    forall p, Product.contains (Body.collision handle) p = false.
Proof.
  split; [vm_compute; reflexivity|]. split; [vm_compute; reflexivity|].
  eexists. eexists. split; [apply HandleFactory_create_spec|].
  split; [reflexivity|]. cbn [Body.collision].
  assert (He : Product.is_empty
                 (HandleFactory.create_handle_event sample_handle_absorbed) = true)
    by (vm_compute; reflexivity).
  intro p. apply ProductFacts.is_empty_contains, He.
Qed.

Lemma forall_var (P : Product.SpatialVariable -> Prop) :
  (forall v, P v) <-> P Product.X /\ P Product.Y /\ P Product.Z.
Proof.
  split; [auto|]. intros (Hx & Hy & Hz) [| |]; assumption.
Qed.

(** The carved container region is the outer box without the extended inner
    box, for every scale, wall thickness and direction. *)
Lemma container_event_contains (f : ContainerFactory.t) (p : Product.Point) :
  Product.contains (ContainerFactory.create_container_event f) p = true <->
  in_outer_box f p /\ ~ in_extended_inner_box f p.
Proof.
  destruct p as [[x y] z]. destruct f as [n [sx sy sz] t d].
  unfold ContainerFactory.create_container_event.
  rewrite ProductFacts.box_difference_contains.
  unfold in_outer_box, in_extended_inner_box. rewrite !forall_var.
  unfold inner_lower, inner_upper, event_from_scale,
    ContainerFactory.extend_inner_event_in_direction, ContainerFactory.inner_scale.
  cbn [ContainerFactory.direction ContainerFactory.scale ContainerFactory.wall_thickness
       Scale.x Scale.y Scale.z extent Product.coord].
  destruct d;
    cbn [axis_of is_positive Product.var_eqb andb negb Product.set Product.box
         Product.on_x Product.on_y Product.on_z];
    match goal with
    | |- context [Product.se_contains (Product.mkSE (Some ?i) (Some ?j) (Some ?k)) _ <> true] =>
        change (Product.mkSE (Some i) (Some j) (Some k)) with (Product.box i j k)
    end;
    rewrite !ProductFacts.box_contains_iff; tauto.
Qed.




(* ================================================================== *)
(** ** Drawers and doors merged into a parent world *)

Lemma DrawerFactory_create_spec (f : DrawerFactory.t) (h : Heap) :
  DrawerFactory.create f h =
  (h ++ [ContainerFactory.name (DrawerFactory.container_factory f);
         HandleFactory.name (DrawerFactory.handle_factory f)],
   Ok (drawer_world f (List.length h))).
Proof.
  unfold DrawerFactory.create, DrawerFactory._create.
  rewrite (bind_ok _ _ _ _ _ (ContainerFactory_create_spec _ _)).
  unfold container_world at 1. cbn [World.container_views World.views flat_map app first].
  unfold ret at 1, bind at 1.
  rewrite (bind_ok _ _ _ _ _ (HandleFactory_create_spec _ _)).
  rewrite length_snoc, <- app_assoc. reflexivity.
Qed.

Lemma root_merge_world (w o : World.t) c r :
  World.root w = Some r -> World.root (World.merge_world w o c) = Some r.
Proof.
  unfold World.root, World.merge_world. cbn [World.bodies].
  destruct (World.bodies w); [discriminate|]. auto.
Qed.

Lemma root_with_door f T pw parent n r :
  World.root pw = Some r -> World.root (with_door f T pw parent n) = Some r.
Proof. intro H. unfold with_door. apply root_merge_world. exact H. Qed.

Lemma length_app2 {A} (l : list A) a b : List.length (l ++ [a; b]) = S (S (List.length l)).
Proof. rewrite length_app. cbn. lia. Qed.

Lemma add_drawers_loop (self : DresserFactory.t) pairs (pw : World.t) r h :
  World.root pw = Some r ->
  for_each pairs
    (fun parent_world '(drawer_factory, transform) =>
       drawer_world <- DrawerFactory.create drawer_factory ;;
       drawer_view <- first (World.drawer_views drawer_world) ;;
       drawer_body <- body_of drawer_world
                        (Container.body (Drawer.container drawer_view)) ;;
       let '(lower_limits, upper_limits) :=
         DresserFactory.create_drawer_upper_lower_limits self drawer_factory in
       let dof := DegreeOfFreedom.mk (connection_name (Body.name drawer_body))
                    lower_limits upper_limits in
       parent_root <- root_of parent_world ;;
       let connection :=
         PrismaticConnection (Body.id parent_root) (Body.id drawer_body) transform
           1 0 Vector3_X dof in
       ret (World.merge_world parent_world drawer_world connection))
    pw h
  = (h ++ drawer_names pairs, Ok (with_drawers pairs pw (Body.id r) (List.length h))).
Proof.
  revert pw h. induction pairs as [|[f T] pairs IH]; intros pw h Hr.
  - cbn. now rewrite app_nil_r.
  - cbn [for_each with_drawers drawer_names flat_map].
    unfold bind at 1.
    rewrite (bind_ok _ _ _ _ _ (DrawerFactory_create_spec f h)).
    unfold drawer_world at 1.
    cbn [World.drawer_views World.views flat_map app first].
    unfold ret at 1, bind at 1.
    unfold body_of at 1, World.body at 1, drawer_world at 1.
    cbn [World.bodies Drawer.container Container.body find Body.id].
    rewrite Nat.eqb_refl. unfold ret at 1, bind at 1.
    cbn [DresserFactory.create_drawer_upper_lower_limits Body.name Body.id].
    unfold root_of at 1. rewrite Hr. unfold ret at 1, bind at 1.
    unfold ret at 1, bind at 1.
    rewrite IH by (apply root_merge_world, Hr).
    rewrite length_app2, <- app_assoc. reflexivity.
Qed.

Lemma connections_with_drawers pairs (pw : World.t) parent n :
  World.connections (with_drawers pairs pw parent n) =
  World.connections pw ++ drawer_connections pairs parent n.
Proof.
  revert pw n. induction pairs as [|[f T] pairs IH]; intros pw n.
  - cbn. now rewrite app_nil_r.
  - cbn [with_drawers drawer_connections]. rewrite IH.
    cbn [World.merge_world World.connections]. now rewrite <- app_assoc.
Qed.

Lemma prismatic_drawer_connections pairs parent n :
  Forall2 (is_drawer_joint parent)
    (filter is_prismatic (drawer_connections pairs parent n)) pairs.
Proof.
  revert n. induction pairs as [|[f T] pairs IH]; intro n; [constructor|].
  cbn [drawer_connections drawer_connection drawer_world World.connections app filter
       is_prismatic].
  constructor; [|apply IH].
  eexists. eexists. eexists. repeat split. lra.
Qed.

Lemma prismatic_door_connections pairs parent n :
  filter is_prismatic (door_connections pairs parent n) = [].
Proof.
  revert n. induction pairs as [|[f T] pairs IH]; intro n; [reflexivity|].
  cbn [door_connections door_connection door_world World.connections app filter
       is_prismatic]. apply IH.
Qed.

Lemma add_doors_loop pairs (pw : World.t) r h :
  doors_supported pairs = true ->
  World.root pw = Some r ->
  for_each pairs
    (fun dresser_world '(door_factory, parent_T_door) =>
       '(dresser_world, _) <-
         add_door_to_world door_factory parent_T_door dresser_world ;;
       ret dresser_world)
    pw h
  = (h ++ door_names pairs, Ok (with_doors pairs pw (Body.id r) (List.length h))).
Proof.
  revert pw h. induction pairs as [|[f T] pairs IH]; intros pw h Hs Hr.
  - cbn. now rewrite app_nil_r.
  - cbn [doors_supported forallb] in Hs. apply andb_true_iff in Hs as [Hf Hs].
    cbn [for_each with_doors door_names flat_map].
    unfold bind at 1.
    rewrite (bind_ok _ _ _ _ _ (add_door_to_world_supported f T pw r h Hf Hr)).
    unfold ret at 1.
    rewrite IH by (exact Hs || apply root_with_door, Hr).
    rewrite length_app2, <- app_assoc. reflexivity.
Qed.

Lemma root_with_doors pairs pw parent n r :
  World.root pw = Some r -> World.root (with_doors pairs pw parent n) = Some r.
Proof.
  revert pw n. induction pairs as [|[f T] pairs IH]; intros pw n Hr; [exact Hr|].
  cbn [with_doors]. apply IH, root_with_door, Hr.
Qed.

Lemma root_with_drawers pairs pw parent n r :
  World.root pw = Some r -> World.root (with_drawers pairs pw parent n) = Some r.
Proof.
  revert pw n. induction pairs as [|[f T] pairs IH]; intros pw n Hr; [exact Hr|].
  cbn [with_drawers]. apply IH, root_merge_world, Hr.
Qed.

Lemma length_door_names pairs : List.length (door_names pairs) = (2 * List.length pairs)%nat.
Proof.
  induction pairs as [|[f T] pairs IH]; [reflexivity|].
  cbn [door_names flat_map List.length app] in *. fold (door_names pairs). lia.
Qed.

Lemma connections_with_doors pairs (pw : World.t) parent n :
  World.connections (with_doors pairs pw parent n) =
  World.connections pw ++ door_connections pairs parent n.
Proof.
  revert pw n. induction pairs as [|[f T] pairs IH]; intros pw n.
  - cbn. now rewrite app_nil_r.
  - cbn [with_doors door_connections]. rewrite IH.
    cbn [with_door World.merge_world World.add_degree_of_freedom World.connections].
    now rewrite <- app_assoc.
Qed.

(** The body [ContainerFactory.create] puts at the root. *)
Lemma root_container_world f n :
  World.root (container_world f n) =
  Some (Body.mk n (ContainerFactory.name f)
          (ContainerFactory.create_container_event f)
          (ContainerFactory.create_container_event f)).
Proof. reflexivity. Qed.

Lemma make_dresser_world_spec (self : DresserFactory.t) (h : Heap) :
  doors_supported (combine (DresserFactory.door_factories self)
                           (DresserFactory.door_transforms self)) = true ->
  DresserFactory.make_dresser_world self h =
  (h ++ dresser_names self, Ok (dresser_world self (List.length h))).
Proof.
  intro Hs. unfold DresserFactory.make_dresser_world.
  rewrite (bind_ok _ _ _ _ _ (ContainerFactory_create_spec _ _)).
  unfold container_world at 1. cbn [World.container_views World.views flat_map app first].
  unfold ret at 1, bind at 1.
  rewrite (bind_ok _ _ _ _ _
             (add_doors_loop _ _ _ _ Hs (root_container_world _ _))).
  unfold DresserFactory.add_drawers_to_world.
  rewrite (bind_ok _ _ _ _ _
             (add_drawers_loop self _ _ _ _
                (root_with_doors _ _ _ _ _ (root_container_world _ _)))).
  unfold ret, dresser_world, dresser_names. cbn [Body.id].
  rewrite !length_app, length_door_names. cbn [List.length].
  rewrite <- !app_assoc. cbn [app].
  replace (List.length h + 1 + 2 * _)%nat
    with (S (List.length h) + 2 * List.length
            (combine (DresserFactory.door_factories self)
                     (DresserFactory.door_transforms self)))%nat by lia.
  replace (List.length h + 1)%nat with (S (List.length h)) by lia.
  reflexivity.
Qed.

Lemma root_dresser_world (self : DresserFactory.t) n :
  World.root (dresser_world self n) =
  Some (Body.mk n (ContainerFactory.name (DresserFactory.container_factory self))
          (ContainerFactory.create_container_event (DresserFactory.container_factory self))
          (ContainerFactory.create_container_event (DresserFactory.container_factory self))).
Proof.
  unfold dresser_world, World.set_name, World.add_view, World.root.
  cbn [World.bodies].
  apply (root_with_drawers _ _ _ _ _
           (root_with_doors _ _ _ _ _ (root_container_world _ n))).
Qed.

(* ================================================================== *)
(** ** The dresser interior *)

Section DresserInterior.
Context `{K : Kinematics}.

Lemma subtract_bodies_spec (self : DresserFactory.t) (w : World.t) r E h :
  World.root w = Some r ->
  DresserFactory.subtract_bodies_from_container_footprint self w E h =
  (h, Ok (carved_footprint w (Body.id r) E)).
Proof.
  intro Hr. unfold DresserFactory.subtract_bodies_from_container_footprint.
  unfold root_of. rewrite Hr. unfold ret at 1, bind at 1.
  apply for_each_pure. intros s b h0.
  destruct (Nat.eqb (Body.id b) (Body.id r)); reflexivity.
Qed.

Lemma fold_difference_contains (w : World.t) root bodies F p :
  Product.contains
    (fold_left
       (fun footprint body =>
          if Nat.eqb (Body.id body) root then footprint
          else Product.difference footprint
                 (Product.marginal Product.yz
                    (as_bounding_box_collection_at_origin w root (Body.id body))))
       bodies F) p
  = Product.contains F p &&
    forallb
      (fun body =>
         Nat.eqb (Body.id body) root ||
         negb (Product.contains
                 (Product.marginal Product.yz
                    (as_bounding_box_collection_at_origin w root (Body.id body))) p))
      bodies.
Proof.
  revert F. induction bodies as [|b bodies IH]; intro F; cbn [fold_left forallb].
  - now rewrite andb_true_r.
  - rewrite IH. destruct (Nat.eqb (Body.id b) root); cbn [orb].
    + reflexivity.
    + rewrite ProductFacts.difference_contains. now rewrite andb_assoc.
Qed.

Lemma fill_container_body_contains (self : DresserFactory.t) F E x y z :
  Product.contains (DresserFactory.fill_container_body self F E) (x, y, z) =
  Product.contains E (x, y, z) ||
  (Product.contains F (x, y, z) &&
   Product.var_contains (Product.get (Product.bounding_box E) Product.X) x).
Proof.
  unfold DresserFactory.fill_container_body.
  rewrite ProductFacts.union_contains, ProductFacts.intersection_contains,
    !ProductFacts.fill_missing_variables_contains.
  unfold Product.as_composite_set, Product.contains at 3, Product.se_contains.
  cbn [existsb Product.on_x Product.on_y Product.on_z Product.var_contains Product.coord].
  now rewrite !andb_true_r, orb_false_r.
Qed.

Lemma make_interior_spec (self : DresserFactory.t) (w : World.t) r h :
  World.root w = Some r ->
  DresserFactory.make_interior self w h =
  (h, Ok (World.set_shapes w (Body.id r)
            (DresserFactory.fill_container_body self
               (carved_footprint w (Body.id r)
                  (as_bounding_box_collection_at_origin w (Body.id r) (Body.id r)))
               (as_bounding_box_collection_at_origin w (Body.id r) (Body.id r))))).
Proof.
  intro Hr. unfold DresserFactory.make_interior.
  unfold root_of. rewrite Hr. unfold ret at 1, bind at 1.
  rewrite (bind_ok _ _ _ _ _ (subtract_bodies_spec self w r _ h Hr)).
  reflexivity.
Qed.

(** The region [make_interior] computes is the one the specification
    describes. *)
Lemma interior_region_contains (self : DresserFactory.t) (w : World.t) root p :
  let E := as_bounding_box_collection_at_origin w root root in
  Product.contains
    (DresserFactory.fill_container_body self (carved_footprint w root E) E) p = true <->
  dresser_region_spec E
    (map (fun b => as_bounding_box_collection_at_origin w root (Body.id b))
         (other_bodies w root)) p.
Proof.
  intro E. destruct p as [[x y] z]. unfold dresser_region_spec.
  rewrite fill_container_body_contains, orb_true_iff, andb_true_iff.
  unfold carved_footprint. rewrite fold_difference_contains, andb_true_iff.
  rewrite ProductFacts.marginal_yz_contains, forallb_forall, <- and_assoc.
  apply or_iff_compat_l. apply and_iff_compat_r. apply and_iff_compat_l.
  unfold other_bodies. split.
  - intros Hall B HB. apply in_map_iff in HB as [b [<- Hb]].
    apply filter_In in Hb as [Hb Hne]. apply negb_true_iff in Hne.
    specialize (Hall b Hb). rewrite Hne in Hall. cbn [orb] in Hall.
    apply negb_true_iff in Hall. intro Hex.
    apply (ProductFacts.marginal_yz_contains _ x) in Hex. congruence.
  - intros Hall b Hb. destruct (Nat.eqb (Body.id b) root) eqn:Hid; [reflexivity|].
    cbn [orb]. apply negb_true_iff, not_true_iff_false.
    intro Hc. apply ProductFacts.marginal_yz_contains in Hc.
    apply (Hall (as_bounding_box_collection_at_origin w root (Body.id b))); [|exact Hc].
    apply in_map_iff. exists b. split; [reflexivity|].
    apply filter_In. split; [exact Hb|]. now rewrite Hid.
Qed.

End DresserInterior.

Lemma bodies_with_doors pairs (pw : World.t) parent n :
  World.bodies (with_doors pairs pw parent n) = World.bodies pw ++ door_bodies pairs n.
Proof.
  revert pw n. induction pairs as [|[f T] pairs IH]; intros pw n.
  - cbn. now rewrite app_nil_r.
  - cbn [with_doors door_bodies]. rewrite IH.
    cbn [with_door World.merge_world World.add_degree_of_freedom World.bodies].
    now rewrite <- app_assoc.
Qed.

Lemma bodies_with_drawers pairs (pw : World.t) parent n :
  World.bodies (with_drawers pairs pw parent n) = World.bodies pw ++ drawer_bodies pairs n.
Proof.
  revert pw n. induction pairs as [|[f T] pairs IH]; intros pw n.
  - cbn. now rewrite app_nil_r.
  - cbn [with_drawers drawer_bodies]. rewrite IH.
    cbn [World.merge_world World.bodies]. now rewrite <- app_assoc.
Qed.

(** Bodies are numbered as they are constructed: those of the doors and
    drawers come after the body of the container. *)
Lemma door_bodies_ids pairs n :
  Forall (fun b => (n <= Body.id b)%nat) (door_bodies pairs n).
Proof.
  revert n. induction pairs as [|[f T] pairs IH]; intro n; [constructor|].
  cbn [door_bodies door_world World.bodies app].
  constructor; [cbn; lia|]. constructor; [cbn; lia|].
  eapply Forall_impl; [|apply IH]. cbn. intros b Hb. lia.
Qed.

Lemma drawer_bodies_ids pairs n :
  Forall (fun b => (n <= Body.id b)%nat) (drawer_bodies pairs n).
Proof.
  revert n. induction pairs as [|[f T] pairs IH]; intro n; [constructor|].
  cbn [drawer_bodies drawer_world World.bodies app].
  constructor; [cbn; lia|]. constructor; [cbn; lia|].
  eapply Forall_impl; [|apply IH]. cbn. intros b Hb. lia.
Qed.

Lemma filter_all {A} (p : A -> bool) (l : list A) :
  Forall (fun a => p a = true) l -> filter p l = l.
Proof.
  induction 1 as [|a l Ha _ IH]; [reflexivity|]. cbn. now rewrite Ha, IH.
Qed.

(** In the assembled dresser every body but the first is another body than
    the root. *)
Lemma other_bodies_dresser_world (self : DresserFactory.t) n :
  other_bodies (dresser_world self n) n = tl (World.bodies (dresser_world self n)).
Proof.
  unfold other_bodies, dresser_world, World.set_name, World.add_view.
  cbn [World.bodies].
  rewrite bodies_with_drawers, bodies_with_doors.
  cbn [container_world World.bodies app filter Body.id tl].
  rewrite Nat.eqb_refl. cbn [negb].
  apply filter_all, Forall_app. split.
  - eapply Forall_impl; [|apply door_bodies_ids]. cbn. intros b Hb.
    apply negb_true_iff, Nat.eqb_neq. lia.
  - eapply Forall_impl; [|apply drawer_bodies_ids]. cbn. intros b Hb.
    apply negb_true_iff, Nat.eqb_neq. lia.
Qed.

Lemma root_set_shapes (w : World.t) r shapes :
  World.root w = Some r ->
  World.root (World.set_shapes w (Body.id r) shapes) = Some (Body.set_shapes r shapes).
Proof.
  unfold World.root, World.set_shapes. cbn [World.bodies].
  destruct (World.bodies w) as [|b bs]; [discriminate|].
  cbn [hd_error map]. intros [= ->]. now rewrite Nat.eqb_refl.
Qed.

(** C1 (amended). For every [DresserFactory] whose drawer-factory and
    drawer-transform lists have equal length, whose paired doors all have a
    supported handle direction and in whose assembled world the region of
    every body (the dresser body included), read in the dresser's frame, has
    at least one point, [create()] returns the assembled world with
    the region of the root (dresser) body replaced by [E] united with
    ([F] minus the union of the [F_b], filled on the depth axis x and
    intersected with [S]): [E] is the dresser body's region before the pass
    (the container event, read in the body's own frame), [F] its marginal on
    the y-z plane, [F_b] the y-z marginal of the bounding-box region of each
    other body of the tree in the dresser's frame (these are all the bodies
    after the root), [S] the slab over the x-interval of the bounding box of
    [E]. *)
Theorem dresser_interior_region `{K : Kinematics} (self : DresserFactory.t) (h : Heap) :
  List.length (DresserFactory.drawers_factories self) =
    List.length (DresserFactory.drawer_transforms self) ->
  doors_supported (combine (DresserFactory.door_factories self)
                           (DresserFactory.door_transforms self)) = true ->
  (forall assembled h' dresser_body,
     DresserFactory.make_dresser_world self h = (h', Ok assembled) ->
     World.root assembled = Some dresser_body ->
     regions_have_points assembled (Body.id dresser_body)) ->
  exists assembled dresser_body final final_body h',
    DresserFactory.make_dresser_world self h = (h', Ok assembled) /\
    World.root assembled = Some dresser_body /\
    Body.collision dresser_body =
      ContainerFactory.create_container_event (DresserFactory.container_factory self) /\
    DresserFactory.create self h = (h', Ok final) /\
    World.root final = Some final_body /\
    Body.id final_body = Body.id dresser_body /\
    let root := Body.id dresser_body in
    let E := as_bounding_box_collection_at_origin assembled root root in
    let Bs := map (fun b => as_bounding_box_collection_at_origin assembled root (Body.id b))
                  (other_bodies assembled root) in
    other_bodies assembled root = tl (World.bodies assembled) /\
    forall p, Product.contains (Body.collision final_body) p = true <->
              dresser_region_spec E Bs p.
Proof.
  intros Hlen Hs _.
  pose proof (make_dresser_world_spec self h Hs) as Hm.
  pose proof (root_dresser_world self (List.length h)) as Hr.
  set (w := dresser_world self (List.length h)) in *.
  set (r := Body.mk _ _ _ _) in Hr.
  eexists w, r, _, _, _.
  split; [exact Hm|]. split; [exact Hr|]. split; [reflexivity|].
  split.
  { unfold DresserFactory.create, DresserFactory._create.
    apply Nat.eqb_eq in Hlen. rewrite Hlen. cbn [assert_].
    unfold ret at 1, bind at 1.
    rewrite (bind_ok _ _ _ _ _ Hm). apply (make_interior_spec self w r _ Hr). }
  split; [apply root_set_shapes, Hr|].
  split; [reflexivity|].
  cbn zeta. split; [apply other_bodies_dresser_world|].
  intro p. cbn [Body.set_shapes Body.collision].
  apply (interior_region_contains self w (Body.id r) p).
Qed.

Lemma dresser_interior_region_witness :
  List.length (DresserFactory.drawers_factories (sample_dresser Direction.Y)) =
    List.length (DresserFactory.drawer_transforms (sample_dresser Direction.Y)) /\
  doors_supported (combine (DresserFactory.door_factories (sample_dresser Direction.Y))
                           (DresserFactory.door_transforms (sample_dresser Direction.Y)))
    = true /\
  (forall assembled h' dresser_body,
     DresserFactory.make_dresser_world (sample_dresser Direction.Y) [] =
       (h', Ok assembled) ->
     World.root assembled = Some dresser_body ->
     @regions_have_points coincident_frames assembled (Body.id dresser_body)) /\
  exists final h',
    @DresserFactory.create coincident_frames (sample_dresser Direction.Y) [] =
      (h', Ok final).
Proof.
  assert (Hp : forall assembled h' dresser_body,
             DresserFactory.make_dresser_world (sample_dresser Direction.Y) [] =
               (h', Ok assembled) ->
             World.root assembled = Some dresser_body ->
             @regions_have_points coincident_frames assembled (Body.id dresser_body)).
  { intros w h' r Hm Hr.
    rewrite (make_dresser_world_spec (sample_dresser Direction.Y) [] eq_refl) in Hm.
    injection Hm as _ <-. rewrite root_dresser_world in Hr. injection Hr as <-.
    unfold regions_have_points. apply Forall_forall.
    repeat constructor; vm_compute; reflexivity. }
  split; [reflexivity|]. split; [reflexivity|]. split; [exact Hp|].
  destruct (@dresser_interior_region coincident_frames (sample_dresser Direction.Y) []
              eq_refl eq_refl Hp)
    as (_ & _ & final & _ & h' & _ & _ & _ & H & _).
  exists final, h'. exact H.
Defined.

(** C1, as stated for every dresser with matching drawer lists, fails: with a
    paired door whose handle direction is [Z], [create()] raises
    [NotImplementedError] and returns no world. *)
Lemma dresser_with_z_door_returns_no_world :
  List.length (DresserFactory.drawers_factories (sample_dresser Direction.Z)) =
    List.length (DresserFactory.drawer_transforms (sample_dresser Direction.Z)) /\
  @DresserFactory.create coincident_frames (sample_dresser Direction.Z) [] =
    ([ContainerFactory.name sample_container], Raise NotImplementedError).
Proof.
  split; reflexivity.
Qed.

(* ================================================================== *)
(** ** Double doors *)

Lemma create_door_factories_spec (self : DoubleDoorFactory.t) :
  exists d0 d1,
    DoubleDoorFactory.create_door_factories self = [d0; d1] /\
    DoorFactory.handle_direction d0 = Direction.Y /\
    DoorFactory.handle_direction d1 = Direction.NEGATIVE_Y /\
    DoorFactory.scale d0 = DoubleDoorFactory.one_door_scale self /\
    DoorFactory.scale d1 = DoubleDoorFactory.one_door_scale self.
Proof. eexists. eexists. repeat split. Qed.

Lemma DoubleDoorFactory_create_spec (self : DoubleDoorFactory.t) (h : Heap) d0 d1 :
  DoubleDoorFactory.create_door_factories self = [d0; d1] ->
  DoorFactory.handle_direction d0 = Direction.Y ->
  DoorFactory.handle_direction d1 = Direction.NEGATIVE_Y ->
  DoubleDoorFactory.create self h =
  (h ++ [DoubleDoorFactory.name self;
         DoorFactory.name d0; HandleFactory.name (DoorFactory.handle_factory d0);
         DoorFactory.name d1; HandleFactory.name (DoorFactory.handle_factory d1)],
   Ok (World.set_name
         (World.add_view (double_door_assembly self d0 d1 (List.length h))
            (DoubleDoorView
               (DoubleDoor.mk (List.length h)
                  (door_view d0 (S (List.length h)))
                  (door_view d0 (S (List.length h))))))
         (PrefixedName.name (DoubleDoorFactory.name self)))).
Proof.
  intros Hf H0 H1.
  unfold DoubleDoorFactory.create, DoubleDoorFactory._create.
  rewrite Hf. unfold Body_new at 1, bind at 1.
  cbn [List.length Nat.eqb assert_]. unfold ret at 1, bind at 1.
  unfold DoubleDoorFactory.add_doors_to_world. cbn [for_each].
  set (n := List.length h).
  set (w0 := World.add_kinematic_structure_entity World.empty _).
  assert (Hs0 : door_supported (DoorFactory.handle_direction d0) = true)
    by now rewrite H0.
  assert (Hs1 : door_supported (DoorFactory.handle_direction d1) = true)
    by now rewrite H1.
  assert (Hr0 : World.root w0 = Some (double_door_body self n)) by reflexivity.
  rewrite H0. cbn [Direction.eqb].
  do 4 (unfold bind at 1).
  rewrite (add_door_to_world_supported d0 _ w0 _ _ Hs0 Hr0).
  unfold ret at 1. cbv beta iota.
  unfold bind at 1.
  rewrite (bind_ok _ _ _ _ _
             (add_door_to_world_supported d1 _ _ _ _ Hs1
                (root_with_door d0 _ w0 _ _ _ Hr0))).
  rewrite H1. cbn [Direction.eqb]. unfold ret. cbv beta iota.
  cbn [double_door_body Body.id].
  unfold double_door_assembly, double_door_T_door. rewrite H0, H1. cbn [Direction.eqb].
  rewrite !length_app2, !length_snoc, <- !app_assoc. cbn [app]. fold n.
  reflexivity.
Qed.

(** C2 (amended). For every double-door scale and handle factory,
    [DoubleDoorFactory.create()] builds exactly two door factories, the first
    with handle direction +Y and the second with -Y, each of width
    [scale.y / 2], so that their widths add up to the declared [scale.y]; the
    returned world holds exactly two doors, both hung under the double-door
    body by a revolute connection, and one [DoubleDoor] view whose
    [right_door] is the door built with handle direction +Y. *)
Theorem double_door_has_two_half_width_doors (self : DoubleDoorFactory.t) (h : Heap) :
  exists d0 d1 world double_door h',
    DoubleDoorFactory.create_door_factories self = [d0; d1] /\
    DoorFactory.handle_direction d0 = Direction.Y /\
    DoorFactory.handle_direction d1 = Direction.NEGATIVE_Y /\
    Scale.y (DoorFactory.scale d0) == Scale.y (DoubleDoorFactory.scale self) / 2 /\
    Scale.y (DoorFactory.scale d1) == Scale.y (DoubleDoorFactory.scale self) / 2 /\
    Scale.y (DoorFactory.scale d0) + Scale.y (DoorFactory.scale d1)
      == Scale.y (DoubleDoorFactory.scale self) /\
    DoubleDoorFactory.create self h = (h', Ok world) /\
    World.bodies world =
      double_door_body self (List.length h) ::
      World.bodies (door_world d0 (S (List.length h))) ++
      World.bodies (door_world d1 (S (S (S (List.length h))))) /\
    World.door_views world =
      [door_view d0 (S (List.length h)); door_view d1 (S (S (S (List.length h))))] /\
    filter is_revolute (World.connections world) =
      [door_connection d0 (double_door_T_door self d0)
         (List.length h) (S (List.length h));
       door_connection d1 (double_door_T_door self d1)
         (List.length h) (S (S (S (List.length h))))] /\
    World.double_door_views world = [double_door] /\
    DoubleDoor.right_door double_door = door_view d0 (S (List.length h)).
Proof.
  destruct (create_door_factories_spec self) as (d0 & d1 & Hf & H0 & H1 & Hs0 & Hs1).
  exists d0, d1. eexists. eexists. eexists.
  split; [exact Hf|]. split; [exact H0|]. split; [exact H1|].
  rewrite Hs0, Hs1. cbn [DoubleDoorFactory.one_door_scale Scale.y].
  split; [reflexivity|]. split; [reflexivity|]. split; [qlra|].
  split; [apply (DoubleDoorFactory_create_spec self h d0 d1 Hf H0 H1)|].
  repeat split.
Qed.

(** On the way [add_door_to_world] hands back the first door registered in
    the parent world, so the view bound as [left_door] is that same first
    door. *)
Lemma double_door_left_door_is_first_door (self : DoubleDoorFactory.t) (h : Heap) :
  exists d0 d1 world double_door h',
    DoubleDoorFactory.create_door_factories self = [d0; d1] /\
    DoubleDoorFactory.create self h = (h', Ok world) /\
    World.double_door_views world = [double_door] /\
    DoubleDoor.left_door double_door = door_view d0 (S (List.length h)).
Proof.
  destruct (create_door_factories_spec self) as (d0 & d1 & Hf & H0 & H1 & _).
  exists d0, d1. eexists. eexists. eexists.
  split; [exact Hf|].
  split; [apply (DoubleDoorFactory_create_spec self h d0 d1 Hf H0 H1)|].
  split; reflexivity.
Qed.

(** C2, as stated, fails: the door bound as [right_door] is the one built
    with handle direction +Y, not -Y. *)
Lemma double_door_right_door_has_positive_y_handle :
  exists d0 d1 world double_door h',
    DoubleDoorFactory.create_door_factories sample_double_door = [d0; d1] /\
    DoubleDoorFactory.create sample_double_door [] = (h', Ok world) /\
    World.double_door_views world = [double_door] /\
    DoubleDoor.right_door double_door = door_view d0 1 /\
    In (DoorView (door_view d0 1)) (World.views (door_world d0 1)) /\
    DoorFactory.handle_direction d0 = Direction.Y /\
    DoorFactory.handle_direction d0 <> Direction.NEGATIVE_Y /\
    0 < handle_y d0.
Proof.
  do 5 eexists.
  split; [reflexivity|]. split; [vm_compute; reflexivity|].
  split; [reflexivity|]. split; [reflexivity|].
  split; [right; left; reflexivity|].
  split; [reflexivity|]. split; [discriminate|]. reflexivity.
Qed.

(* ================================================================== *)
(** ** Walls *)

Lemma build_temp_world_spec (self : WallFactory.t) (door_world : World.t) T r h :
  World.root door_world = Some r ->
  WallFactory.build_temp_world self door_world T h =
  (h ++ [unnamed],
   Ok (World.merge_world
         (World.add_kinematic_structure_entity World.empty
            (Body.mk (List.length h) unnamed [] []))
         door_world
         (FixedConnection (List.length h) (Body.id r) T))).
Proof.
  intro Hr. unfold WallFactory.build_temp_world.
  unfold Body_new at 1, bind at 1.
  unfold root_of at 1. cbn [World.root World.add_kinematic_structure_entity
                             World.bodies World.empty app hd_error].
  unfold ret at 1, bind at 1.
  unfold root_of. rewrite Hr. reflexivity.
Qed.

Lemma root_door_world f n :
  World.root (door_world f n) =
  Some (Body.mk n (DoorFactory.name f) [door_panel f] [door_panel f]).
Proof. reflexivity. Qed.

Lemma remove_doors_from_wall_event_rounds `{K : Kinematics} (self : WallFactory.t)
    (wall_event : Product.Event) :
  WallFactory.remove_doors_from_wall_event self wall_event =
  for_each (combine (WallFactory.door_factories self) (WallFactory.door_transforms self))
    (remove_doors_round self) wall_event.
Proof. reflexivity. Qed.

Lemma add_doors_and_double_doors_rounds (self : WallFactory.t) (wall_world : World.t) :
  WallFactory.add_doors_and_double_doors_to_world self wall_world =
  for_each (combine (WallFactory.door_factories self) (WallFactory.door_transforms self))
    add_entry_round wall_world.
Proof. reflexivity. Qed.

(** A round of [remove_doors_from_wall_event] on a single door whose handle
    direction the wall does not accept: for the Z directions the door is
    never built, for the X directions the door and the temporary world are
    built before the assertion fails. *)
Lemma remove_door_round_fails `{K : Kinematics} (self : WallFactory.t)
    (f : DoorFactory.t) (T : TransformationMatrix.t) (wall_event : Product.Event)
    (h : Heap) :
  wall_door_supported (DoorFactory.handle_direction f) = false ->
  remove_doors_round self wall_event (ADoorFactory f, T) h =
  if door_supported (DoorFactory.handle_direction f)
  then (h ++ [DoorFactory.name f; HandleFactory.name (DoorFactory.handle_factory f);
              unnamed],
        Raise AssertionError)
  else (h, Raise NotImplementedError).
Proof.
  intros Hw. unfold remove_doors_round.
  destruct (door_supported (DoorFactory.handle_direction f)) eqn:Hs.
  - cbn [EntryWayFactory_create].
    rewrite (bind_ok _ _ _ _ _ (DoorFactory_create_supported f h Hs)).
    cbv zeta. unfold door_world at 1 2.
    cbn [World.door_views World.views flat_map app WallFactory.get_door_transforms first].
    unfold bind at 1. unfold ret at 1, bind at 1.
    fold (door_view f (List.length h)). fold (door_handle_view f (List.length h)).
    fold (door_world f (List.length h)).
    rewrite (calculate_door_pivot_point_door_world f (List.length h) T).
    rewrite (bind_ok _ _ _ _ _
               (build_temp_world_spec self _ _ _ _ (root_door_world f _))).
    unfold wall_door_supported in Hw. rewrite Hw. cbn [assert_].
    unfold raise at 1, bind at 1. now rewrite <- app_assoc.
  - cbn [EntryWayFactory_create].
    apply bind_raise, DoorFactory_create_unsupported, Hs.
Qed.

(** A loop whose rounds succeed and keep an invariant succeeds and keeps
    it. *)
Lemma for_each_ok {A S} (I : S -> Prop) (l : list A) (body : S -> A -> M S) :
  (forall s a h, In a l -> I s -> exists h' s', body s a h = (h', Ok s') /\ I s') ->
  forall s h, I s -> exists h' s', for_each l body s h = (h', Ok s') /\ I s'.
Proof.
  induction l as [|a l IH]; intros Hb s h Hs.
  - exists h, s. split; [reflexivity | exact Hs].
  - destruct (Hb s a h (or_introl eq_refl) Hs) as (h1 & s1 & E1 & I1).
    cbn [for_each]. rewrite (bind_ok _ _ _ _ _ E1).
    apply IH; [|exact I1]. intros s0 b h0 Hin. apply Hb. now right.
Qed.

Lemma wall_door_supported_door_supported d :
  wall_door_supported d = true -> door_supported d = true.
Proof. destruct d; (discriminate || reflexivity). Qed.

Lemma DoubleDoorFactory_create_ok (self : DoubleDoorFactory.t) (h : Heap) :
  exists world h',
    DoubleDoorFactory.create self h = (h', Ok world) /\
    World.root world = Some (double_door_body self (List.length h)).
Proof.
  destruct (create_door_factories_spec self) as (d0 & d1 & Hf & H0 & H1 & _).
  eexists. eexists.
  split; [apply (DoubleDoorFactory_create_spec self h d0 d1 Hf H0 H1)|reflexivity].
Qed.

Lemma remove_doors_round_ok `{K : Kinematics} (self : WallFactory.t)
    (entry : EntryWayFactory) (T : TransformationMatrix.t)
    (wall_event : Product.Event) (h : Heap) :
  entries_supported [(entry, T)] = true ->
  exists h' wall_event',
    remove_doors_round self wall_event (entry, T) h = (h', Ok wall_event').
Proof.
  cbn [entries_supported forallb]. rewrite andb_true_r. intro Hs.
  unfold remove_doors_round. destruct entry as [f|f]; cbn [EntryWayFactory_create].
  - rewrite (bind_ok _ _ _ _ _
               (DoorFactory_create_supported f h
                  (wall_door_supported_door_supported _ Hs))).
    cbv zeta. unfold door_world at 1 2.
    cbn [World.door_views World.views flat_map app WallFactory.get_door_transforms first].
    unfold bind at 1. unfold ret at 1, bind at 1.
    fold (door_view f (List.length h)). fold (door_handle_view f (List.length h)).
    fold (door_world f (List.length h)).
    rewrite (calculate_door_pivot_point_door_world f (List.length h) T).
    rewrite (bind_ok _ _ _ _ _
               (build_temp_world_spec self _ _ _ _ (root_door_world f _))).
    unfold wall_door_supported in Hs. rewrite Hs. cbn [assert_].
    unfold ret at 1, bind at 1.
    unfold root_of at 1.
    cbn [World.root World.merge_world World.add_kinematic_structure_entity
         World.empty World.bodies app hd_error].
    unfold ret at 1, bind at 1.
    eexists. eexists. apply for_each_pure.
    intros s a h0. cbv zeta. unfold ret. reflexivity.
  - destruct (DoubleDoorFactory_create_ok f h) as (dw & h1 & Hc & Hr).
    rewrite (bind_ok _ _ _ _ _ Hc). cbv zeta.
    cbn [WallFactory.get_door_transforms].
    unfold TransformationMatrix.to_position.
    destruct (TransformationMatrix.translation T) as [[tx ty] tz].
    unfold ret at 1, bind at 1.
    rewrite (bind_ok _ _ _ _ _ (build_temp_world_spec self _ _ _ _ Hr)).
    unfold ret at 1, bind at 1.
    unfold root_of at 1.
    cbn [World.root World.merge_world World.add_kinematic_structure_entity
         World.empty World.bodies app hd_error].
    unfold ret at 1, bind at 1.
    eexists. eexists. apply for_each_pure.
    intros s a h0. cbv zeta. unfold ret. reflexivity.
Qed.

Lemma add_entry_round_ok (entry : EntryWayFactory) (T : TransformationMatrix.t)
    (wall_world : World.t) (r : Body.t) (h : Heap) :
  entries_supported [(entry, T)] = true ->
  World.root wall_world = Some r ->
  exists h' wall_world',
    add_entry_round wall_world (entry, T) h = (h', Ok wall_world') /\
    World.root wall_world' = Some r.
Proof.
  cbn [entries_supported forallb]. rewrite andb_true_r. intros Hs Hr.
  unfold add_entry_round. destruct entry as [f|f].
  - rewrite (bind_ok _ _ _ _ _
               (add_door_to_world_supported f T wall_world r h
                  (wall_door_supported_door_supported _ Hs) Hr)).
    eexists. eexists. split; [reflexivity|]. apply root_with_door, Hr.
  - destruct (DoubleDoorFactory_create_ok f h) as (dw & h1 & Hc & Hd).
    rewrite (bind_ok _ _ _ _ _ Hc).
    unfold TransformationMatrix.to_position.
    destruct (TransformationMatrix.translation T) as [[tx ty] tz].
    unfold root_of. rewrite Hr, Hd. unfold ret, bind.
    eexists. eexists. split; [reflexivity|]. apply root_merge_world, Hr.
Qed.

Lemma entries_supported_In pairs entry T :
  entries_supported pairs = true -> In (entry, T) pairs ->
  entries_supported [(entry, T)] = true.
Proof.
  unfold entries_supported. rewrite forallb_forall. intros H Hin.
  cbn [forallb]. rewrite andb_true_r. apply (H _ Hin).
Qed.


(** A round of [remove_doors_from_wall_event] raises nothing but the two
    unsupported-configuration errors. *)
Lemma remove_doors_round_errors `{K : Kinematics} (self : WallFactory.t)
    (entry : EntryWayFactory) (T : TransformationMatrix.t)
    (wall_event : Product.Event) (h h' : Heap) (e : Exception) :
  remove_doors_round self wall_event (entry, T) h = (h', Raise e) ->
  e = NotImplementedError \/ e = AssertionError.
Proof.
  intro H.
  destruct (entries_supported [(entry, T)]) eqn:Hs.
  - destruct (remove_doors_round_ok self entry T wall_event h Hs) as (h1 & ev & E).
    congruence.
  - destruct entry as [f|f]; [|discriminate Hs].
    cbn [entries_supported forallb] in Hs. rewrite andb_true_r in Hs.
    rewrite (remove_door_round_fails self f T wall_event h Hs) in H.
    destruct (door_supported _); injection H as _ <-; auto.
Qed.

Lemma WallFactory_create_fails_in_removal `{K : Kinematics} (self : WallFactory.t) h h' e :
  WallFactory.remove_doors_from_wall_event self
    (Product.as_composite_set (WallFactory.create_wall_event self))
    (h ++ [WallFactory.name self]) = (h', Raise e) ->
  WallFactory.create self h = (h', Raise e).
Proof.
  intro H. unfold WallFactory.create, WallFactory._create.
  unfold Body_new at 1, bind at 1.
  apply bind_raise. unfold WallFactory._create_wall_collision.
  apply bind_raise. exact H.
Qed.

(** C6 (amended). For every [WallFactory] in which a single-door child
    ([DoorFactory]) paired with a transform has a handle direction other than
    [Y] or [NEGATIVE_Y], [create()] fails with [NotImplementedError] or
    [AssertionError] and returns no world. When that door
    is the first pair, the error is [NotImplementedError] for the Z
    directions, raised before any body of the door is constructed, and
    [AssertionError] for the X directions, raised after the door, its handle
    and the temporary world's body have been constructed. *)
Theorem wall_rejects_unsupported_single_door `{K : Kinematics}
    (self : WallFactory.t) (f : DoorFactory.t) (T : TransformationMatrix.t) (h : Heap) :
  In (ADoorFactory f, T)
     (combine (WallFactory.door_factories self) (WallFactory.door_transforms self)) ->
  wall_door_supported (DoorFactory.handle_direction f) = false ->
  (exists h' e, WallFactory.create self h = (h', Raise e) /\
                (e = NotImplementedError \/ e = AssertionError)) /\
  (forall factories transforms,
     WallFactory.door_factories self = ADoorFactory f :: factories ->
     WallFactory.door_transforms self = T :: transforms ->
     WallFactory.create self h =
     if door_supported (DoorFactory.handle_direction f)
     then (h ++ [WallFactory.name self; DoorFactory.name f;
                 HandleFactory.name (DoorFactory.handle_factory f); unnamed],
           Raise AssertionError)
     else (h ++ [WallFactory.name self], Raise NotImplementedError)).
Proof.
  intros Hin Hw. split.
  - destruct (for_each_fails
                (fun e => e = NotImplementedError \/ e = AssertionError)
                _ (remove_doors_round self) _ Hin) with
      (s := Product.as_composite_set (WallFactory.create_wall_event self))
      (h := h ++ [WallFactory.name self]) as (h' & e & He & HP).
    + intros s h0. rewrite (remove_door_round_fails self f T s h0 Hw).
      destruct (door_supported _); eauto.
    + intros [entry T'] s h0 h' e _. apply remove_doors_round_errors.
    + exists h', e. split; [|exact HP]. apply WallFactory_create_fails_in_removal.
      rewrite remove_doors_from_wall_event_rounds. exact He.
  - intros factories transforms Hf Ht.
    assert (He : WallFactory.remove_doors_from_wall_event self
                   (Product.as_composite_set (WallFactory.create_wall_event self))
                   (h ++ [WallFactory.name self])
                 = if door_supported (DoorFactory.handle_direction f)
                   then ((h ++ [WallFactory.name self]) ++
                         [DoorFactory.name f;
                          HandleFactory.name (DoorFactory.handle_factory f); unnamed],
                         Raise AssertionError)
                   else (h ++ [WallFactory.name self], Raise NotImplementedError)).
    { rewrite remove_doors_from_wall_event_rounds, Hf, Ht.
      cbn [combine for_each]. unfold bind at 1.
      rewrite (remove_door_round_fails self f T _ _ Hw).
      destruct (door_supported _); reflexivity. }
    destruct (door_supported (DoorFactory.handle_direction f));
      rewrite (WallFactory_create_fails_in_removal self h _ _ He);
      rewrite <- ?app_assoc; reflexivity.
Qed.

Lemma wall_rejects_unsupported_single_door_witness :
  In (ADoorFactory (sample_door Direction.X), TransformationMatrix.identity)
     (combine (WallFactory.door_factories (sample_wall Direction.X))
              (WallFactory.door_transforms (sample_wall Direction.X))) /\
  wall_door_supported (DoorFactory.handle_direction (sample_door Direction.X)) = false /\
  exists h' e,
    @WallFactory.create coincident_frames (sample_wall Direction.X) [] = (h', Raise e) /\
    (e = NotImplementedError \/ e = AssertionError).
Proof.
  assert (Hin : In (ADoorFactory (sample_door Direction.X), TransformationMatrix.identity)
                  (combine (WallFactory.door_factories (sample_wall Direction.X))
                           (WallFactory.door_transforms (sample_wall Direction.X))))
    by (left; reflexivity).
  split; [exact Hin|]. split; [reflexivity|].
  exact (proj1 (@wall_rejects_unsupported_single_door coincident_frames
                  (sample_wall Direction.X) (sample_door Direction.X)
                  TransformationMatrix.identity [] Hin eq_refl)).
Defined.

(** C6, as stated, fails on the "before any geometry for that door is built"
    part: for a door with handle direction [X] the wall's assertion is only
    reached after [door_factory.create()] and [build_temp_world]; when
    [create()] raises, the door's panel and handle bodies (with their regions)
    and the temporary world's body have been constructed. *)
Lemma wall_builds_x_door_before_failing :
    wall_door_supported (DoorFactory.handle_direction (sample_door Direction.X)) = false /\
    @WallFactory.create coincident_frames (sample_wall Direction.X) [] =
      ([WallFactory.name (sample_wall Direction.X);
        DoorFactory.name (sample_door Direction.X);
        HandleFactory.name (DoorFactory.handle_factory (sample_door Direction.X));
        unnamed],
       Raise AssertionError) /\
    DoorFactory.create (sample_door Direction.X)
      [WallFactory.name (sample_wall Direction.X)] =
      ([WallFactory.name (sample_wall Direction.X);
        DoorFactory.name (sample_door Direction.X);
        HandleFactory.name (DoorFactory.handle_factory (sample_door Direction.X))],
       Ok (door_world (sample_door Direction.X) 1)).
Proof.
  split; [reflexivity|]. split; reflexivity.
Qed.

(* ================================================================== *)
(** ** Pairs formed by [zip] *)


Lemma length_combine_paired {A B} (l : list A) (l' : list B) :
  List.length (combine l l') = paired l l'.
Proof. apply length_combine. Qed.






Lemma connections_dresser_world (self : DresserFactory.t) n :
  World.connections (dresser_world self n) =
  door_connections (combine (DresserFactory.door_factories self)
                            (DresserFactory.door_transforms self)) n (S n) ++
  drawer_connections (combine (DresserFactory.drawers_factories self)
                              (DresserFactory.drawer_transforms self)) n
    (S n + 2 * List.length (combine (DresserFactory.door_factories self)
                                    (DresserFactory.door_transforms self))).
Proof.
  unfold dresser_world, World.set_name, World.add_view. cbn [World.connections].
  rewrite connections_with_drawers, connections_with_doors. reflexivity.
Qed.


(* ================================================================== *)
(** ** The drawers of a dresser *)

(** C7. For every drawer attached by [DresserFactory] (a drawer factory
    paired with a transform), the connection [add_drawers_to_world] creates
    for it is prismatic with multiplier 1, offset 0 and axis X, and its degree
    of freedom has the position limits lower = 0 and upper = 0.75 * d, where d
    is the [scale.x] of the drawer's container. These are all the prismatic
    connections the routine adds, and all the prismatic connections of the
    world [create()] returns. *)
Theorem drawer_connections_are_prismatic (self : DresserFactory.t) :
  let pairs := combine (DresserFactory.drawers_factories self)
                       (DresserFactory.drawer_transforms self) in
  (forall (parent_world : World.t) (parent : Body.t) (h : Heap),
     World.root parent_world = Some parent ->
     exists parent_world' h' added,
       DresserFactory.add_drawers_to_world self parent_world h = (h', Ok parent_world') /\
       World.connections parent_world' = World.connections parent_world ++ added /\
       Forall2 (is_drawer_joint (Body.id parent)) (filter is_prismatic added) pairs) /\
  (forall (K : Kinematics) (h : Heap),
     List.length (DresserFactory.drawers_factories self) =
       List.length (DresserFactory.drawer_transforms self) ->
     doors_supported (combine (DresserFactory.door_factories self)
                              (DresserFactory.door_transforms self)) = true ->
     exists world h' dresser_body,
       DresserFactory.create self h = (h', Ok world) /\
       World.root world = Some dresser_body /\
       Forall2 (is_drawer_joint (Body.id dresser_body))
         (filter is_prismatic (World.connections world)) pairs).
Proof.
  intro pairs. split.
  - intros parent_world parent h Hr.
    exists (with_drawers pairs parent_world (Body.id parent) (List.length h)),
      (h ++ drawer_names pairs),
      (drawer_connections pairs (Body.id parent) (List.length h)).
    split; [apply add_drawers_loop, Hr|].
    split; [apply connections_with_drawers|].
    apply prismatic_drawer_connections.
  - intros K h Hlen Hs.
    pose proof (make_dresser_world_spec self h Hs) as Hm.
    pose proof (root_dresser_world self (List.length h)) as Hr.
    eexists. eexists. eexists. split; [|split].
    + unfold DresserFactory.create, DresserFactory._create.
      apply Nat.eqb_eq in Hlen. rewrite Hlen. cbn [assert_].
      unfold ret at 1, bind at 1.
      rewrite (bind_ok _ _ _ _ _ Hm). apply (make_interior_spec self _ _ _ Hr).
    + apply root_set_shapes, Hr.
    + unfold World.set_shapes. cbn [World.connections Body.set_shapes Body.id].
      rewrite connections_dresser_world, filter_app, prismatic_door_connections.
      apply prismatic_drawer_connections.
Qed.

Lemma drawer_connections_are_prismatic_witness :
  World.root sample_parent =
    Some (Body.mk 0 (ContainerFactory.name sample_container)
            (ContainerFactory.create_container_event sample_container)
            (ContainerFactory.create_container_event sample_container)) /\
  List.length (DresserFactory.drawers_factories (sample_dresser Direction.Y)) =
    List.length (DresserFactory.drawer_transforms (sample_dresser Direction.Y)) /\
  doors_supported (combine (DresserFactory.door_factories (sample_dresser Direction.Y))
                           (DresserFactory.door_transforms (sample_dresser Direction.Y)))
    = true /\
  (exists parent_world' h',
     DresserFactory.add_drawers_to_world (sample_dresser Direction.Y)
       sample_parent sample_parent_log = (h', Ok parent_world')) /\
  (exists world h',
     @DresserFactory.create coincident_frames (sample_dresser Direction.Y) [] =
       (h', Ok world)).
Proof.
  split; [reflexivity|]. split; [reflexivity|]. split; [reflexivity|].
  destruct (drawer_connections_are_prismatic (sample_dresser Direction.Y)) as [Ha Hc].
  split.
  - destruct (Ha sample_parent _ sample_parent_log eq_refl) as (pw' & h' & _ & H & _).
    exists pw', h'. exact H.
  - destruct (Hc coincident_frames [] eq_refl eq_refl) as (w & h' & _ & H & _).
    exists w, h'. exact H.
Defined.

(* ================================================================== *)
(** ** Door lists of different lengths *)




(* ================================================================== *)
(** * Further properties of the factories *)

(** ** Containers *)

(** A container with walls has a wall thickness between zero and every
    component of its scale. *)
Lemma container_valid_wall_thickness (f : ContainerFactory.t) :
  container_valid f ->
  forall v,
    0 < ContainerFactory.wall_thickness f /\
    ContainerFactory.wall_thickness f < extent (ContainerFactory.scale f) v.
Proof.
  intros Hv v. destruct (Hv v) as [Hpos Hlt]. unfold inner_extent in *. split.
  - apply Qnot_le_lt. intro H.
    pose proof (FloatFacts.float_sub_ge (extent (ContainerFactory.scale f) v) _ H). lra.
  - apply Qnot_le_lt. intro H.
    pose proof (FloatFacts.float_sub_nonpositive
                  (extent (ContainerFactory.scale f) v) _ H). lra.
Qed.



(** X2. The container carving does not guard its wall thickness. With a wall
    thickness of zero or less the inner box covers the outer box and the
    region has no point; with a wall thicker than the container on an axis
    other than the opening axis the inner box is empty and the region is the
    whole outer box, without a cavity. *)
Theorem container_degenerate_wall_thickness (f : ContainerFactory.t) :
  (ContainerFactory.wall_thickness f <= 0 ->
   forall p, Product.contains (ContainerFactory.create_container_event f) p = false) /\
  (forall v,
     v <> axis_of (ContainerFactory.direction f) ->
     extent (ContainerFactory.scale f) v < ContainerFactory.wall_thickness f ->
     forall p, Product.contains (ContainerFactory.create_container_event f) p = true <->
               in_outer_box f p).
Proof.
  split.
  - intros Ht p. apply not_true_iff_false. rewrite container_event_contains.
    destruct p as [[x y] z]. destruct f as [n [sx sy sz] t dir].
    unfold in_outer_box, in_extended_inner_box, inner_lower, inner_upper, inner_extent.
    rewrite !forall_var.
    cbn [ContainerFactory.direction ContainerFactory.scale
         ContainerFactory.wall_thickness Scale.x Scale.y Scale.z] in *.
    pose proof (FloatFacts.float_sub_ge sx t Ht).
    pose proof (FloatFacts.float_sub_ge sy t Ht).
    pose proof (FloatFacts.float_sub_ge sz t Ht).
    destruct dir;
      cbn [axis_of is_positive Product.var_eqb andb negb Product.coord extent
           Scale.x Scale.y Scale.z];
      intros [([? ?] & [? ?] & [? ?]) Hni]; apply Hni; repeat split; qlra.
  - intros v Hne Hlt p. rewrite container_event_contains.
    split; [tauto|]. intro Ho. split; [exact Ho|].
    apply FloatFacts.float_sub_negative in Hlt.
    destruct p as [[x y] z]. destruct f as [n [sx sy sz] t dir].
    unfold in_extended_inner_box, inner_lower, inner_upper, inner_extent.
    rewrite forall_var.
    cbn [ContainerFactory.direction ContainerFactory.scale
         ContainerFactory.wall_thickness Scale.x Scale.y Scale.z] in *.
    destruct dir, v;
      cbn [axis_of is_positive Product.var_eqb andb negb Product.coord extent
           Scale.x Scale.y Scale.z] in *;
      try (now contradiction Hne);
      intros [[? ?] [[? ?] [? ?]]]; qlra.
Qed.

Lemma container_degenerate_wall_thickness_witness :
  ContainerFactory.wall_thickness sample_container_without_walls <= 0 /\
  Product.Y <> axis_of (ContainerFactory.direction sample_container_thick_walls) /\
  extent (ContainerFactory.scale sample_container_thick_walls) Product.Y
    < ContainerFactory.wall_thickness sample_container_thick_walls /\
  Product.contains
    (ContainerFactory.create_container_event sample_container_without_walls)
    (0, 0, 0) = false /\
  (Product.contains
     (ContainerFactory.create_container_event sample_container_thick_walls)
     (0, 0, 0) = true <->
   in_outer_box sample_container_thick_walls (0, 0, 0)).
Proof.
  assert (H0 : ContainerFactory.wall_thickness sample_container_without_walls <= 0)
    by discriminate.
  assert (H1 : Product.Y <>
               axis_of (ContainerFactory.direction sample_container_thick_walls))
    by discriminate.
  assert (H2 : extent (ContainerFactory.scale sample_container_thick_walls) Product.Y
               < ContainerFactory.wall_thickness sample_container_thick_walls)
    by reflexivity.
  split; [exact H0|]. split; [exact H1|]. split; [exact H2|]. split.
  - exact (proj1 (container_degenerate_wall_thickness sample_container_without_walls)
             H0 (0, 0, 0)).
  - exact (proj2 (container_degenerate_wall_thickness sample_container_thick_walls)
             Product.Y H1 H2 (0, 0, 0)).
Defined.

(** ** Handles *)



(** ** Drawers *)



(** ** Doors *)

(** X5. [add_door_to_world] hands back the first door registered in the
    parent world after the merge: the door it has just added when the parent
    had no door, and otherwise the door the parent already had, not the new
    one. *)
Theorem add_door_to_world_returns_first_door
    (f : DoorFactory.t) (T : TransformationMatrix.t)
    (parent_world : World.t) (parent : Body.t) (h : Heap) :
  door_supported (DoorFactory.handle_direction f) = true ->
  World.root parent_world = Some parent ->
  exists parent_world' door h' new_door,
    add_door_to_world f T parent_world h = (h', Ok (parent_world', door)) /\
    World.door_views parent_world' = World.door_views parent_world ++ [new_door] /\
    Door.name new_door = DoorFactory.name f /\
    Door.body new_door = List.length h /\
    (World.door_views parent_world = [] -> door = new_door) /\
    (forall old others, World.door_views parent_world = old :: others -> door = old).
Proof.
  intros Hs Hr.
  exists (with_door f T parent_world (Body.id parent) (List.length h)),
    (first_door parent_world f (List.length h)).
  eexists. exists (door_view f (List.length h)).
  split; [apply (add_door_to_world_supported f T parent_world parent h Hs Hr)|].
  split.
  { unfold with_door.
    rewrite door_views_merge_world, door_views_add_degree_of_freedom. reflexivity. }
  split; [reflexivity|]. split; [reflexivity|].
  unfold first_door. split.
  - now intros ->.
  - now intros old others ->.
Qed.

Lemma add_door_to_world_returns_first_door_witness :
  door_supported (DoorFactory.handle_direction (sample_door Direction.X)) = true /\
  World.root sample_parent =
    Some (Body.mk 0 (ContainerFactory.name sample_container)
            (ContainerFactory.create_container_event sample_container)
            (ContainerFactory.create_container_event sample_container)) /\
  exists parent_world' door h',
    add_door_to_world (sample_door Direction.X) TransformationMatrix.identity
      sample_parent sample_parent_log = (h', Ok (parent_world', door)).
Proof.
  split; [reflexivity|]. split; [reflexivity|].
  destruct (add_door_to_world_returns_first_door (sample_door Direction.X)
              TransformationMatrix.identity sample_parent _ sample_parent_log
              eq_refl eq_refl)
    as (pw' & door & h' & _ & H & _).
  exists pw', door, h'. exact H.
Defined.

(** The parts [add_door_to_world] adds for a supported door: the panel body
    and the revolute joint under the parent root. *)
Lemma add_door_to_world_parts
    (f : DoorFactory.t) (T : TransformationMatrix.t)
    (parent_world : World.t) (parent : Body.t) (h : Heap) :
  door_supported (DoorFactory.handle_direction f) = true ->
  World.root parent_world = Some parent ->
  exists parent_world' door h',
    add_door_to_world f T parent_world h = (h', Ok (parent_world', door)) /\
    In (door_connection f T (Body.id parent) (List.length h))
       (World.connections parent_world') /\
    In (Body.mk (List.length h) (DoorFactory.name f) [door_panel f] [door_panel f])
       (World.bodies parent_world').
Proof.
  intros Hs Hr. eexists. eexists. eexists.
  split; [apply (add_door_to_world_supported f T parent_world parent h Hs Hr)|].
  unfold with_door.
  cbn [World.merge_world World.connections World.bodies World.add_degree_of_freedom
       door_world].
  split; apply in_or_app; right; left; reflexivity.
Qed.

Lemma door_panel_contains_box (s : Product.SimpleEvent) (p : Product.Point) :
  Product.contains [s] p = Product.se_contains s p.
Proof. cbn [Product.contains existsb]. apply orb_false_r. Qed.

Lemma door_panel_contains (f : DoorFactory.t) (p : Product.Point) :
  Product.contains [door_panel f] p = Product.se_contains (door_panel f) p.
Proof. cbn [Product.contains existsb]. apply orb_false_r. Qed.

(** X6. A door whose handle direction is [Y] or [NEGATIVE_Y] and that is
    wider than 0.1 hangs, closed, exactly in the box of its scale centred on
    the door transform it is added with: the joint [add_door_to_world]
    creates sits half a door width off the transform, on the side away from
    the handle, and the panel reaches one door width from the joint towards
    the handle. *)
Theorem door_panel_centred_on_transform
    (f : DoorFactory.t) (T : TransformationMatrix.t)
    (parent_world : World.t) (parent : Body.t) (h : Heap) :
  wall_door_supported (DoorFactory.handle_direction f) = true ->
  0.1 < Scale.y (DoorFactory.scale f) ->
  World.root parent_world = Some parent ->
  exists parent_world' door h' joint panel,
    add_door_to_world f T parent_world h = (h', Ok (parent_world', door)) /\
    In joint (World.connections parent_world') /\
    In panel (World.bodies parent_world') /\
    connection_parent joint = Body.id parent /\
    connection_child joint = Body.id panel /\
    Body.name panel = DoorFactory.name f /\
    forall p,
      Product.contains (Body.collision panel) p = true <->
      in_box_around (TransformationMatrix.translation T) (DoorFactory.scale f)
        (translate (TransformationMatrix.translation (origin_expression joint)) p).
Proof.
  intros Hd Hy Hr.
  assert (Hs : door_supported (DoorFactory.handle_direction f) = true)
    by (destruct (DoorFactory.handle_direction f); (reflexivity || discriminate)).
  destruct (add_door_to_world_parts f T parent_world parent h Hs Hr)
    as (pw' & door & h' & Ha & Hj & Hp).
  exists pw', door, h'. eexists. eexists.
  split; [exact Ha|]. split; [exact Hj|]. split; [exact Hp|].
  split; [reflexivity|]. split; [reflexivity|]. split; [reflexivity|].
  intros [[x y] z]. cbn [Body.collision origin_expression door_connection].
  rewrite door_panel_contains. unfold in_box_around. rewrite forall_var.
  unfold door_pivot, handle_y, door_T_handle, door_panel.
  destruct T as [[[tx ty] tz] rot]. destruct f as [n [sx sy sz] hf dir].
  cbn [DoorFactory.handle_direction DoorFactory.scale Scale.x Scale.y Scale.z] in *.
  destruct dir; try discriminate Hd;
    cbn [TransformationMatrix.translation TransformationMatrix.from_xyz_rpy
         TransformationMatrix.from_point_rotation_matrix translate
         Product.coord extent Scale.x Scale.y Scale.z].
  - rewrite (np_sign_pos (sy - 0.1)) by qlra.
    rewrite ProductFacts.box_contains_iff. split; intro H; repeat split; qlra.
  - rewrite (np_sign_neg (- (sy - 0.1))) by qlra.
    rewrite ProductFacts.box_contains_iff. split; intro H; repeat split; qlra.
Qed.

Lemma door_panel_centred_on_transform_witness :
  wall_door_supported (DoorFactory.handle_direction (sample_door Direction.Y)) = true /\
  0.1 < Scale.y (DoorFactory.scale (sample_door Direction.Y)) /\
  exists parent_world' door h',
    add_door_to_world (sample_door Direction.Y) TransformationMatrix.identity
      sample_parent sample_parent_log = (h', Ok (parent_world', door)).
Proof.
  split; [reflexivity|]. split; [reflexivity|].
  destruct (door_panel_centred_on_transform (sample_door Direction.Y)
              TransformationMatrix.identity sample_parent _ sample_parent_log
              eq_refl eq_refl eq_refl)
    as (pw' & door & h' & _ & _ & H & _).
  exists pw', door, h'. exact H.
Defined.

(** X7. A door whose handle direction is [X] or [NEGATIVE_X] is not centred
    on the door transform it is added with. Its handle always sits at
    [y = 0.05], so the joint is moved half a door width towards negative y
    while the panel stays centred on the joint in y: the closed panel covers
    the y range [[ty - scale.y, ty]], a full door depth from the transform
    along x towards the handle, and is centred in z only. *)
Theorem x_door_panel_hangs_beside_transform
    (f : DoorFactory.t) (T : TransformationMatrix.t)
    (parent_world : World.t) (parent : Body.t) (h : Heap) :
  Direction.in_set (DoorFactory.handle_direction f)
    [Direction.X; Direction.NEGATIVE_X] = true ->
  World.root parent_world = Some parent ->
  exists parent_world' door h' joint panel,
    add_door_to_world f T parent_world h = (h', Ok (parent_world', door)) /\
    In joint (World.connections parent_world') /\
    In panel (World.bodies parent_world') /\
    connection_parent joint = Body.id parent /\
    connection_child joint = Body.id panel /\
    Body.name panel = DoorFactory.name f /\
    forall p,
      Product.contains (Body.collision panel) p = true <->
      let '(tx, ty, tz) := TransformationMatrix.translation T in
      let s := DoorFactory.scale f in
      let towards_handle :=
        if Direction.eqb (DoorFactory.handle_direction f) Direction.X
        then Scale.x s / 2 else - (Scale.x s / 2) in
      in_box_around (tx + towards_handle, ty - Scale.y s / 2, tz) s
        (translate (TransformationMatrix.translation (origin_expression joint)) p).
Proof.
  intros Hd Hr.
  assert (Hs : door_supported (DoorFactory.handle_direction f) = true)
    by (destruct (DoorFactory.handle_direction f); (reflexivity || discriminate)).
  destruct (add_door_to_world_parts f T parent_world parent h Hs Hr)
    as (pw' & door & h' & Ha & Hj & Hp).
  exists pw', door, h'. eexists. eexists.
  split; [exact Ha|]. split; [exact Hj|]. split; [exact Hp|].
  split; [reflexivity|]. split; [reflexivity|]. split; [reflexivity|].
  intros [[x y] z]. cbn [Body.collision origin_expression door_connection].
  rewrite door_panel_contains.
  unfold door_pivot, handle_y, door_T_handle, door_panel.
  destruct T as [[[tx ty] tz] rot]. destruct f as [n [sx sy sz] hf dir].
  cbn [DoorFactory.handle_direction DoorFactory.scale Scale.x Scale.y Scale.z
       TransformationMatrix.translation] in *.
  cbv zeta. unfold in_box_around. rewrite forall_var.
  destruct dir; try discriminate Hd;
    cbn [TransformationMatrix.translation TransformationMatrix.from_xyz_rpy
         TransformationMatrix.from_point_rotation_matrix translate Direction.eqb
         Product.coord extent Scale.x Scale.y Scale.z];
    rewrite (np_sign_pos 0.05) by reflexivity;
    rewrite ProductFacts.box_contains_iff; split; intro H; repeat split; qlra.
Qed.

Lemma x_door_panel_hangs_beside_transform_witness :
  Direction.in_set (DoorFactory.handle_direction (sample_door Direction.NEGATIVE_X))
    [Direction.X; Direction.NEGATIVE_X] = true /\
  exists parent_world' door h',
    add_door_to_world (sample_door Direction.NEGATIVE_X) TransformationMatrix.identity
      sample_parent sample_parent_log = (h', Ok (parent_world', door)).
Proof.
  split; [reflexivity|].
  destruct (x_door_panel_hangs_beside_transform (sample_door Direction.NEGATIVE_X)
              TransformationMatrix.identity sample_parent _ sample_parent_log
              eq_refl eq_refl)
    as (pw' & door & h' & _ & _ & H & _).
  exists pw', door, h'. exact H.
Defined.

(** X8. A door with handle direction [Y] or [NEGATIVE_Y] that is narrower
    than 0.1 has its handle on the far side of its origin, so the joint is
    moved towards the handle instead of away from it: the closed panel lies a
    whole door width off the door transform, centred on [ty + scale.y] for
    [Y] and on [ty - scale.y] for [NEGATIVE_Y]. *)
Theorem narrow_door_panel_is_off_centre
    (f : DoorFactory.t) (T : TransformationMatrix.t)
    (parent_world : World.t) (parent : Body.t) (h : Heap) :
  wall_door_supported (DoorFactory.handle_direction f) = true ->
  Scale.y (DoorFactory.scale f) < 0.1 ->
  World.root parent_world = Some parent ->
  exists parent_world' door h' joint panel,
    add_door_to_world f T parent_world h = (h', Ok (parent_world', door)) /\
    In joint (World.connections parent_world') /\
    In panel (World.bodies parent_world') /\
    connection_child joint = Body.id panel /\
    Body.name panel = DoorFactory.name f /\
    forall p,
      Product.contains (Body.collision panel) p = true <->
      let '(tx, ty, tz) := TransformationMatrix.translation T in
      let s := DoorFactory.scale f in
      let off :=
        if Direction.eqb (DoorFactory.handle_direction f) Direction.Y
        then Scale.y s else - Scale.y s in
      in_box_around (tx, ty + off, tz) s
        (translate (TransformationMatrix.translation (origin_expression joint)) p).
Proof.
  intros Hd Hy Hr.
  assert (Hs : door_supported (DoorFactory.handle_direction f) = true)
    by (destruct (DoorFactory.handle_direction f); (reflexivity || discriminate)).
  destruct (add_door_to_world_parts f T parent_world parent h Hs Hr)
    as (pw' & door & h' & Ha & Hj & Hp).
  exists pw', door, h'. eexists. eexists.
  split; [exact Ha|]. split; [exact Hj|]. split; [exact Hp|].
  split; [reflexivity|]. split; [reflexivity|].
  intros [[x y] z]. cbn [Body.collision origin_expression door_connection].
  rewrite door_panel_contains.
  unfold door_pivot, handle_y, door_T_handle, door_panel.
  destruct T as [[[tx ty] tz] rot]. destruct f as [n [sx sy sz] hf dir].
  cbn [DoorFactory.handle_direction DoorFactory.scale Scale.x Scale.y Scale.z
       TransformationMatrix.translation] in *.
  cbv zeta. unfold in_box_around. rewrite forall_var.
  destruct dir; try discriminate Hd;
    cbn [TransformationMatrix.translation TransformationMatrix.from_xyz_rpy
         TransformationMatrix.from_point_rotation_matrix translate Direction.eqb
         Product.coord extent Scale.x Scale.y Scale.z].
  - rewrite (np_sign_neg (sy - 0.1)) by qlra.
    rewrite ProductFacts.box_contains_iff. split; intro H; repeat split; qlra.
  - rewrite (np_sign_pos (- (sy - 0.1))) by qlra.
    rewrite ProductFacts.box_contains_iff. split; intro H; repeat split; qlra.
Qed.

Lemma narrow_door_panel_is_off_centre_witness :
  wall_door_supported (DoorFactory.handle_direction sample_hatch) = true /\
  Scale.y (DoorFactory.scale sample_hatch) < 0.1 /\
  exists parent_world' door h',
    add_door_to_world sample_hatch TransformationMatrix.identity
      sample_parent sample_parent_log = (h', Ok (parent_world', door)).
Proof.
  split; [reflexivity|]. split; [reflexivity|].
  destruct (narrow_door_panel_is_off_centre sample_hatch
              TransformationMatrix.identity sample_parent _ sample_parent_log
              eq_refl eq_refl eq_refl)
    as (pw' & door & h' & _ & _ & H & _).
  exists pw', door, h'. exact H.
Defined.

(** X9. [DoorFactory.create()] with a supported handle direction builds
    the panel at the root and the handle, joined by one fixed connection. The
    handle is mounted 0.1 inside the free edge of the panel and 0.05 aside,
    turned by [np.pi / 2] about z for the handle directions [X] and
    [NEGATIVE_X] and not turned for [Y] and [NEGATIVE_Y]. For all four
    directions the mount point is a point of the panel exactly when
    [scale.x >= 0.1], [scale.y >= 0.1] and [scale.z >= 0]: on a door thinner
    than 0.1, as the default door is, the handle is mounted off the panel. *)
Theorem door_handle_mount (f : DoorFactory.t) (h : Heap) :
  door_supported (DoorFactory.handle_direction f) = true ->
  exists world panel handle mount,
    DoorFactory.create f h =
      (h ++ [DoorFactory.name f; HandleFactory.name (DoorFactory.handle_factory f)],
       Ok world) /\
    World.bodies world = [panel; handle] /\
    World.root world = Some panel /\
    World.connections world =
      [FixedConnection (Body.id panel) (Body.id handle) mount] /\
    TransformationMatrix.rotation mount =
      TransformationMatrix.rpy 0 0
        (if Product.var_eqb (axis_of (DoorFactory.handle_direction f)) Product.X
         then np_pi / 2 else 0) /\
    (Product.contains (Body.collision panel)
       (TransformationMatrix.translation mount) = true <->
     0.1 <= Scale.x (DoorFactory.scale f) /\
     0.1 <= Scale.y (DoorFactory.scale f) /\
     0 <= Scale.z (DoorFactory.scale f)).
Proof.
  intro Hs. eexists. eexists. eexists. eexists.
  split; [apply (DoorFactory_create_supported f h Hs)|].
  split; [reflexivity|]. split; [reflexivity|]. split; [reflexivity|].
  cbn [Body.collision]. rewrite door_panel_contains.
  unfold door_T_handle, door_panel.
  destruct f as [n [sx sy sz] hf dir].
  cbn [DoorFactory.handle_direction DoorFactory.scale Scale.x Scale.y Scale.z] in *.
  destruct dir; try discriminate Hs;
    cbn [axis_of Product.var_eqb TransformationMatrix.rotation
         TransformationMatrix.translation TransformationMatrix.from_xyz_rpy];
    (split; [reflexivity|]);
    rewrite ProductFacts.box_contains_iff; split; intro H; repeat split; qlra.
Qed.

Lemma door_handle_mount_witness :
  door_supported (DoorFactory.handle_direction (sample_door Direction.NEGATIVE_X)) = true /\
  exists world h',
    DoorFactory.create (sample_door Direction.NEGATIVE_X) [] = (h', Ok world).
Proof.
  split; [reflexivity|].
  destruct (door_handle_mount (sample_door Direction.NEGATIVE_X) [] eq_refl)
    as (w & _ & _ & _ & H & _).
  eexists. eexists. exact H.
Defined.

(** ** Double doors *)

Lemma append_cancel_l (s a b : string) : (s ++ a)%string = (s ++ b)%string -> a = b.
Proof.
  induction s as [|c s IH]; cbn; [auto|]. intro H. injection H. exact IH.
Qed.

Lemma append_empty_r (s : string) : (s ++ EmptyString)%string = s.
Proof. induction s as [|c s IH]; cbn; [reflexivity|now rewrite IH]. Qed.

Lemma append_suffixes_differ (s a b : string) (prefix : option string) :
  a <> b ->
  PrefixedName.mk (s ++ a) prefix <> PrefixedName.mk (s ++ b) prefix.
Proof.
  intros Hab H. injection H as H. apply Hab. exact (append_cancel_l s a b H).
Qed.

(** X10. [DoubleDoorFactory.create()] never fails: it returns five bodies
    (a root without shape, two panels, two handles) and four connections, the
    two panels hung under the root. For a double door wider than 0.2 the two
    closed panels tile the doorway
    [[0, scale.x] x [-scale.y / 2, scale.y / 2] x [0, scale.z]] of the frame
    of the root body: the panel of door 0 covers the half with [y <= 0], the
    panel of door 1 the half with [y >= 0]. The origin of a double door is
    therefore the middle of its bottom edge at [x = 0], not its centre. *)
Theorem double_door_panels_tile_the_doorway (self : DoubleDoorFactory.t) (h : Heap) :
  exists world h' root joint0 panel0 handle0 joint1 panel1 handle1 mount0 mount1,
    DoubleDoorFactory.create self h = (h', Ok world) /\
    World.bodies world = [root; panel0; handle0; panel1; handle1] /\
    World.connections world = [joint0; mount0; joint1; mount1] /\
    Body.collision root = [] /\
    (connection_parent joint0 = Body.id root /\ connection_child joint0 = Body.id panel0) /\
    (connection_parent joint1 = Body.id root /\ connection_child joint1 = Body.id panel1) /\
    (0.2 < Scale.y (DoubleDoorFactory.scale self) ->
     forall p,
       let s := DoubleDoorFactory.scale self in
       (Product.contains (Body.collision panel0) p = true <->
        let '(x, y, z) :=
          translate (TransformationMatrix.translation (origin_expression joint0)) p in
        (0 <= x /\ x <= Scale.x s) /\ (- Scale.y s / 2 <= y /\ y <= 0) /\
        (0 <= z /\ z <= Scale.z s)) /\
       (Product.contains (Body.collision panel1) p = true <->
        let '(x, y, z) :=
          translate (TransformationMatrix.translation (origin_expression joint1)) p in
        (0 <= x /\ x <= Scale.x s) /\ (0 <= y /\ y <= Scale.y s / 2) /\
        (0 <= z /\ z <= Scale.z s))).
Proof.
  do 11 eexists.
  split; [apply (DoubleDoorFactory_create_spec self h _ _ eq_refl eq_refl eq_refl)|].
  split; [reflexivity|]. split; [reflexivity|]. split; [reflexivity|].
  split; [split; reflexivity|]. split; [split; reflexivity|].
  intros Hy [[x y] z]. cbv zeta.
  cbn [Body.collision origin_expression door_connection].
  rewrite !door_panel_contains.
  unfold door_pivot, handle_y, door_T_handle, door_panel, double_door_T_door,
    DoubleDoorFactory.one_door_scale.
  destruct self as [n [sx sy sz] hf].
  cbn [DoorFactory.handle_direction DoorFactory.scale Scale.x Scale.y Scale.z
       DoubleDoorFactory.scale Direction.eqb
       TransformationMatrix.translation TransformationMatrix.from_xyz_rpy
       TransformationMatrix.from_point_rotation_matrix translate] in *.
  rewrite (np_sign_pos (sy / 2 - 0.1)) by qlra.
  rewrite (np_sign_neg (- (sy / 2 - 0.1))) by qlra.
  rewrite !ProductFacts.box_contains_iff.
  split; split; intro H; repeat split; qlra.
Qed.

Lemma double_door_panels_tile_the_doorway_witness :
  0.2 < Scale.y (DoubleDoorFactory.scale sample_double_door) /\
  exists world h' joint0 panel0,
    DoubleDoorFactory.create sample_double_door [] = (h', Ok world) /\
    In joint0 (World.connections world) /\ In panel0 (World.bodies world) /\
    forall p,
      Product.contains (Body.collision panel0) p = true <->
      let '(x, y, z) :=
        translate (TransformationMatrix.translation (origin_expression joint0)) p in
      (0 <= x /\ x <= Scale.x (DoubleDoorFactory.scale sample_double_door)) /\
      (- Scale.y (DoubleDoorFactory.scale sample_double_door) / 2 <= y /\ y <= 0) /\
      (0 <= z /\ z <= Scale.z (DoubleDoorFactory.scale sample_double_door)).
Proof.
  assert (Hy : 0.2 < Scale.y (DoubleDoorFactory.scale sample_double_door))
    by reflexivity.
  split; [exact Hy|].
  destruct (double_door_panels_tile_the_doorway sample_double_door [])
    as (w & h' & r & j0 & p0 & h0 & j1 & p1 & h1 & m0 & m1 &
        Hc & Hb & Hj & _ & _ & _ & Ht).
  exists w, h', j0, p0. split; [exact Hc|].
  split; [rewrite Hj; left; reflexivity|].
  split; [rewrite Hb; right; left; reflexivity|].
  intro p. exact (proj1 (Ht Hy p)).
Defined.

(** X11. The five bodies of a double door (root, two panels, two handles)
    always carry pairwise distinct names, whatever the name of the double
    door and of the handle factory it was given, and they are five different
    bodies. *)
Theorem double_door_body_names_are_distinct (self : DoubleDoorFactory.t) (h : Heap) :
  exists world h',
    DoubleDoorFactory.create self h = (h', Ok world) /\
    List.length (World.bodies world) = 5%nat /\
    NoDup (map Body.name (World.bodies world)) /\
    NoDup (map Body.id (World.bodies world)).
Proof.
  do 2 eexists.
  split; [apply (DoubleDoorFactory_create_spec self h _ _ eq_refl eq_refl eq_refl)|].
  split; [reflexivity|].
  destruct self as [[s prefix] sc hf].
  cbn. split.
  - rewrite <- (append_empty_r s) at 1.
    repeat (constructor;
            [cbn [In]; intros H;
             repeat (destruct H as [H|H];
                     [revert H; apply append_suffixes_differ; discriminate|]);
             exact H|]).
    constructor.
  - repeat (constructor; [cbn [In]; lia|]). constructor.
Qed.

(** X12. A double door narrower than 0.2 is hinged in the middle: each half
    is narrower than the 0.1 its handle is set in from the edge, the handles
    end up on the far side of the door origins, and both joints are put at
    [y = 0]. The two closed panels still tile the doorway, but they have
    changed sides: the panel of door 0 covers the half with [y >= 0], the
    panel of door 1 the half with [y <= 0]. *)
Theorem narrow_double_door_is_hinged_in_the_middle
    (self : DoubleDoorFactory.t) (h : Heap) :
  Scale.y (DoubleDoorFactory.scale self) < 0.2 ->
  exists world h' root joint0 panel0 handle0 joint1 panel1 handle1 mount0 mount1,
    DoubleDoorFactory.create self h = (h', Ok world) /\
    World.bodies world = [root; panel0; handle0; panel1; handle1] /\
    World.connections world = [joint0; mount0; joint1; mount1] /\
    (connection_parent joint0 = Body.id root /\ connection_child joint0 = Body.id panel0) /\
    (connection_parent joint1 = Body.id root /\ connection_child joint1 = Body.id panel1) /\
    (let '(_, y, _) := TransformationMatrix.translation (origin_expression joint0) in
     y == 0) /\
    (let '(_, y, _) := TransformationMatrix.translation (origin_expression joint1) in
     y == 0) /\
    forall p,
      let s := DoubleDoorFactory.scale self in
      (Product.contains (Body.collision panel0) p = true <->
       let '(x, y, z) :=
         translate (TransformationMatrix.translation (origin_expression joint0)) p in
       (0 <= x /\ x <= Scale.x s) /\ (0 <= y /\ y <= Scale.y s / 2) /\
       (0 <= z /\ z <= Scale.z s)) /\
      (Product.contains (Body.collision panel1) p = true <->
       let '(x, y, z) :=
         translate (TransformationMatrix.translation (origin_expression joint1)) p in
       (0 <= x /\ x <= Scale.x s) /\ (- Scale.y s / 2 <= y /\ y <= 0) /\
       (0 <= z /\ z <= Scale.z s)).
Proof.
  intro Hy.
  do 11 eexists.
  split; [apply (DoubleDoorFactory_create_spec self h _ _ eq_refl eq_refl eq_refl)|].
  split; [reflexivity|]. split; [reflexivity|].
  split; [split; reflexivity|]. split; [split; reflexivity|].
  cbn [Body.collision origin_expression door_connection].
  unfold door_pivot, handle_y, door_T_handle, door_panel, double_door_T_door,
    DoubleDoorFactory.one_door_scale.
  destruct self as [n [sx sy sz] hf].
  cbn [DoorFactory.handle_direction DoorFactory.scale Scale.x Scale.y Scale.z
       DoubleDoorFactory.scale Direction.eqb
       TransformationMatrix.translation TransformationMatrix.from_xyz_rpy
       TransformationMatrix.from_point_rotation_matrix] in *.
  rewrite (np_sign_neg (sy / 2 - 0.1)) by qlra.
  rewrite (np_sign_pos (- (sy / 2 - 0.1))) by qlra.
  split; [qlra|]. split; [qlra|].
  intros [[x y] z]. cbv zeta. cbn [translate].
  rewrite !door_panel_contains_box, !ProductFacts.box_contains_iff.
  split; split; intro H; repeat split; qlra.
Qed.

Lemma narrow_double_door_is_hinged_in_the_middle_witness :
  Scale.y (DoubleDoorFactory.scale sample_narrow_double_door) < 0.2 /\
  exists world h',
    DoubleDoorFactory.create sample_narrow_double_door [] = (h', Ok world).
Proof.
  split; [reflexivity|].
  destruct (narrow_double_door_is_hinged_in_the_middle sample_narrow_double_door []
              eq_refl)
    as (w & h' & _ & _ & _ & _ & _ & _ & _ & _ & _ & H & _).
  exists w, h'. exact H.
Defined.

(** ** Walls *)

(** A round of [remove_doors_from_wall_event] on an accepted entry keeps every
    property of the wall region that cutting a footprint through the wall
    keeps. *)
Lemma remove_doors_round_keeps `{K : Kinematics} (self : WallFactory.t)
    (I : Product.Event -> Prop)
    (entry : EntryWayFactory) (T : TransformationMatrix.t)
    (wall_event : Product.Event) (h : Heap) :
  (forall e d, I e ->
     I (Product.difference e
          (Product.fill_missing_variables [Product.X]
             (Product.marginal Product.yz d)))) ->
  entries_supported [(entry, T)] = true ->
  I wall_event ->
  exists h' wall_event',
    remove_doors_round self wall_event (entry, T) h = (h', Ok wall_event') /\
    I wall_event'.
Proof.
  intro Hcut. cbn [entries_supported forallb]. rewrite andb_true_r. intros Hs HI.
  unfold remove_doors_round. destruct entry as [f|f]; cbn [EntryWayFactory_create].
  - rewrite (bind_ok _ _ _ _ _
               (DoorFactory_create_supported f h
                  (wall_door_supported_door_supported _ Hs))).
    cbv zeta. unfold door_world at 1 2.
    cbn [World.door_views World.views flat_map app WallFactory.get_door_transforms first].
    unfold bind at 1. unfold ret at 1, bind at 1.
    fold (door_view f (List.length h)). fold (door_handle_view f (List.length h)).
    fold (door_world f (List.length h)).
    rewrite (calculate_door_pivot_point_door_world f (List.length h) T).
    rewrite (bind_ok _ _ _ _ _
               (build_temp_world_spec self _ _ _ _ (root_door_world f _))).
    unfold wall_door_supported in Hs. rewrite Hs. cbn [assert_].
    unfold ret at 1, bind at 1.
    unfold root_of at 1.
    cbn [World.root World.merge_world World.add_kinematic_structure_entity
         World.empty World.bodies app hd_error].
    unfold ret at 1, bind at 1.
    apply (for_each_ok I); [|exact HI].
    intros s a h0 _ Hs0. eexists. eexists. split; [reflexivity|]. apply Hcut, Hs0.
  - destruct (DoubleDoorFactory_create_ok f h) as (dw & h1 & Hc & Hr).
    rewrite (bind_ok _ _ _ _ _ Hc). cbv zeta.
    cbn [WallFactory.get_door_transforms].
    unfold TransformationMatrix.to_position.
    destruct (TransformationMatrix.translation T) as [[tx ty] tz].
    unfold ret at 1, bind at 1.
    rewrite (bind_ok _ _ _ _ _ (build_temp_world_spec self _ _ _ _ Hr)).
    unfold ret at 1, bind at 1.
    unfold root_of at 1.
    cbn [World.root World.merge_world World.add_kinematic_structure_entity
         World.empty World.bodies app hd_error].
    unfold ret at 1, bind at 1.
    apply (for_each_ok I); [|exact HI].
    intros s a h0 _ Hs0. eexists. eexists. split; [reflexivity|]. apply Hcut, Hs0.
Qed.

(** A footprint filled along x contains a point or not whatever the x of the
    point. *)
Lemma footprint_ignores_x (d : Product.Event) (x x' y z : Q) :
  Product.contains
    (Product.fill_missing_variables [Product.X] (Product.marginal Product.yz d))
    (x, y, z) =
  Product.contains
    (Product.fill_missing_variables [Product.X] (Product.marginal Product.yz d))
    (x', y, z).
Proof.
  rewrite !ProductFacts.fill_missing_variables_contains.
  destruct (Product.contains (Product.marginal Product.yz d) (x', y, z)) eqn:E.
  - apply (ProductFacts.marginal_yz_contains d x y z).
    exact (proj1 (ProductFacts.marginal_yz_contains d x' y z) E).
  - destruct (Product.contains (Product.marginal Product.yz d) (x, y, z)) eqn:E';
      [|reflexivity].
    apply (proj1 (ProductFacts.marginal_yz_contains d x y z)) in E'.
    apply (proj2 (ProductFacts.marginal_yz_contains d x' y z)) in E'. congruence.
Qed.

(** X13. Whatever the forward kinematics report about the doors, the region
    of the wall body of a wall that is built lies within the wall panel
    [[-x/2, x/2] x [-y/2, y/2] x [0, z]], and every opening goes through the
    whole thickness of the wall: a point of the wall region stays in it when
    moved along x within the panel. A wall without paired entries is the
    whole panel. *)
Theorem wall_openings_go_through `{K : Kinematics} (self : WallFactory.t) (h : Heap) :
  entries_supported (combine (WallFactory.door_factories self)
                             (WallFactory.door_transforms self)) = true ->
  exists world h' wall_body,
    WallFactory.create self h = (h', Ok world) /\
    World.root world = Some wall_body /\
    (forall p, Product.contains (Body.collision wall_body) p = true ->
               in_wall_panel (WallFactory.scale self) p) /\
    (forall x x' y z,
       Product.contains (Body.collision wall_body) (x, y, z) = true ->
       - Scale.x (WallFactory.scale self) / 2 <= x' ->
       x' <= Scale.x (WallFactory.scale self) / 2 ->
       Product.contains (Body.collision wall_body) (x', y, z) = true) /\
    (combine (WallFactory.door_factories self) (WallFactory.door_transforms self) = [] ->
     forall p, in_wall_panel (WallFactory.scale self) p ->
               Product.contains (Body.collision wall_body) p = true).
Proof.
  intro Hs. unfold WallFactory.create, WallFactory._create.
  unfold Body_new at 1, bind at 1.
  unfold WallFactory._create_wall_collision.
  rewrite remove_doors_from_wall_event_rounds.
  set (pairs := combine (WallFactory.door_factories self)
                        (WallFactory.door_transforms self)) in *.
  set (s := WallFactory.scale self).
  set (I := fun ev : Product.Event =>
              (forall p, Product.contains ev p = true -> in_wall_panel s p) /\
              (forall x x' y z,
                 Product.contains ev (x, y, z) = true ->
                 - Scale.x s / 2 <= x' -> x' <= Scale.x s / 2 ->
                 Product.contains ev (x', y, z) = true) /\
              (pairs = [] -> forall p, in_wall_panel s p ->
                                       Product.contains ev p = true)).
  assert (Hbox : forall x y z,
             Product.contains
               (Product.as_composite_set (WallFactory.create_wall_event self))
               (x, y, z) = true <-> in_wall_panel s (x, y, z)).
  { intros x y z. unfold Product.as_composite_set. cbn [Product.contains existsb].
    rewrite orb_false_r. unfold WallFactory.create_wall_event. cbv zeta.
    rewrite ProductFacts.box_contains_iff. reflexivity. }
  destruct (for_each_ok I pairs (remove_doors_round self)) with
    (s := Product.as_composite_set (WallFactory.create_wall_event self))
    (h := h ++ [WallFactory.name self]) as (h1 & ev & He & Hin_panel & Hthrough & Hwhole).
  { intros e [entry T] h0 Hin HI.
    apply (remove_doors_round_keeps self I entry T e h0);
      [|apply (entries_supported_In _ _ _ Hs Hin)|exact HI].
    clear HI. intros e0 d (H1 & H2 & _). split; [|split].
    - intros p. rewrite ProductFacts.difference_contains, andb_true_iff.
      intros [Hp _]. apply H1, Hp.
    - intros x x' y z. rewrite !ProductFacts.difference_contains, !andb_true_iff.
      intros [Hp Hn] Hlo Hhi. split; [apply (H2 x x' y z Hp Hlo Hhi)|].
      now rewrite (footprint_ignores_x d x' x y z).
    - intro Hnil. rewrite Hnil in Hin. destruct Hin. }
  { split; [|split].
    - intros [[x y] z]. apply Hbox.
    - intros x x' y z Hp Hlo Hhi. apply Hbox. apply Hbox in Hp.
      unfold in_wall_panel in *. tauto.
    - intros _ [[x y] z]. apply Hbox. }
  set (wall_body :=
         Body.set_shapes
           (Body.mk (List.length h) (WallFactory.name self) [] [])
           (BoundingBoxCollection_from_event_as_shapes ev)).
  destruct (for_each_ok (fun w => World.root w = Some wall_body) pairs add_entry_round) with
    (s := World.add_kinematic_structure_entity World.empty wall_body)
    (h := h1) as (h2 & w & Hw & Hr).
  { intros s0 [entry T] h0 Hin Hroot.
    apply (add_entry_round_ok entry T s0 wall_body h0
             (entries_supported_In _ _ _ Hs Hin) Hroot). }
  { reflexivity. }
  exists (World.add_view w (WallView (Wall.mk (WallFactory.name self) (List.length h)))),
    h2, wall_body.
  split; [|split; [|split; [|split]]].
  - unfold bind at 1. unfold bind at 1. rewrite He. unfold ret at 1.
    rewrite add_doors_and_double_doors_rounds. fold wall_body.
    rewrite (bind_ok _ _ _ _ _ Hw). reflexivity.
  - unfold World.root, World.add_view. cbn [World.bodies]. exact Hr.
  - exact Hin_panel.
  - exact Hthrough.
  - exact Hwhole.
Qed.

Lemma wall_openings_go_through_witness :
  entries_supported (combine (WallFactory.door_factories sample_wall_two_doors)
                             (WallFactory.door_transforms sample_wall_two_doors)) = true /\
  exists world h',
    @WallFactory.create coincident_frames sample_wall_two_doors [] = (h', Ok world).
Proof.
  split; [reflexivity|].
  destruct (@wall_openings_go_through coincident_frames sample_wall_two_doors [] eq_refl)
    as (w & h' & _ & H & _).
  exists w, h'. exact H.
Defined.

Lemma for_each_map {A B S} (g : A -> B) (l : list A)
    (body : S -> A -> M S) (body' : S -> B -> M S) :
  (forall s a h, body' s (g a) h = body s a h) ->
  forall s h, for_each (map g l) body' s h = for_each l body s h.
Proof.
  intro Hb. induction l as [|a l IH]; intros s h; [reflexivity|].
  cbn [map for_each]. unfold bind. rewrite Hb.
  destruct (body s a h) as [h1 [s1|e]]; [apply IH|reflexivity].
Qed.

Lemma combine_fst_snd {A B} (l : list (A * B)) :
  combine (map fst l) (map snd l) = l.
Proof. induction l as [|[a b] l IH]; cbn; [reflexivity|now rewrite IH]. Qed.

Lemma combine_with_double_doors_grounded (self : WallFactory.t) :
  combine (WallFactory.door_factories (with_double_doors_grounded self))
          (WallFactory.door_transforms (with_double_doors_grounded self)) =
  map ground_double_door
    (combine (WallFactory.door_factories self) (WallFactory.door_transforms self)).
Proof. apply combine_fst_snd. Qed.

Lemma remove_doors_grounded `{K : Kinematics} (self : WallFactory.t) ev h :
  WallFactory.remove_doors_from_wall_event (with_double_doors_grounded self) ev h =
  WallFactory.remove_doors_from_wall_event self ev h.
Proof.
  rewrite !remove_doors_from_wall_event_rounds, combine_with_double_doors_grounded.
  apply for_each_map. intros s [[f|f] T] h0; [reflexivity|].
  unfold ground_double_door, grounded, remove_doors_round.
  destruct T as [[[tx ty] tz] rot]. reflexivity.
Qed.

Lemma add_doors_grounded (self : WallFactory.t) w h :
  WallFactory.add_doors_and_double_doors_to_world (with_double_doors_grounded self) w h =
  WallFactory.add_doors_and_double_doors_to_world self w h.
Proof.
  rewrite !add_doors_and_double_doors_rounds, combine_with_double_doors_grounded.
  apply for_each_map. intros s [[f|f] T] h0; [reflexivity|].
  unfold ground_double_door, grounded, add_entry_round.
  destruct T as [[[tx ty] tz] rot]. reflexivity.
Qed.

(** X14. The wall takes nothing but the x and y of the transform of a double
    door: its height and its rotation are dropped both where the opening is
    cut and where the double door is attached, so that a double door always
    stands on the ground of the wall, unrotated. [create()] gives the same
    result, world or error, when the transforms of the double doors are moved
    to the ground beforehand. *)
Theorem wall_grounds_double_doors `{K : Kinematics} (self : WallFactory.t) (h : Heap) :
  WallFactory.create (with_double_doors_grounded self) h = WallFactory.create self h.
Proof.
  unfold WallFactory.create, WallFactory._create, WallFactory._create_wall_collision.
  change (WallFactory.create_wall_event (with_double_doors_grounded self))
    with (WallFactory.create_wall_event self).
  change (WallFactory.name (with_double_doors_grounded self))
    with (WallFactory.name self).
  unfold bind, Body_new. rewrite remove_doors_grounded.
  destruct (WallFactory.remove_doors_from_wall_event self _ _) as [h1 [ev|e]];
    [|reflexivity].
  unfold ret. rewrite add_doors_grounded. reflexivity.
Qed.

(** ** Dressers *)

(** X15. On a world with a root in which the region of every body, seen from
    the root, has at least one point, [DresserFactory.make_interior] returns
    the world, constructs no body and changes nothing of the world but the
    shapes of its root body: connections, degrees of freedom, views and every
    body with another identity stay as they are. It only adds material: the
    new region of the root contains the region [E] the root had (as the
    forward kinematics report it in the root's own frame), and it never
    leaves the bounding box of [E]. *)
Theorem make_interior_only_fills_the_root `{K : Kinematics}
    (self : DresserFactory.t) (world : World.t) (root : Body.t) (h : Heap) :
  World.root world = Some root ->
  regions_have_points world (Body.id root) ->
  exists world' root',
    DresserFactory.make_interior self world h = (h, Ok world') /\
    World.root world' = Some root' /\
    (Body.id root' = Body.id root /\ Body.name root' = Body.name root /\
     Body.visual root' = Body.collision root') /\
    (World.connections world' = World.connections world /\
     World.degrees_of_freedom world' = World.degrees_of_freedom world /\
     World.views world' = World.views world /\
     map Body.id (World.bodies world') = map Body.id (World.bodies world)) /\
    (forall b, In b (World.bodies world) -> Body.id b <> Body.id root ->
               In b (World.bodies world')) /\
    let E := as_bounding_box_collection_at_origin world (Body.id root) (Body.id root) in
    (forall p, Product.contains E p = true ->
               Product.contains (Body.collision root') p = true) /\
    (forall p v, Product.contains (Body.collision root') p = true ->
                 Product.var_contains (Product.get (Product.bounding_box E) v)
                   (Product.coord p v) = true).
Proof.
  intros Hr _. eexists. eexists.
  split; [apply (make_interior_spec self world root h Hr)|].
  split; [apply root_set_shapes, Hr|].
  split; [repeat split|]. split; [repeat split|].
  { unfold World.set_shapes. cbn [World.bodies]. rewrite map_map.
    apply map_ext. intro b. now destruct (Nat.eqb (Body.id b) (Body.id root)). }
  split.
  { intros b Hin Hne. unfold World.set_shapes. cbn [World.bodies].
    apply in_map_iff. exists b. split; [|exact Hin].
    apply Nat.eqb_neq in Hne. now rewrite Hne. }
  cbv zeta. cbn [Body.set_shapes Body.collision].
  set (E := as_bounding_box_collection_at_origin world (Body.id root) (Body.id root)).
  split.
  - intros [[x y] z] Hp. rewrite fill_container_body_contains, Hp. reflexivity.
  - intros [[x y] z] v. rewrite fill_container_body_contains, orb_true_iff.
    intros [Hp|Hp].
    + apply ProductFacts.bounding_box_contains. now exists (x, y, z).
    + apply andb_true_iff in Hp as [HF Hx].
      unfold carved_footprint in HF. rewrite fold_difference_contains in HF.
      apply andb_true_iff in HF as [HF _].
      apply ProductFacts.marginal_yz_contains in HF as [x' HE].
      destruct v; cbn [Product.coord].
      * exact Hx.
      * apply ProductFacts.bounding_box_contains. now exists (x', y, z).
      * apply ProductFacts.bounding_box_contains. now exists (x', y, z).
Qed.

Lemma make_interior_only_fills_the_root_witness :
  World.root sample_parent =
    Some (Body.mk 0 (ContainerFactory.name sample_container)
            (ContainerFactory.create_container_event sample_container)
            (ContainerFactory.create_container_event sample_container)) /\
  @regions_have_points coincident_frames sample_parent 0 /\
  exists world',
    @DresserFactory.make_interior coincident_frames (sample_dresser Direction.Y)
      sample_parent sample_parent_log = (sample_parent_log, Ok world').
Proof.
  assert (Hp : @regions_have_points coincident_frames sample_parent 0).
  { intros b [<-|[]]. vm_compute. reflexivity. }
  split; [reflexivity|]. split; [exact Hp|].
  destruct (@make_interior_only_fills_the_root coincident_frames
              (sample_dresser Direction.Y) sample_parent _ sample_parent_log eq_refl Hp)
    as (w' & _ & H & _).
  exists w'. exact H.
Defined.




Lemma seq_two_more (n k : nat) :
  seq n (2 * S k) = n :: S n :: seq (S (S n)) (2 * k).
Proof. replace (2 * S k)%nat with (S (S (2 * k))) by lia. reflexivity. Qed.

Lemma door_bodies_seq pairs n :
  map Body.id (door_bodies pairs n) = seq n (2 * List.length pairs).
Proof.
  revert n. induction pairs as [|[f T] pairs IH]; intro n; [reflexivity|].
  cbn [List.length]. rewrite seq_two_more.
  cbn [door_bodies door_world World.bodies app map Body.id]. now rewrite IH.
Qed.

Lemma drawer_bodies_seq pairs n :
  map Body.id (drawer_bodies pairs n) = seq n (2 * List.length pairs).
Proof.
  revert n. induction pairs as [|[f T] pairs IH]; intro n; [reflexivity|].
  cbn [List.length]. rewrite seq_two_more.
  cbn [drawer_bodies drawer_world World.bodies app map Body.id]. now rewrite IH.
Qed.

Lemma door_connections_children pairs parent n :
  map connection_child (door_connections pairs parent n) =
  seq n (2 * List.length pairs).
Proof.
  revert n. induction pairs as [|[f T] pairs IH]; intro n; [reflexivity|].
  cbn [List.length]. rewrite seq_two_more.
  cbn [door_connections door_connection door_world World.connections app map
       connection_child]. now rewrite IH.
Qed.

Lemma drawer_connections_children pairs parent n :
  map connection_child (drawer_connections pairs parent n) =
  seq n (2 * List.length pairs).
Proof.
  revert n. induction pairs as [|[f T] pairs IH]; intro n; [reflexivity|].
  cbn [List.length]. rewrite seq_two_more.
  cbn [drawer_connections drawer_connection drawer_world World.connections app map
       connection_child]. now rewrite IH.
Qed.

Lemma door_connections_hang pairs parent n cs :
  incl (door_connections pairs parent n) cs ->
  Forall (hangs_under parent cs) (door_connections pairs parent n).
Proof.
  revert n. induction pairs as [|[f T] pairs IH]; intros n Hi; [constructor|].
  cbn [door_connections door_world World.connections app] in *.
  constructor; [left; reflexivity|].
  constructor.
  - right. exists (door_connection f T parent n).
    split; [apply Hi; left; reflexivity|]. split; reflexivity.
  - apply IH. intros c Hc. apply Hi. right. right. exact Hc.
Qed.

Lemma drawer_connections_hang pairs parent n cs :
  incl (drawer_connections pairs parent n) cs ->
  Forall (hangs_under parent cs) (drawer_connections pairs parent n).
Proof.
  revert n. induction pairs as [|[f T] pairs IH]; intros n Hi; [constructor|].
  cbn [drawer_connections drawer_world World.connections app] in *.
  constructor; [left; reflexivity|].
  constructor.
  - right. exists (drawer_connection f T parent n).
    split; [apply Hi; left; reflexivity|]. split; reflexivity.
  - apply IH. intros c Hc. apply Hi. right. right. exact Hc.
Qed.

Lemma bodies_dresser_world (self : DresserFactory.t) n :
  map Body.id (World.bodies (dresser_world self n)) =
  seq n (1 + 2 * List.length (combine (DresserFactory.door_factories self)
                                      (DresserFactory.door_transforms self))
           + 2 * List.length (combine (DresserFactory.drawers_factories self)
                                      (DresserFactory.drawer_transforms self))).
Proof.
  unfold dresser_world, World.set_name, World.add_view. cbn [World.bodies].
  rewrite bodies_with_drawers, bodies_with_doors.
  cbn [container_world World.bodies app map Body.id].
  rewrite map_app, door_bodies_seq, drawer_bodies_seq.
  cbn [Nat.add seq]. f_equal. now rewrite seq_app.
Qed.

(** X17. The world [DresserFactory.make_dresser_world] assembles, for paired
    doors with a supported handle direction, is a tree of depth at most two
    under the dresser body: it has one body for the container and two (panel
    or container, and handle) for every paired door and every paired drawer,
    all different; the children of its connections are, in some order, the
    bodies after the root, so that every body but the root has exactly one
    parent connection; and every connection starts at the root or at the
    child of a connection that starts at the root. A world [create()] returns
    has the bodies and the connections of the assembled one. *)
Theorem dresser_world_is_a_tree (self : DresserFactory.t) (h : Heap) :
  doors_supported (combine (DresserFactory.door_factories self)
                           (DresserFactory.door_transforms self)) = true ->
  exists assembled h' root,
    DresserFactory.make_dresser_world self h = (h', Ok assembled) /\
    World.root assembled = Some root /\
    List.length (World.bodies assembled) =
      (1 + 2 * paired (DresserFactory.door_factories self)
                      (DresserFactory.door_transforms self)
         + 2 * paired (DresserFactory.drawers_factories self)
                      (DresserFactory.drawer_transforms self))%nat /\
    NoDup (map Body.id (World.bodies assembled)) /\
    Permutation (map connection_child (World.connections assembled))
                (map Body.id (tl (World.bodies assembled))) /\
    Forall (hangs_under (Body.id root) (World.connections assembled))
      (World.connections assembled) /\
    forall (K : Kinematics) (final : World.t) (h'' : Heap),
      DresserFactory.create self h = (h'', Ok final) ->
      map Body.id (World.bodies final) = map Body.id (World.bodies assembled) /\
      World.connections final = World.connections assembled.
Proof.
  intro Hs.
  pose proof (make_dresser_world_spec self h Hs) as Hm.
  pose proof (root_dresser_world self (List.length h)) as Hr.
  set (n := List.length h) in *.
  pose proof (bodies_dresser_world self n) as Hids.
  pose proof (connections_dresser_world self n) as Hcs.
  set (doors := combine (DresserFactory.door_factories self)
                        (DresserFactory.door_transforms self)) in *.
  set (drawers := combine (DresserFactory.drawers_factories self)
                          (DresserFactory.drawer_transforms self)) in *.
  eexists. eexists. eexists. split; [exact Hm|]. split; [exact Hr|].
  split; [|split; [|split; [|split]]].
  - rewrite <- (length_map Body.id), Hids, length_seq.
    unfold doors, drawers. rewrite !length_combine_paired. reflexivity.
  - rewrite Hids. apply seq_NoDup.
  - assert (E : map connection_child (World.connections (dresser_world self n)) =
                map Body.id (tl (World.bodies (dresser_world self n)))).
    { transitivity (tl (map Body.id (World.bodies (dresser_world self n)))).
      - rewrite Hcs, Hids, map_app.
        rewrite door_connections_children, drawer_connections_children.
        cbn [Nat.add seq tl]. now rewrite seq_app.
      - destruct (World.bodies (dresser_world self n)); reflexivity. }
    rewrite E. apply Permutation_refl.
  - cbn [Body.id]. rewrite Hcs.
    apply Forall_app. split.
    + apply door_connections_hang. apply incl_appl, incl_refl.
    + apply drawer_connections_hang. apply incl_appr, incl_refl.
  - intros K final h'' Hc.
    unfold DresserFactory.create, DresserFactory._create in Hc.
    destruct (Nat.eqb (List.length (DresserFactory.drawers_factories self))
                (List.length (DresserFactory.drawer_transforms self)));
      [|discriminate Hc].
    cbn [assert_] in Hc. unfold ret at 1, bind at 1 in Hc.
    rewrite (bind_ok _ _ _ _ _ Hm) in Hc.
    rewrite (make_interior_spec self _ _ _ Hr) in Hc.
    injection Hc as _ <-. split; [|reflexivity].
    unfold World.set_shapes. cbn [World.bodies]. rewrite map_map.
    apply map_ext. intro b. now destruct (Nat.eqb (Body.id b) _).
Qed.

Lemma dresser_world_is_a_tree_witness :
  doors_supported (combine (DresserFactory.door_factories (sample_dresser Direction.Y))
                           (DresserFactory.door_transforms (sample_dresser Direction.Y)))
    = true /\
  exists assembled h',
    DresserFactory.make_dresser_world (sample_dresser Direction.Y) [] =
      (h', Ok assembled).
Proof.
  split; [reflexivity|].
  destruct (dresser_world_is_a_tree (sample_dresser Direction.Y) [] eq_refl)
    as (w & h' & _ & H & _).
  exists w, h'. exact H.
Defined.
